(** * Basil voice studio: audio ducking, barge-in, VAD, command routing

    A shallow embedding of the real-time audio-control core of the backend
    (TypeScript) and the properties its specification states about it.

    Conventions used throughout:
    - a Node [Buffer] is a [list byte]; an out-of-range [readInt16LE] is the
      [RangeError] the runtime throws;
    - a JavaScript [number] that holds a gain, an energy or a confidence is
      an exact real ([R]): rounding error of IEEE doubles is not modelled,
      the one non-finite value that the code can produce (0/0 in the ramp
      interpolation) is modelled explicitly;
    - integer-valued numbers (sample values, counters, lengths) are [Z] or
      [nat];
    - callbacks are modelled by the list of calls they receive. *)

From Stdlib Require Import Reals Lra Lia ZArith List Bool Arith.
From Stdlib Require QArith Lqa.
From Stdlib.Strings Require Import Byte Ascii.
From Stdlib.Strings Require String.
Import ListNotations.


(* ================================================================== *)
(** * Shared types (packages/shared) *)
(* ================================================================== *)

Module Shared.

Inductive SpeakerId : Type := you | claude | guest.

Definition SpeakerId_eqb (a b : SpeakerId) : bool :=
  match a, b with
  | you, you | claude, claude | guest, guest => true
  | _, _ => false
  end.

Inductive OrbState : Type :=
| idle | listening | thinking | speaking | muted | error.

Definition OrbState_eqb (a b : OrbState) : bool :=
  match a, b with
  | idle, idle | listening, listening | thinking, thinking
  | speaking, speaking | muted, muted | error, error => true
  | _, _ => false
  end.

Record CaptionPayload : Type := {
  id : String.string;
  speaker : SpeakerId;
  text : String.string;
  timestamp : Z
}.

Module SharedScreenThinkingState.
Record t : Type := {
  speaker : SpeakerId;
  durationMs : Z;
  startedAt : Z;
  endsAt : Z
}.
End SharedScreenThinkingState.

(** [{ mode: "conversation" }] or [{ mode: "thinking", thinking }] *)
Inductive SharedScreenState : Type :=
| conversationScreen
| thinkingScreen (thinking : SharedScreenThinkingState.t).

Module OrchestratorStateSnapshot.
Record t : Type := {
  orbStates : SpeakerId -> OrbState;
  captions : list CaptionPayload;
  autopilot : bool;
  sharedScreen : SharedScreenState
}.
End OrchestratorStateSnapshot.

End Shared.


(* ================================================================== *)
(** * Node buffers of 16-bit little-endian PCM *)
(* ================================================================== *)

Module Buffer.

Definition t := list byte.

(** A call either returns or throws the runtime's [RangeError]
    (ERR_OUT_OF_RANGE, or ERR_BUFFER_OUT_OF_BOUNDS on a buffer shorter
    than two bytes). *)
Inductive outcome (A : Type) : Type :=
| Ok (a : A)
| RangeError.
Arguments Ok {A} a.
Arguments RangeError {A}.

Definition byteZ (b : byte) : Z := Z.of_N (Byte.to_N b).

Definition zbyte (z : Z) : byte :=
  match Byte.of_N (Z.to_N (z mod 256)) with
  | Some b => b
  | None => x00
  end.

(** [buf.readInt16LE(offset)]: both bytes must exist, the value is the
    two's-complement reading of [first + last * 2**8]. *)
Definition readInt16LE (buf : t) (offset : nat) : option Z :=
  match nth_error buf offset, nth_error buf (S offset) with
  | Some first, Some last =>
      let val := (byteZ first + byteZ last * 256)%Z in
      Some (if (val <? 32768)%Z then val else (val - 65536)%Z)
  | _, _ => None
  end.

(** The two bytes [writeInt16LE(value, _)] stores, low byte first. *)
Definition int16LE (value : Z) : list byte :=
  [zbyte value; zbyte (value / 256)].

End Buffer.

Import Buffer.


(* ================================================================== *)
(** * AudioProcessor (adapters/factory.ts): one gain ramp per speaker *)
(* ================================================================== *)

Module AudioProcessor.

Local Open Scope R_scope.

(** Numbers are read as exact reals.  The theorems about this module
    state what the rounding of doubles leaves alone: lengths, bounds,
    signs, sample counts, and the agreement of two runs of the same
    arithmetic; they do not state the value of a rounded product. *)

Inductive DuckingProfile : Type := soft | medium | hard | custom.
Inductive DuckingCurve : Type := linear | exponential | logarithmic.

Module DuckingConfig.
Record t : Type := {
  profile : DuckingProfile;
  reductionDb : R;
  rampUpMs : R;
  rampDownMs : R;
  curve : DuckingCurve;
  preDuckingMs : R
}.
End DuckingConfig.

Record AudioProcessorConfig : Type := {
  sampleRate : R;
  ducking : DuckingConfig.t
}.

Definition duckingDefaults : DuckingConfig.t :=
  {| DuckingConfig.profile := medium;
     DuckingConfig.reductionDb := -12;
     DuckingConfig.rampUpMs := 50;
     DuckingConfig.rampDownMs := 150;
     DuckingConfig.curve := exponential;
     DuckingConfig.preDuckingMs := 0 |}.

Definition defaultConfig : AudioProcessorConfig :=
  {| sampleRate := 48000; ducking := duckingDefaults |}.

Record GainRampState : Type := {
  active : bool;
  startGain : R;
  targetGain : R;
  currentGain : R;
  rampSamples : Z;
  elapsedSamples : nat;
  curve : DuckingCurve
}.

(** The ramp state the constructor installs. *)
Definition initialRampState (cfg : AudioProcessorConfig) : GainRampState :=
  {| active := false; startGain := 1; targetGain := 1; currentGain := 1;
     rampSamples := 0; elapsedSamples := 0;
     curve := DuckingConfig.curve (ducking cfg) |}.

Definition getDuckingReduction (cfg : AudioProcessorConfig) : R :=
  match DuckingConfig.profile (ducking cfg) with
  | custom => DuckingConfig.reductionDb (ducking cfg)
  | soft => -6
  | medium => -12
  | hard => -18
  end.

(** [Math.pow(10, db / 20)] *)
Definition dbToGain (db : R) : R := Rpower 10 (db / 20).

(** [Math.floor] *)
Definition floor (x : R) : Z := Int_part x.

(** [Math.round]: nearest integer, ties towards plus infinity. *)
Definition round (x : R) : Z := Int_part (x + / 2).

Definition startDucking (cfg : AudioProcessorConfig) (rs : GainRampState)
    (immediate : bool) : GainRampState :=
  let reductionDb := getDuckingReduction cfg in
  let targetGain := dbToGain reductionDb in
  if immediate then
    {| active := false; startGain := targetGain; targetGain := targetGain;
       currentGain := targetGain; rampSamples := 0; elapsedSamples := 0;
       curve := DuckingConfig.curve (ducking cfg) |}
  else
    let rampSamples :=
      floor ((sampleRate cfg / 1000) * DuckingConfig.rampUpMs (ducking cfg)) in
    {| active := true; startGain := currentGain rs; targetGain := targetGain;
       currentGain := currentGain rs; rampSamples := rampSamples;
       elapsedSamples := 0; curve := DuckingConfig.curve (ducking cfg) |}.

Definition stopDucking (cfg : AudioProcessorConfig) (rs : GainRampState)
    (immediate : bool) : GainRampState :=
  let targetGain := 1 in
  if immediate then
    {| active := false; startGain := targetGain; targetGain := targetGain;
       currentGain := targetGain; rampSamples := 0; elapsedSamples := 0;
       curve := DuckingConfig.curve (ducking cfg) |}
  else
    let rampSamples :=
      floor ((sampleRate cfg / 1000) * DuckingConfig.rampDownMs (ducking cfg)) in
    {| active := true; startGain := currentGain rs; targetGain := targetGain;
       currentGain := currentGain rs; rampSamples := rampSamples;
       elapsedSamples := 0; curve := DuckingConfig.curve (ducking cfg) |}.

(** The curve applied to the ramp's progress. *)
Definition curvedProgress (c : DuckingCurve) (progress : R) : R :=
  match c with
  | linear => progress
  | exponential => progress * progress
  | logarithmic => 1 - (1 - progress) * (1 - progress)
  end.

(** [computeRampGain]: [None] stands for the non-finite number that the
    division by [rampSamples = 0] produces (NaN, since [elapsedSamples]
    is then 0 in every state the class can reach). *)
Definition computeRampGain (rs : GainRampState) : option R :=
  if (rampSamples rs =? 0)%Z then None
  else
    let progress := INR (elapsedSamples rs) / IZR (rampSamples rs) in
    Some (startGain rs
          + (targetGain rs - startGain rs) * curvedProgress (curve rs) progress).

(** The gain of one sample and the ramp bookkeeping that goes with it
    (the body of the loop up to "Apply gain and clamp"). *)
Definition sampleGain (rs : GainRampState) : option R * GainRampState :=
  if active rs then
    let gain := computeRampGain rs in
    let elapsed := S (elapsedSamples rs) in
    if (rampSamples rs <=? Z.of_nat elapsed)%Z then
      (gain,
       {| active := false; startGain := startGain rs;
          targetGain := targetGain rs; currentGain := targetGain rs;
          rampSamples := rampSamples rs; elapsedSamples := elapsed;
          curve := curve rs |})
    else
      (gain,
       {| active := true; startGain := startGain rs;
          targetGain := targetGain rs;
          currentGain := match gain with
                         | Some g => g
                         | None => currentGain rs (* not reached: rampSamples > elapsed > 0 *)
                         end;
          rampSamples := rampSamples rs; elapsedSamples := elapsed;
          curve := curve rs |})
  else (Some (currentGain rs), rs).

Definition clamp16 (z : Z) : Z := Z.max (-32768) (Z.min 32767 z).

(** [Math.max(-32768, Math.min(32767, Math.round(sample * gain)))]; a NaN
    gain survives rounding and clamping and is stored as 0 by
    [writeInt16LE]. *)
Definition scale (sample : Z) (gain : option R) : Z :=
  match gain with
  | Some g => clamp16 (round (IZR sample * g))
  | None => 0%Z
  end.

(** The loop [for (let i = 0; i < sampleCount; i++)], [n] iterations from
    index [i].  The fresh output buffer is written left to right without
    gaps, so it is represented by the bytes written so far. *)
Fixpoint processLoop (n : nat) (buffer : Buffer.t) (i : nat)
    (rs : GainRampState) (processed : Buffer.t)
    : GainRampState * outcome Buffer.t :=
  match n with
  | O => (rs, Ok processed)
  | S n' =>
      let byteOffset := (i * 2)%nat in
      match readInt16LE buffer byteOffset with
      | None => (rs, RangeError)
      | Some sample =>
          let '(gain, rs') := sampleGain rs in
          let scaled := scale sample gain in
          processLoop n' buffer (S i) rs' (processed ++ int16LE scaled)
      end
  end.

(** How many [i >= 0] satisfy [i < length / 2] (the division is exact
    JavaScript division, so an odd length gives one more iteration than
    there are whole samples). *)
Definition sampleIterations (length : nat) : nat := Nat.div2 (S length).

(** "No processing needed": no ramp and unity gain. *)
Definition bypass (rs : GainRampState) : bool :=
  negb (active rs) && (if Req_dec_T (currentGain rs) 1 then true else false).

(** [processBuffer]: the new ramp state (the object is mutated even when
    the call throws) and what the call returns. *)
Definition processBuffer (rs : GainRampState) (buffer : Buffer.t)
    : GainRampState * outcome Buffer.t :=
  if bypass rs then (rs, Ok buffer)
  else processLoop (sampleIterations (length buffer)) buffer 0 rs [].

Definition getCurrentGain (rs : GainRampState) : R := currentGain rs.
Definition isRamping (rs : GainRampState) : bool := active rs.

(** ** Ramp state after [k] samples, and the gain applied to sample [k] *)

Fixpoint stateAfter (rs : GainRampState) (k : nat) : GainRampState :=
  match k with
  | O => rs
  | S k' => stateAfter (snd (sampleGain rs)) k'
  end.

Definition gainAt (rs : GainRampState) (k : nat) : option R :=
  fst (sampleGain (stateAfter rs k)).

(** A custom profile whose "reduction" is a 20 dB boost; the constructor
    accepts any number for [reductionDb]. *)
Definition boostConfig : AudioProcessorConfig :=
  {| sampleRate := 48000;
     ducking :=
       {| DuckingConfig.profile := custom;
          DuckingConfig.reductionDb := 20;
          DuckingConfig.rampUpMs := 50;
          DuckingConfig.rampDownMs := 150;
          DuckingConfig.curve := exponential;
          DuckingConfig.preDuckingMs := 0 |} |}.

(** ** A call sequence on one processor *)

Inductive call : Type :=
| StartDucking (immediate : bool)
| StopDucking (immediate : bool)
| ProcessBuffer (buffer : Buffer.t).

Definition perform (cfg : AudioProcessorConfig) (rs : GainRampState)
    (c : call) : GainRampState :=
  match c with
  | StartDucking immediate => startDucking cfg rs immediate
  | StopDucking immediate => stopDucking cfg rs immediate
  | ProcessBuffer buffer => fst (processBuffer rs buffer)
  end.

Definition run (cfg : AudioProcessorConfig) (calls : list call)
    : GainRampState :=
  fold_left (perform cfg) calls (initialRampState cfg).

(** ** What is claimed of the ramp state *)

Record Inv (rs : GainRampState) : Prop := {
  inv_current : 0 <= currentGain rs <= 1;
  inv_start : 0 <= startGain rs <= 1;
  inv_target : 0 <= targetGain rs <= 1;
  inv_elapsed :
    active rs = true -> (Z.of_nat (elapsedSamples rs) <= rampSamples rs)%Z;
  inv_settled : active rs = false -> currentGain rs = targetGain rs
}.

(** Configurations whose ducking gain is an attenuation and whose ramps
    have a length. *)
Record Attenuating (cfg : AudioProcessorConfig) : Prop := {
  att_reduction : getDuckingReduction cfg <= 0;
  att_rate : 0 <= sampleRate cfg;
  att_up : 0 <= DuckingConfig.rampUpMs (ducking cfg);
  att_down : 0 <= DuckingConfig.rampDownMs (ducking cfg)
}.

(** ** Reporting *)

(** [gainToDb]: [None] stands for minus infinity. *)
Definition gainToDb (gain : R) : option R :=
  if Rle_dec gain 0 then None else Some (20 * (ln gain / ln 10)).

Definition getCurrentGainDb (rs : GainRampState) : option R :=
  gainToDb (currentGain rs).

Definition isDucking (rs : GainRampState) : bool :=
  (if Rlt_dec (currentGain rs) 0.99 then true else false)
  || (if Rlt_dec (targetGain rs) 0.99 then true else false).

(** The state after the buffers [buffers] have been processed in turn. *)
Definition processAll (rs : GainRampState) (buffers : list Buffer.t)
    : GainRampState :=
  fold_left (fun rs buffer => fst (processBuffer rs buffer)) buffers rs.

End AudioProcessor.

(* ================================================================== *)
(** * MultiChannelAudioProcessor (adapters/factory.ts) *)
(* ================================================================== *)

Module MultiChannel.

Import AudioProcessor.

(** The [Map] from speaker id to processor, in insertion order; each
    processor is its ramp state, the configuration being shared. *)
Record t : Type := {
  processors : list (String.string * GainRampState);
  config : AudioProcessorConfig
}.

Definition create (config : AudioProcessorConfig) : t :=
  {| processors := []; config := config |}.

Fixpoint get (l : list (String.string * GainRampState))
    (speakerId : String.string) : option GainRampState :=
  match l with
  | [] => None
  | (id, rs) :: rest =>
      if String.eqb id speakerId then Some rs else get rest speakerId
  end.

(** The processor of [speakerId] mutated by [f]. *)
Fixpoint modify (l : list (String.string * GainRampState))
    (speakerId : String.string) (f : GainRampState -> GainRampState)
    : list (String.string * GainRampState) :=
  match l with
  | [] => []
  | (id, rs) :: rest =>
      if String.eqb id speakerId then (id, f rs) :: rest
      else (id, rs) :: modify rest speakerId f
  end.

(** [getProcessor]: the processor is created on first use. *)
Definition getProcessor (m : t) (speakerId : String.string)
    : t * GainRampState :=
  match get (processors m) speakerId with
  | Some rs => (m, rs)
  | None =>
      let rs := initialRampState (config m) in
      ({| processors := processors m ++ [(speakerId, rs)];
          config := config m |}, rs)
  end.

(** A method call on the processor [getProcessor] returns. *)
Definition onProcessor (m : t) (speakerId : String.string)
    (f : GainRampState -> GainRampState) : t :=
  let (m, _) := getProcessor m speakerId in
  {| processors := modify (processors m) speakerId f; config := config m |}.

Definition processAudio (m : t) (speakerId : String.string)
    (buffer : Buffer.t) : t * outcome Buffer.t :=
  let (m', rs) := getProcessor m speakerId in
  (onProcessor m speakerId (fun rs => fst (processBuffer rs buffer)),
   snd (processBuffer rs buffer)).

Definition startDucking (m : t) (speakerIds : list String.string)
    (immediate : bool) : t :=
  fold_left
    (fun m id =>
       onProcessor m id
         (fun rs => AudioProcessor.startDucking (config m) rs immediate))
    speakerIds m.

Definition stopDucking (m : t) (speakerIds : list String.string)
    (immediate : bool) : t :=
  fold_left
    (fun m id =>
       onProcessor m id
         (fun rs => AudioProcessor.stopDucking (config m) rs immediate))
    speakerIds m.

Definition getDuckingStatus (m : t)
    : list (String.string * (bool * R * option R)) :=
  map (fun entry =>
         (fst entry,
          (isDucking (snd entry), getCurrentGain (snd entry),
           getCurrentGainDb (snd entry))))
    (processors m).

(** Calls on the facade. *)
Inductive call : Type :=
| StartDucking (speakerIds : list String.string) (immediate : bool)
| StopDucking (speakerIds : list String.string) (immediate : bool)
| ProcessAudio (speakerId : String.string) (buffer : Buffer.t).

Definition perform (m : t) (c : call) : t :=
  match c with
  | StartDucking ids immediate => startDucking m ids immediate
  | StopDucking ids immediate => stopDucking m ids immediate
  | ProcessAudio id buffer => fst (processAudio m id buffer)
  end.

Definition run (config : AudioProcessorConfig) (calls : list call) : t :=
  fold_left perform calls (create config).

(** The calls that one speaker's processor receives from a facade call. *)
Definition projected (speakerId : String.string) (c : call)
    : list AudioProcessor.call :=
  match c with
  | StartDucking ids immediate =>
      map (fun _ => AudioProcessor.StartDucking immediate)
        (filter (fun id => String.eqb id speakerId) ids)
  | StopDucking ids immediate =>
      map (fun _ => AudioProcessor.StopDucking immediate)
        (filter (fun id => String.eqb id speakerId) ids)
  | ProcessAudio id buffer =>
      if String.eqb id speakerId then [AudioProcessor.ProcessBuffer buffer]
      else []
  end.

End MultiChannel.


(* ================================================================== *)
(** * ProductionOrchestrator (orchestrator-v2.ts) *)
(* ================================================================== *)

Module Orchestrator.

Local Open Scope R_scope.

Definition DUCKING_DB_REDUCTION : R := -12.
Definition MAX_CAPTION_HISTORY : nat := 20.
Definition CAPTION_SNAPSHOT_LIMIT : nat := 6.

(** [Math.pow(10, DUCKING_DB_REDUCTION / 20)] *)
Definition duckingGain : R := Rpower 10 (DUCKING_DB_REDUCTION / 20).

(** ** applyGain: the static-gain path used when the enhanced processor
    is not in play *)

(** The loop [for (let i = 0; i < buffer.length; i += 2)], [n] iterations
    from offset [i]; [scaled] holds the bytes written so far. *)
Fixpoint applyGainLoop (n : nat) (buffer : Buffer.t) (i : nat) (gain : R)
    (scaled : Buffer.t) : outcome Buffer.t :=
  match n with
  | O => Ok scaled
  | S n' =>
      if (length buffer <=? i + 1)%nat then
        (* odd-length buffers: scaled[i] = buffer[i] *)
        match nth_error buffer i with
        | Some b => applyGainLoop n' buffer (i + 2) gain (scaled ++ [b])
        | None => applyGainLoop n' buffer (i + 2) gain (scaled ++ [x00])
        end
      else
        match readInt16LE buffer i with
        | None => RangeError
        | Some sample =>
            let value := AudioProcessor.round (IZR sample * gain) in
            let value := AudioProcessor.clamp16 value in
            applyGainLoop n' buffer (i + 2) gain (scaled ++ int16LE value)
        end
  end.

Definition applyGain (buffer : Buffer.t) (gain : R) : outcome Buffer.t :=
  applyGainLoop (Nat.div2 (S (length buffer))) buffer 0 gain [].


(** ** Presentation state, captions and snapshots *)

Import Shared.

Record State : Type := {
  autopilot : bool;
  orbStates : SpeakerId -> OrbState;
  captions : list CaptionPayload;
  sharedScreen : SharedScreenState
}.

Definition initialState : State :=
  {| autopilot := false; orbStates := fun _ => idle; captions := [];
     sharedScreen := conversationScreen |}.

(** [this.captions = [caption, ...this.captions].slice(0, MAX_CAPTION_HISTORY)] *)
Definition addCaption (st : State) (caption : CaptionPayload) : State :=
  {| autopilot := autopilot st; orbStates := orbStates st;
     captions := firstn MAX_CAPTION_HISTORY ([caption] ++ captions st);
     sharedScreen := sharedScreen st |}.

Definition updateOrbState (st : State) (speaker : SpeakerId)
    (state : OrbState) : State :=
  if OrbState_eqb (orbStates st speaker) state then st
  else
    {| autopilot := autopilot st;
       orbStates := fun s => if SpeakerId_eqb s speaker then state
                             else orbStates st s;
       captions := captions st; sharedScreen := sharedScreen st |}.

Definition snapshot (st : State) : OrchestratorStateSnapshot.t :=
  {| OrchestratorStateSnapshot.orbStates := orbStates st;
     OrchestratorStateSnapshot.captions := firstn CAPTION_SNAPSHOT_LIMIT (captions st);
     OrchestratorStateSnapshot.autopilot := autopilot st;
     OrchestratorStateSnapshot.sharedScreen := sharedScreen st |}.

(** What the orchestrator reads of a routed command. *)
Inductive CommandAction : Type := cmdThinking | cmdAddress | cmdOther.

Record Command : Type := {
  action : CommandAction;
  targets : list SpeakerId;
  commandDurationMs : option Z
}.

Definition DEFAULT_THINKING_DURATION_MS : Z := 30000.

Definition enterThinkingMode (st : State) (command : Command) (now : Z)
    : State :=
  let speaker := match targets command with
                 | t :: _ => t
                 | [] => claude
                 end in
  let durationMs := match commandDurationMs command with
                    | Some d => d
                    | None => DEFAULT_THINKING_DURATION_MS
                    end in
  let st1 :=
    {| autopilot := autopilot st; orbStates := orbStates st;
       captions := captions st;
       sharedScreen :=
         thinkingScreen
           {| SharedScreenThinkingState.speaker := speaker;
              SharedScreenThinkingState.durationMs := durationMs;
              SharedScreenThinkingState.startedAt := now;
              SharedScreenThinkingState.endsAt := (now + durationMs)%Z |} |} in
  let st2 := updateOrbState st1 speaker thinking in
  fold_left
    (fun s other =>
       if SpeakerId_eqb other speaker then s
       else updateOrbState s other muted)
    [claude; guest] st2.

Definition exitThinkingMode (st : State) : State :=
  match sharedScreen st with
  | conversationScreen => st
  | thinkingScreen _ =>
      let st1 :=
        {| autopilot := autopilot st; orbStates := orbStates st;
           captions := captions st; sharedScreen := conversationScreen |} in
      fold_left (fun s agent => updateOrbState s agent listening)
        [claude; guest] st1
  end.

Definition handleCommand (st : State) (command : Command) (now : Z)
    : State :=
  match action command with
  | cmdThinking => enterThinkingMode st command now
  | cmdAddress | cmdOther => st
  end.

(** [handleSttTranscript]: [uuid] and [now] are what [randomUUID()] and
    [Date.now()] return, [routed] what the session's command router
    returns for the text. *)
Definition handleSttTranscript (st : State) (txt : String.string)
    (isFinal : bool) (uuid : String.string) (now : Z) (routed : option Command)
    : State :=
  if isFinal then
    let caption :=
      {| id := uuid; speaker := you; text := txt; timestamp := now |} in
    let st1 := addCaption st caption in
    let st2 := updateOrbState st1 you listening in
    match routed with
    | Some command => handleCommand st2 command now
    | None => st2
    end
  else st.

(** What reaches the orchestrator's presentation state. *)
Inductive event : Type :=
| SttTranscript (txt : String.string) (isFinal : bool) (uuid : String.string) (now : Z)
                (routed : option Command)
| ToggleAutopilot (on : bool)
| OrbUpdate (speaker : SpeakerId) (state : OrbState)
| ThinkingTimer.

Definition handle (st : State) (ev : event) : State :=
  match ev with
  | SttTranscript txt isFinal uuid now routed =>
      handleSttTranscript st txt isFinal uuid now routed
  | ToggleAutopilot on =>
      {| autopilot := on; orbStates := orbStates st;
         captions := captions st; sharedScreen := sharedScreen st |}
  | OrbUpdate speaker state => updateOrbState st speaker state
  | ThinkingTimer => exitThinkingMode st
  end.

Definition run (evs : list event) : State := fold_left handle evs initialState.

(** The captions of the finalized transcripts among [evs], oldest first. *)
Fixpoint finalCaptions (evs : list event) : list CaptionPayload :=
  match evs with
  | [] => []
  | SttTranscript txt true uuid now _ :: rest =>
      {| id := uuid; speaker := you; text := txt; timestamp := now |}
      :: finalCaptions rest
  | _ :: rest => finalCaptions rest
  end.

End Orchestrator.


(* ================================================================== *)
(** * BargeInManager (services/barge-in-manager.ts) *)
(* ================================================================== *)

Module BargeIn.

Import Shared.

Inductive BargeInMode : Type :=
| immediate | graceful | sentenceComplete | disabled.

Inductive BargeInPriority : Type := low | medium | high.

Module Config.
Record t : Type := {
  mode : BargeInMode;
  gracePeriodMs : Z;
  sentenceCompletionMaxMs : Z;
  priority : BargeInPriority;
  allowPartialInterruption : bool;
  duckingEnabled : bool;
  duckingLeadTimeMs : Z
}.
End Config.

Definition defaults : Config.t :=
  {| Config.mode := graceful;
     Config.gracePeriodMs := 300;
     Config.sentenceCompletionMaxMs := 2000;
     Config.priority := medium;
     Config.allowPartialInterruption := true;
     Config.duckingEnabled := true;
     Config.duckingLeadTimeMs := 150 |}.

Inductive EventType : Type :=
| bargeInStart | bargeInComplete | bargeInCancelled.

Module Event.
Record t : Type := {
  type : EventType;
  timestamp : Z;
  interrupter : SpeakerId;
  interrupted : list SpeakerId;
  mode : BargeInMode;
  confidence : R;
  gracePeriodUsed : bool;
  duckingApplied : bool
}.
End Event.

Module Speaker.
Record t : Type := {
  id : SpeakerId;
  speaking : bool;
  priority : BargeInPriority;
  startedAt : option Z;
  lastActivityAt : option Z;
  allowInterruption : bool
}.
End Speaker.

Module Pending.
Record t : Type := {
  interrupter : SpeakerId;
  confidence : R;
  scheduledAt : Z
}.
End Pending.

(** An armed [setTimeout]: what its closure captured and its delay. *)
Module Timer.
Record t : Type := {
  interrupter : SpeakerId;
  targets : list SpeakerId;
  confidence : R;
  delayMs : Z
}.
End Timer.

(** The calls the manager makes on its callbacks. *)
Inductive Callback : Type :=
| OnBargeInStart (interrupter : SpeakerId) (interrupted : list SpeakerId)
| OnBargeInComplete (interrupter : SpeakerId) (interrupted : list SpeakerId)
| OnBargeInCancelled
| OnDuckingRequest (speakers : list SpeakerId) (enable : bool).

(** The manager; [graceTimer] is the armed timer, if any, and [calls]
    the callback invocations so far, oldest first. *)
Record Manager : Type := {
  config : Config.t;
  speakerStates : SpeakerId -> Speaker.t;
  graceTimer : option Timer.t;
  pendingBargeIn : option Pending.t;
  bargeInHistory : list Event.t;
  calls : list Callback
}.

Definition maxHistorySize : nat := 100.

Definition create (config : Config.t) : Manager :=
  {| config := config;
     speakerStates := fun id =>
       {| Speaker.id := id; Speaker.speaking := false;
          Speaker.priority := medium; Speaker.startedAt := None;
          Speaker.lastActivityAt := None;
          Speaker.allowInterruption := true |};
     graceTimer := None; pendingBargeIn := None; bargeInHistory := [];
     calls := [] |}.

(** Insertion order of the speaker map. *)
Definition speakers : list SpeakerId := [you; claude; guest].

Definition withSpeaker (m : Manager) (speaker : SpeakerId)
    (f : Speaker.t -> Speaker.t) : Manager :=
  {| config := config m;
     speakerStates := fun s =>
       if SpeakerId_eqb s speaker then f (speakerStates m s)
       else speakerStates m s;
     graceTimer := graceTimer m; pendingBargeIn := pendingBargeIn m;
     bargeInHistory := bargeInHistory m; calls := calls m |}.

Definition call (m : Manager) (c : Callback) : Manager :=
  {| config := config m; speakerStates := speakerStates m;
     graceTimer := graceTimer m; pendingBargeIn := pendingBargeIn m;
     bargeInHistory := bargeInHistory m; calls := calls m ++ [c] |}.

Definition setPending (m : Manager) (p : option Pending.t) : Manager :=
  {| config := config m; speakerStates := speakerStates m;
     graceTimer := graceTimer m; pendingBargeIn := p;
     bargeInHistory := bargeInHistory m; calls := calls m |}.

Definition setTimer (m : Manager) (t : option Timer.t) : Manager :=
  {| config := config m; speakerStates := speakerStates m;
     graceTimer := t; pendingBargeIn := pendingBargeIn m;
     bargeInHistory := bargeInHistory m; calls := calls m |}.

Definition setSpeakerPriority (m : Manager) (speaker : SpeakerId)
    (priority : BargeInPriority) : Manager :=
  withSpeaker m speaker (fun st =>
    {| Speaker.id := Speaker.id st; Speaker.speaking := Speaker.speaking st;
       Speaker.priority := priority; Speaker.startedAt := Speaker.startedAt st;
       Speaker.lastActivityAt := Speaker.lastActivityAt st;
       Speaker.allowInterruption := Speaker.allowInterruption st |}).

Definition setAllowInterruption (m : Manager) (speaker : SpeakerId)
    (allow : bool) : Manager :=
  withSpeaker m speaker (fun st =>
    {| Speaker.id := Speaker.id st; Speaker.speaking := Speaker.speaking st;
       Speaker.priority := Speaker.priority st;
       Speaker.startedAt := Speaker.startedAt st;
       Speaker.lastActivityAt := Speaker.lastActivityAt st;
       Speaker.allowInterruption := allow |}).

Definition getActiveSpeakers (m : Manager) : list SpeakerId :=
  map Speaker.id
    (filter Speaker.speaking (map (speakerStates m) speakers)).

Definition getPriorityLevel (m : Manager) (speaker : SpeakerId) : Z :=
  match speaker with
  | you => 100
  | _ =>
      match Speaker.priority (speakerStates m speaker) with
      | high => 75
      | medium => 50
      | low => 25
      end
  end.

(** [push], then [shift] once the history is over its bound. *)
Definition logEvent (m : Manager) (event : Event.t) : Manager :=
  let pushed := bargeInHistory m ++ [event] in
  {| config := config m; speakerStates := speakerStates m;
     graceTimer := graceTimer m; pendingBargeIn := pendingBargeIn m;
     bargeInHistory :=
       if (maxHistorySize <? length pushed)%nat then tl pushed else pushed;
     calls := calls m |}.

Definition stopSpeaking (st : Speaker.t) : Speaker.t :=
  {| Speaker.id := Speaker.id st; Speaker.speaking := false;
     Speaker.priority := Speaker.priority st;
     Speaker.startedAt := Speaker.startedAt st;
     Speaker.lastActivityAt := Speaker.lastActivityAt st;
     Speaker.allowInterruption := Speaker.allowInterruption st |}.

Definition executeBargeIn (m : Manager) (interrupter : SpeakerId)
    (interrupted : list SpeakerId) (confidence : R)
    (gracePeriodUsed : bool) (now : Z) : Manager :=
  let event :=
    {| Event.type := bargeInStart; Event.timestamp := now;
       Event.interrupter := interrupter; Event.interrupted := interrupted;
       Event.mode := Config.mode (config m);
       Event.confidence := confidence;
       Event.gracePeriodUsed := gracePeriodUsed;
       Event.duckingApplied := Config.duckingEnabled (config m) |} in
  let m := logEvent m event in
  let m := call m (OnBargeInStart interrupter interrupted) in
  let m := fold_left (fun m speaker => withSpeaker m speaker stopSpeaking)
             interrupted m in
  let completeEvent :=
    {| Event.type := bargeInComplete; Event.timestamp := now;
       Event.interrupter := interrupter; Event.interrupted := interrupted;
       Event.mode := Event.mode event;
       Event.confidence := confidence;
       Event.gracePeriodUsed := gracePeriodUsed;
       Event.duckingApplied := Event.duckingApplied event |} in
  let m := logEvent m completeEvent in
  let m := call m (OnBargeInComplete interrupter interrupted) in
  setPending m None.

Definition cancelBargeIn (m : Manager) (now : Z) : Manager :=
  let m := setTimer m None in
  let m :=
    match pendingBargeIn m with
    | Some pending =>
        let event :=
          {| Event.type := bargeInCancelled; Event.timestamp := now;
             Event.interrupter := Pending.interrupter pending;
             Event.interrupted := [];
             Event.mode := Config.mode (config m);
             Event.confidence := Pending.confidence pending;
             Event.gracePeriodUsed := false;
             Event.duckingApplied := false |} in
        call (logEvent m event) OnBargeInCancelled
    | None => m
    end in
  setPending m None.

(** Both scheduling functions: ducking request, pending record, and a
    timer that replaces the armed one. *)
Definition schedule (m : Manager) (interrupter : SpeakerId)
    (targets : list SpeakerId) (confidence : R) (now : Z) (delayMs : Z)
    : Manager :=
  let m := if Config.duckingEnabled (config m)
           then call m (OnDuckingRequest targets true) else m in
  let m := setPending m
             (Some {| Pending.interrupter := interrupter;
                      Pending.confidence := confidence;
                      Pending.scheduledAt := now |}) in
  setTimer m
    (Some {| Timer.interrupter := interrupter; Timer.targets := targets;
             Timer.confidence := confidence; Timer.delayMs := delayMs |}).

Definition scheduleGracefulBargeIn (m : Manager) interrupter targets
    confidence now : Manager :=
  schedule m interrupter targets confidence now
    (Config.gracePeriodMs (config m)).

Definition scheduleSentenceCompleteBargeIn (m : Manager) interrupter
    targets confidence now : Manager :=
  schedule m interrupter targets confidence now
    (Config.sentenceCompletionMaxMs (config m)).

(** The priority check of [initiateBargeIn]. *)
Definition canInterrupt (m : Manager) (interrupter : SpeakerId)
    (allowedTargets : list SpeakerId) : bool :=
  let interrupterPriority := getPriorityLevel m interrupter in
  forallb
    (fun target =>
       let targetPriority := getPriorityLevel m target in
       (targetPriority <=? interrupterPriority)%Z
       || SpeakerId_eqb interrupter you)
    allowedTargets.

Definition allowedTargets (m : Manager) (targets : list SpeakerId)
    : list SpeakerId :=
  filter (fun target => Speaker.allowInterruption (speakerStates m target))
    targets.

Definition initiateBargeIn (m : Manager) (interrupter : SpeakerId)
    (targets : list SpeakerId) (confidence : R) (now : Z) : Manager :=
  let allowed := allowedTargets m targets in
  match allowed with
  | [] => m
  | _ :: _ =>
      if negb (canInterrupt m interrupter allowed) then m
      else
        match Config.mode (config m) with
        | immediate =>
            executeBargeIn m interrupter allowed confidence false now
        | graceful =>
            scheduleGracefulBargeIn m interrupter allowed confidence now
        | sentenceComplete =>
            scheduleSentenceCompleteBargeIn m interrupter allowed
              confidence now
        | disabled => m
        end
  end.

Definition isDisabled (mode : BargeInMode) : bool :=
  match mode with disabled => true | _ => false end.

Definition onSpeechStart (m : Manager) (speaker : SpeakerId)
    (confidence : R) (now : Z) : Manager :=
  let m := withSpeaker m speaker (fun st =>
    {| Speaker.id := Speaker.id st; Speaker.speaking := true;
       Speaker.priority := Speaker.priority st;
       Speaker.startedAt := Some now; Speaker.lastActivityAt := Some now;
       Speaker.allowInterruption := Speaker.allowInterruption st |}) in
  let activeSpeakers :=
    filter (fun s => negb (SpeakerId_eqb s speaker)) (getActiveSpeakers m) in
  match activeSpeakers with
  | _ :: _ =>
      if isDisabled (Config.mode (config m)) then m
      else initiateBargeIn m speaker activeSpeakers confidence now
  | [] => m
  end.

Definition onSpeechEnd (m : Manager) (speaker : SpeakerId)
    (confidence : R) (now : Z) : Manager :=
  let m := withSpeaker m speaker (fun st =>
    {| Speaker.id := Speaker.id st; Speaker.speaking := false;
       Speaker.priority := Speaker.priority st;
       Speaker.startedAt := Speaker.startedAt st;
       Speaker.lastActivityAt := Some now;
       Speaker.allowInterruption := Speaker.allowInterruption st |}) in
  match pendingBargeIn m with
  | Some pending =>
      if SpeakerId_eqb (Pending.interrupter pending) speaker
      then cancelBargeIn m now else m
  | None => m
  end.

(** The armed timer's callback runs. *)
Definition timerFires (m : Manager) (now : Z) : Manager :=
  match graceTimer m with
  | None => m
  | Some t =>
      let m := setTimer m None in
      if Speaker.speaking (speakerStates m (Timer.interrupter t)) then
        executeBargeIn m (Timer.interrupter t) (Timer.targets t)
          (Timer.confidence t) true now
      else
        let m := cancelBargeIn m now in
        if Config.duckingEnabled (config m)
        then call m (OnDuckingRequest (Timer.targets t) false) else m
  end.

(** What drives a manager. *)
Inductive input : Type :=
| SpeechStart (speaker : SpeakerId) (confidence : R) (now : Z)
| SpeechEnd (speaker : SpeakerId) (confidence : R) (now : Z)
| TimerFires (now : Z).

Definition step (m : Manager) (i : input) : Manager :=
  match i with
  | SpeechStart speaker confidence now =>
      onSpeechStart m speaker confidence now
  | SpeechEnd speaker confidence now => onSpeechEnd m speaker confidence now
  | TimerFires now => timerFires m now
  end.

Definition run (m : Manager) (inputs : list input) : Manager :=
  fold_left step inputs m.

Definition eventTypes (m : Manager) : list EventType :=
  map Event.type (bargeInHistory m).

(** ** The rest of the public interface *)

Definition getHistory (m : Manager) : list Event.t := bargeInHistory m.

Definition BargeInMode_eqb (a b : BargeInMode) : bool :=
  match a, b with
  | immediate, immediate | graceful, graceful
  | sentenceComplete, sentenceComplete | disabled, disabled => true
  | _, _ => false
  end.

Definition isComplete (event : Event.t) : bool :=
  match Event.type event with
  | bargeInComplete => true
  | _ => false
  end.

Module Statistics.
Record t : Type := {
  totalBargeIns : nat;
  byMode : BargeInMode -> nat;
  avgConfidence : R;
  gracePeriodUsageRate : R
}.
End Statistics.

(** The accumulators of the loop of [getStatistics]. *)
Record Tally : Type := {
  tallyByMode : BargeInMode -> nat;
  totalConfidence : R;
  gracePeriodUsageCount : nat
}.

Definition tallyEvent (acc : Tally) (event : Event.t) : Tally :=
  if isComplete event then
    {| tallyByMode := fun mode =>
         if BargeInMode_eqb mode (Event.mode event)
         then S (tallyByMode acc mode) else tallyByMode acc mode;
       totalConfidence := (totalConfidence acc + Event.confidence event)%R;
       gracePeriodUsageCount :=
         if Event.gracePeriodUsed event then S (gracePeriodUsageCount acc)
         else gracePeriodUsageCount acc |}
  else acc.

Definition getStatistics (m : Manager) : Statistics.t :=
  let totalBargeIns := length (filter isComplete (bargeInHistory m)) in
  let acc :=
    fold_left tallyEvent (bargeInHistory m)
      {| tallyByMode := fun _ => 0%nat; totalConfidence := 0%R;
         gracePeriodUsageCount := 0%nat |} in
  {| Statistics.totalBargeIns := totalBargeIns;
     Statistics.byMode := tallyByMode acc;
     Statistics.avgConfidence :=
       if (0 <? totalBargeIns)%nat
       then (totalConfidence acc / INR totalBargeIns)%R else 0%R;
     Statistics.gracePeriodUsageRate :=
       if (0 <? totalBargeIns)%nat
       then (INR (gracePeriodUsageCount acc) / INR totalBargeIns)%R
       else 0%R |}.

(** Every call a client can make on a manager. *)
Inductive api : Type :=
| Drive (i : input)
| SetSpeakerPriority (speaker : SpeakerId) (priority : BargeInPriority)
| SetAllowInterruption (speaker : SpeakerId) (allow : bool).

Definition invoke (m : Manager) (a : api) : Manager :=
  match a with
  | Drive i => step m i
  | SetSpeakerPriority speaker priority =>
      setSpeakerPriority m speaker priority
  | SetAllowInterruption speaker allow =>
      setAllowInterruption m speaker allow
  end.

Definition session (config : Config.t) (apis : list api) : Manager :=
  fold_left invoke apis (create config).

(** ** Vocabulary for the callback log *)

Definition mentions (s : SpeakerId) (c : Callback) : bool :=
  match c with
  | OnBargeInStart _ interrupted | OnBargeInComplete _ interrupted =>
      existsb (SpeakerId_eqb s) interrupted
  | OnBargeInCancelled => false
  | OnDuckingRequest speakers _ => existsb (SpeakerId_eqb s) speakers
  end.

Definition isDuckingRequest (c : Callback) : bool :=
  match c with
  | OnDuckingRequest _ _ => true
  | _ => false
  end.

Definition speakers_eqb (a b : list SpeakerId) : bool :=
  (length a =? length b)%nat
  && forallb (fun p => SpeakerId_eqb (fst p) (snd p)) (combine a b).

(** Every [OnBargeInStart] is directly followed by the
    [OnBargeInComplete] of the same interruption, and no
    [OnBargeInComplete] stands alone. *)
Fixpoint paired (cs : list Callback) : bool :=
  match cs with
  | [] => true
  | OnBargeInStart i t :: rest =>
      match rest with
      | OnBargeInComplete i' t' :: rest' =>
          SpeakerId_eqb i i' && speakers_eqb t t' && paired rest'
      | _ => false
      end
  | OnBargeInComplete _ _ :: _ => false
  | _ :: rest => paired rest
  end.

(** ** What holds of every manager a session reaches *)

Definition scheduledDelay (config : Config.t) : option Z :=
  match Config.mode config with
  | graceful => Some (Config.gracePeriodMs config)
  | sentenceComplete => Some (Config.sentenceCompletionMaxMs config)
  | immediate | disabled => None
  end.

Record Consistent (m : Manager) : Prop := {
  cons_history : (length (bargeInHistory m) <= maxHistorySize)%nat;
  cons_timer :
    forall t, graceTimer m = Some t ->
      (exists p, pendingBargeIn m = Some p
                 /\ Pending.interrupter p = Timer.interrupter t
                 /\ Pending.confidence p = Timer.confidence t)
      /\ scheduledDelay (config m) = Some (Timer.delayMs t)
      /\ Timer.targets t <> [];
  cons_pending : graceTimer m = None -> pendingBargeIn m = None;
  cons_events :
    forall e, In e (bargeInHistory m) ->
      Event.mode e = Config.mode (config m)
      /\ (isComplete e = true ->
          Event.gracePeriodUsed e
          = negb (BargeInMode_eqb (Config.mode (config m)) immediate));
  cons_paired : paired (calls m) = true
}.

(** Where the speakers named by a callback come from: they all allow
      interruption, or they are the targets the armed timer captured. *)
Definition origin (m : Manager) (t : list SpeakerId) : Prop :=
  (forall x, In x t -> Speaker.allowInterruption (speakerStates m x) = true)
  \/ (exists tm, graceTimer m = Some tm /\ t = Timer.targets tm).

(** The callbacks one input can give rise to. *)
Definition emittable (m : Manager) (c : Callback) : Prop :=
  c = OnBargeInCancelled
  \/ (exists who t,
        (c = OnBargeInStart who t \/ c = OnBargeInComplete who t)
        /\ origin m t)
  \/ (exists t enable,
        c = OnDuckingRequest t enable
        /\ Config.duckingEnabled (config m) = true
        /\ (scheduledDelay (config m) <> None \/ graceTimer m <> None)
        /\ origin m t).

(** A speaker no barge-in can reach. *)
Definition shielded (m : Manager) (s : SpeakerId) : Prop :=
  Speaker.allowInterruption (speakerStates m s) = false
  /\ forall t, graceTimer m = Some t -> ~ In s (Timer.targets t).

End BargeIn.


(* ================================================================== *)
(** * Regular expressions, as the router uses them *)
(* ================================================================== *)

(** A backtracking matcher with the priorities of the JavaScript engine:
    leftmost match, alternatives in order, greedy repetition.  Texts are
    lists of characters with code points below 256; a character stands
    for the code unit of that value. *)
Module Regex.

(** [\s], and the white space [trim] removes: below 256 these are tab
    to carriage return, the space and the no-break space. *)
Definition isSpace (c : ascii) : bool :=
  match nat_of_ascii c with
  | 9 | 10 | 11 | 12 | 13 | 32 | 160 => true
  | _ => false
  end.

Definition isDigit (c : ascii) : bool :=
  let n := nat_of_ascii c in (48 <=? n) && (n <=? 57).

(** The characters [toLowerCase] changes: A to Z, and the accented
    capitals from 192 to 222, the multiplication sign 215 apart. *)
Definition isUpper (c : ascii) : bool :=
  let n := nat_of_ascii c in
  (65 <=? n) && (n <=? 90)
  || (192 <=? n) && (n <=? 222) && negb (n =? 215).

Definition isCapital (c : ascii) : bool :=
  let n := nat_of_ascii c in (65 <=? n) && (n <=? 90).

Definition isLower (c : ascii) : bool :=
  let n := nat_of_ascii c in (97 <=? n) && (n <=? 122).

(** [\w] *)
Definition isWord (c : ascii) : bool :=
  isCapital c || isLower c || isDigit c || (nat_of_ascii c =? 95).

Definition toLower (c : ascii) : ascii :=
  if isUpper c then ascii_of_nat (nat_of_ascii c + 32) else c.

Inductive re : Type :=
| Eps
| Lit (c : ascii)
| Cls (p : ascii -> bool)
| Seq (a b : re)
| Alt (a b : re)
| Star (a : re)
| Bol
| Wb
| Grp (n : nat) (a : re).

Definition Plus (a : re) : re := Seq a (Star a).
Definition Opt (a : re) : re := Alt a Eps.

Fixpoint seqs (l : list re) : re :=
  match l with
  | [] => Eps
  | [a] => a
  | a :: rest => Seq a (seqs rest)
  end.

Fixpoint alts (l : list re) : re :=
  match l with
  | [] => Cls (fun _ => false)
  | [a] => a
  | a :: rest => Alt a (alts rest)
  end.

Definition lit (s : list ascii) : re := seqs (map Lit s).

(** A matching state: characters consumed so far, the one before the
    cursor, those ahead, and the spans of the groups closed so far. *)
Record st : Type := {
  pos : nat;
  prev : option ascii;
  rest : list ascii;
  caps : list (nat * (nat * nat))
}.

Definition advance (s : st) (x : ascii) (tl : list ascii) : st :=
  {| pos := S (pos s); prev := Some x; rest := tl; caps := caps s |}.

Definition setCap (s : st) (n start : nat) : st :=
  {| pos := pos s; prev := prev s; rest := rest s;
     caps := (n, (start, pos s)) :: caps s |}.

Definition wordAt (o : option ascii) : bool :=
  match o with Some c => isWord c | None => false end.

Definition sameChar (ci : bool) (c x : ascii) : bool :=
  if ci then Ascii.eqb (toLower c) (toLower x) else Ascii.eqb c x.

(** [exec ci r k s]: match [r] at [s], then continue with [k]; [ci] is
    the [i] flag. *)
Fixpoint exec (ci : bool) (r : re) (k : st -> option st) (s : st)
    {struct r} : option st :=
  match r with
  | Eps => k s
  | Lit c =>
      match rest s with
      | x :: tl => if sameChar ci c x then k (advance s x tl) else None
      | [] => None
      end
  | Cls p =>
      match rest s with
      | x :: tl => if p x then k (advance s x tl) else None
      | [] => None
      end
  | Seq a b => exec ci a (exec ci b k) s
  | Alt a b =>
      match exec ci a k s with
      | Some e => Some e
      | None => exec ci b k s
      end
  | Star a =>
      (fix loop (n : nat) (s : st) {struct n} : option st :=
         match n with
         | O => k s
         | S n' =>
             match exec ci a
                     (fun s' => if (pos s <? pos s')%nat then loop n' s'
                                else None) s with
             | Some e => Some e
             | None => k s
             end
         end) (S (length (rest s))) s
  | Bol => if (pos s =? 0)%nat then k s else None
  | Wb => if xorb (wordAt (prev s)) (wordAt (hd_error (rest s)))
          then k s else None
  | Grp n a => exec ci a (fun s' => k (setCap s' n (pos s))) s
  end.

(** The leftmost match at or after the cursor: its start and its final
    state. *)
Fixpoint searchFrom (ci : bool) (r : re) (p : nat) (before : option ascii)
    (input : list ascii) : option (nat * st) :=
  let s := {| pos := p; prev := before; rest := input; caps := [] |} in
  match exec ci r Some s with
  | Some e => Some (p, e)
  | None =>
      match input with
      | x :: tl => searchFrom ci r (S p) (Some x) tl
      | [] => None
      end
  end.

(** [input.match(r)] *)
Definition search (ci : bool) (r : re) (input : list ascii)
    : option (nat * st) :=
  searchFrom ci r 0 None input.

(** [r.test(input)] *)
Definition test (r : re) (input : list ascii) : bool :=
  match search false r input with Some _ => true | None => false end.

(** The text of group [n] of a match. *)
Definition group (input : list ascii) (e : st) (n : nat)
    : option (list ascii) :=
  match find (fun c => (fst c =? n)%nat) (caps e) with
  | Some (_, (start, stop)) => Some (firstn (stop - start) (skipn start input))
  | None => None
  end.

End Regex.

(* ================================================================== *)
(** * EnhancedCommandRouter (services/command-router-enhanced.ts) *)
(* ================================================================== *)

Module Router.

Import Shared Regex.
Import QArith.
Local Close Scope Q_scope.
Import String.
Local Open Scope string_scope.

Definition text := list ascii.

Definition s (x : string) : text := list_ascii_of_string x.

Inductive CommandAction : Type :=
| address | thinking | broadcast | bargeInControl | duckingControl.

Record CommandContext : Type := {
  lastAddressed : option (list SpeakerId);
  lastAction : option CommandAction;
  timestamp : Z;
  sessionContext : option text
}.

(** ** Numbers *)

(** A JavaScript number that holds an integer that is not negative.
    Doubles are exact on the safe integers, up to [2^53 - 1]; a larger
    value is a rounded double, which [Large] leaves open. *)
Inductive number : Type :=
| Exact (z : Z)
| Large.

(** [Number.MAX_SAFE_INTEGER] *)
Definition maxSafe : Z := 9007199254740991.

Definition number_of (z : Z) : number :=
  if (z <=? maxSafe)%Z then Exact z else Large.

(** [a * k] for a safe integer [k] that is not negative. *)
Definition times (a : number) (k : Z) : number :=
  match a with
  | Exact z => number_of (z * k)
  | Large => Large
  end.

Record CommandRouteResult : Type := {
  raw : text;
  normalized : text;
  targets : list SpeakerId;
  remainder : text;
  action : CommandAction;
  durationMs : option number;
  confidence : Q;
  matchedKeywords : option (list text);
  fuzzyMatched : option bool;
  context : option CommandContext
}.

(** What [extractAddress] returns. *)
Module Addressed.
Record t : Type := {
  targets : list SpeakerId;
  remainder : text;
  confidence : Q;
  matchedKeywords : option (list text);
  fuzzyMatched : option bool
}.
End Addressed.

Definition addressKeywords : list text :=
  map s ["claude"; "guest"; "both"; "everyone"; "all"; "showrunner";
         "autopilot"; "basil"].

Definition thinkingKeywords : list text :=
  map s ["thinking"; "think"; "pause"; "wait"; "hold"; "moment"; "beat";
         "countdown"; "processing"; "consider"; "ponder"; "reflect"].

Definition bargeInKeywords : list text :=
  map s ["interrupt"; "stop"; "halt"; "quiet"; "silence"; "mute";
         "hold up"; "wait a minute"].

Definition duckingKeywords : list text :=
  map s ["lower"; "reduce"; "quieter"; "softer"; "volume down";
         "turn down"].

Definition fuzzyThreshold : nat := 2.

(** ** String operations *)

Fixpoint dropWhile (p : ascii -> bool) (l : text) : text :=
  match l with
  | x :: tl => if p x then dropWhile p tl else l
  | [] => []
  end.

(** [str.trim()] *)
Definition trim (l : text) : text :=
  rev (dropWhile isSpace (rev (dropWhile isSpace l))).

(** [str.toLowerCase()] *)
Definition toLowerCase (l : text) : text := map toLower l.

Fixpoint text_eqb (a b : text) : bool :=
  match a, b with
  | [], [] => true
  | x :: a', y :: b' => Ascii.eqb x y && text_eqb a' b'
  | _, _ => false
  end.

(** [str.startsWith(p)] *)
Fixpoint startsWith (l p : text) : bool :=
  match p, l with
  | [], _ => true
  | y :: p', x :: l' => Ascii.eqb x y && startsWith l' p'
  | _ :: _, [] => false
  end.

(** [str.includes(p)] *)
Fixpoint includes (l p : text) : bool :=
  startsWith l p
  || match l with
     | _ :: tl => includes tl p
     | [] => false
     end.

(** [str.split(/\s+/)]: [cur] is the token being read, reversed, and
    [gap] tells that the cursor is inside a run of separators. *)
Fixpoint splitLoop (l : text) (cur : text) (gap : bool) : list text :=
  match l with
  | [] => [rev cur]
  | x :: tl =>
      if isSpace x then
        if gap then splitLoop tl [] true
        else rev cur :: splitLoop tl [] true
      else splitLoop tl (x :: cur) false
  end.

Definition splitSpaces (l : text) : list text := splitLoop l [] false.

(** [words.join(" ")] *)
Fixpoint joinSpaces (words : list text) : text :=
  match words with
  | [] => []
  | [w] => w
  | w :: tl => (w ++ s " " ++ joinSpaces tl)%list
  end.

(** The integer a run of decimal digits denotes. *)
Definition digitsValue (digits : text) : Z :=
  fold_left (fun acc c => (acc * 10 + Z.of_nat (nat_of_ascii c - 48))%Z)
    digits 0%Z.

(** [Number.parseInt(digits, 10)] on a run of decimal digits. *)
Definition parseInt (digits : text) : number :=
  number_of (digitsValue digits).

(** ** Levenshtein distance, row by row *)

(** Row [i] of the matrix from row [i - 1] ([prevRow], whose head is
    [matrix[i-1][j-1]]), with [left = matrix[i][j-1]]. *)
Fixpoint fillRow (bi : ascii) (a : text) (prevRow : list nat) (left : nat)
    : list nat :=
  match a, prevRow with
  | aj :: a', diag :: ((up :: _) as prevRow') =>
      let cell :=
        if Ascii.eqb bi aj then diag
        else Nat.min (diag + 1) (Nat.min (left + 1) (up + 1)) in
      cell :: fillRow bi a' prevRow' cell
  | _, _ => []
  end.

Fixpoint rows (b : text) (a : text) (prevRow : list nat) (i : nat)
    : list nat :=
  match b with
  | [] => prevRow
  | bi :: b' => rows b' a (i :: fillRow bi a prevRow i) (S i)
  end.

Definition levenshteinDistance (a b : text) : nat :=
  match a, b with
  | [], _ => List.length b
  | _, [] => List.length a
  | _, _ => last (rows b a (seq 0 (S (List.length a))) 1) 0%nat
  end.

(** ** Patterns *)

Definition sp : re := Cls isSpace.
Definition sp1 : re := Plus sp.
Definition digits1 : re := Plus (Cls isDigit).
Definition word (x : string) : re := lit (s x).
Definition words (l : list string) : re := alts (map word l).

(** [[:\-,\s]] and [[\s,:-]] *)
Definition separator (c : ascii) : bool :=
  isSpace c || Ascii.eqb c ":" || Ascii.eqb c "-" || Ascii.eqb c ",".

(** [[,\s]] *)
Definition commaOrSpace (c : ascii) : bool :=
  isSpace c || Ascii.eqb c ",".

Definition bargeInPatterns : list (re * Q) :=
  [ (seqs [Wb; Grp 1 (words ["stop"; "halt"; "interrupt"; "quiet";
                             "silence"]); Wb], 0.8%Q);
    (seqs [Wb; Grp 1 (Alt (seqs [word "hold"; sp1; word "up"])
                          (seqs [word "wait"; sp1; word "a"; sp1;
                                 word "minute"])); Wb], 0.75%Q);
    (seqs [Wb; word "mute"; sp1; Grp 1 (words ["everyone"; "all"]); Wb],
     0.85%Q) ].

Definition duckingPatterns : list (re * Q) :=
  [ (seqs [Wb; Grp 1 (words ["lower"; "reduce"; "quieter"; "softer"]); sp1;
           Grp 2 (words ["volume"; "sound"]); Wb], 0.8%Q);
    (seqs [Wb; word "turn"; sp1; word "down"; Wb], 0.75%Q);
    (seqs [Wb; word "volume"; sp1; word "down"; Wb], 0.8%Q) ].

(** [/^(?:hey\s+)?@?(claude|...|basil)[:\-,\s]+/i] *)
Definition directPattern : re :=
  seqs [Bol; Opt (seqs [word "hey"; sp1]); Opt (word "@");
        Grp 1 (words ["claude"; "guest"; "both"; "everyone"; "all";
                      "showrunner"; "autopilot"; "basil"]);
        Plus (Cls separator)].

(** [new RegExp(`\\b${keyword}[\\s,:-]+`, "i")] *)
Definition inlinePattern (keyword : text) : re :=
  seqs [Wb; lit keyword; Plus (Cls separator)].

Definition continuationPatterns : list re :=
  [ seqs [Bol; Opt (Grp 1 (seqs [word "and"; sp1]));
          Grp 2 (words ["also"; "too"; "as well"])];
    seqs [Bol; word "continue"];
    seqs [Bol; word "same"; sp1; word "to"; sp1; word "you"];
    seqs [Bol; word "you"; sp1; word "too"] ].

Definition sameOrDitto : re :=
  seqs [Wb; Grp 1 (words ["same"; "ditto"]); Wb].

Definition thinkingPatterns : list re :=
  [ seqs [word "thinking"; sp1; word "mode"];
    seqs [word "take"; sp1; word "a"; sp1;
          Grp 1 (words ["beat"; "moment"; "second"])];
    seqs [word "need"; sp1; word "to"; sp1; word "think"];
    seqs [word "give"; sp1; Grp 1 (words ["me"; "us"; "them"]); sp1;
          Opt (Grp 2 digits1); Star sp;
          Grp 3 (alts [Seq (word "second") (Opt (word "s"));
                       Seq (word "minute") (Opt (word "s"));
                       word "time"])];
    word "countdown";
    seqs [word "time"; sp1; word "to"; sp1;
          Grp 1 (words ["think"; "process"; "consider"])];
    seqs [word "let"; sp1; Grp 1 (words ["me"; "us"; "them"]); sp1;
          Grp 2 (words ["think"; "process"; "ponder"])];
    seqs [word "pause"; sp1; Grp 1 (words ["for"; "to"])] ].

(** [/(\d+)\s*(seconds?|secs?|s\b)/] *)
Definition secondsPattern : re :=
  seqs [Grp 1 digits1; Star sp;
        Grp 2 (alts [Seq (word "second") (Opt (word "s"));
                     Seq (word "sec") (Opt (word "s"));
                     Seq (word "s") Wb])].

(** [/(\d+)\s*(minutes?|mins?|m\b)/] *)
Definition minutesPattern : re :=
  seqs [Grp 1 digits1; Star sp;
        Grp 2 (alts [Seq (word "minute") (Opt (word "s"));
                     Seq (word "min") (Opt (word "s"));
                     Seq (word "m") Wb])].

Definition shortPattern : re :=
  seqs [Wb; Grp 1 (words ["quick"; "brief"; "short"]); sp1;
        Grp 2 (words ["moment"; "pause"; "beat"])].

Definition longPattern : re :=
  seqs [Wb; word "long"; sp1; Grp 1 (words ["moment"; "pause"; "beat"])].

(** ** The router *)

Definition mapKeywordToTargets (keyword : text) : list SpeakerId :=
  if text_eqb keyword (s "claude") then [claude]
  else if text_eqb keyword (s "guest") then [guest]
  else if text_eqb keyword (s "basil") then [you]
  else if text_eqb keyword (s "both") || text_eqb keyword (s "everyone")
          || text_eqb keyword (s "all") then [claude; guest]
  else if text_eqb keyword (s "showrunner")
          || text_eqb keyword (s "autopilot") then [claude]
  else [].

(** The number a match of [secondsPattern] or [minutesPattern] names. *)
Definition namedNumber (pattern : re) (input : text) : option number :=
  match search false pattern input with
  | Some (_, e) =>
      match group input e 1 with
      | Some digits => Some (parseInt digits)
      | None => None
      end
  | None => None
  end.

Definition extractDuration (remainder : text) : number :=
  match namedNumber secondsPattern remainder with
  | Some n => times n 1000
  | None =>
      match namedNumber minutesPattern remainder with
      | Some n => times n 60000
      | None =>
          if test shortPattern remainder then Exact 10000
          else if test longPattern remainder then Exact 60000
          else Exact 30000
      end
  end.

(** The control commands recognised before any address parsing. *)
Fixpoint detectControl (patterns : list (re * Q)) (act : CommandAction)
    (normalized : text) (ctx : CommandContext)
    : option CommandRouteResult :=
  match patterns with
  | [] => None
  | (pattern, confidence) :: more =>
      if test pattern normalized then
        Some {| raw := normalized; normalized := normalized;
                targets := [claude; guest]; remainder := [];
                action := act; durationMs := None;
                confidence := confidence; matchedKeywords := None;
                fuzzyMatched := None; context := Some ctx |}
      else detectControl more act normalized ctx
  end.

Definition detectBargeInControl := detectControl bargeInPatterns bargeInControl.
Definition detectDuckingControl := detectControl duckingPatterns duckingControl.

(** "Check for keyword at start with separator". *)
Fixpoint keywordPrefix (keywords : list text) (normalized : text)
    : option Addressed.t :=
  match keywords with
  | [] => None
  | keyword :: more =>
      if startsWith normalized (keyword ++ s ",")%list
         || startsWith normalized (keyword ++ s " ")%list
      then
        Some {| Addressed.targets := mapKeywordToTargets keyword;
                Addressed.remainder :=
                  dropWhile commaOrSpace
                    (skipn (List.length keyword) normalized);
                Addressed.confidence := 0.7%Q;
                Addressed.matchedKeywords := Some [keyword];
                Addressed.fuzzyMatched := Some false |}
      else keywordPrefix more normalized
  end.

(** "Check for inline addresses". *)
Fixpoint inlineAddress (keywords : list text) (normalized : text)
    : option Addressed.t :=
  match keywords with
  | [] => None
  | keyword :: more =>
      match search true (inlinePattern keyword) normalized with
      | Some (index, e) =>
          if (index <? 20)%nat then
            Some {| Addressed.targets := mapKeywordToTargets keyword;
                    Addressed.remainder := trim (skipn (pos e) normalized);
                    Addressed.confidence := 0.55%Q;
                    Addressed.matchedKeywords := Some [keyword];
                    Addressed.fuzzyMatched := Some false |}
          else inlineAddress more normalized
      | None => inlineAddress more normalized
      end
  end.

(** The keyword loop of [fuzzyMatchAddress] for the word at index [i]. *)
Fixpoint fuzzyKeyword (keywords : list text) (word : text)
    (following : list text) : option Addressed.t :=
  match keywords with
  | [] => None
  | keyword :: more =>
      let distance := levenshteinDistance word keyword in
      if (distance <=? fuzzyThreshold)%nat && (0 <? distance)%nat then
        let confidence :=
          (1 - inject_Z (Z.of_nat distance)
               / inject_Z (Z.of_nat (List.length keyword)))%Q in
        if Qle_bool 0.6 confidence then
          Some {| Addressed.targets := mapKeywordToTargets keyword;
                  Addressed.remainder := joinSpaces following;
                  Addressed.confidence := (confidence * 0.7)%Q;
                  Addressed.matchedKeywords := Some [keyword];
                  Addressed.fuzzyMatched := Some true |}
        else fuzzyKeyword more word following
      else fuzzyKeyword more word following
  end.

(** The word loop of [fuzzyMatchAddress], [n] words at most. *)
Fixpoint fuzzyWords (n : nat) (words : list text) : option Addressed.t :=
  match n, words with
  | S n', word :: following =>
      match fuzzyKeyword addressKeywords word following with
      | Some a => Some a
      | None => fuzzyWords n' following
      end
  | _, _ => None
  end.

Definition fuzzyMatchAddress (normalized : text) : option Addressed.t :=
  fuzzyWords 3 (splitSpaces normalized).

Definition extractAddress (normalized : text) : option Addressed.t :=
  match search true directPattern normalized with
  | Some (_, e) =>
      let keyword :=
        match group normalized e 1 with Some k => k | None => [] end in
      Some {| Addressed.targets := mapKeywordToTargets keyword;
              Addressed.remainder := trim (skipn (pos e) normalized);
              Addressed.confidence := 0.9%Q;
              Addressed.matchedKeywords := Some [keyword];
              Addressed.fuzzyMatched := Some false |}
  | None =>
      match keywordPrefix addressKeywords normalized with
      | Some a => Some a
      | None =>
          match inlineAddress addressKeywords normalized with
          | Some a => Some a
          | None => fuzzyMatchAddress normalized
          end
      end
  end.

Definition isEmpty {A : Type} (l : list A) : bool :=
  match l with [] => true | _ :: _ => false end.

Definition resolveContextualTargets (ctx : CommandContext)
    (normalized : text) (explicitTargets : list SpeakerId)
    : list SpeakerId :=
  if negb (isEmpty explicitTargets) then explicitTargets
  else
    match lastAddressed ctx with
    | Some last =>
        if existsb (fun pattern => test pattern normalized)
             continuationPatterns
        then last
        else if test sameOrDitto normalized then last
        else []
    | None => []
    end.

Definition detectAction (remainder : text) (targets : list SpeakerId)
    (fullText : text) : CommandAction :=
  let trimmed := trim remainder in
  if isEmpty trimmed then
    if isEmpty targets then broadcast else address
  else if existsb (fun kw => includes trimmed kw) bargeInKeywords
  then bargeInControl
  else if existsb (fun kw => includes trimmed kw) duckingKeywords
  then duckingControl
  else
    let hasThinkingKeyword :=
      existsb (fun kw => includes trimmed kw) thinkingKeywords in
    let hasThinkingPattern :=
      existsb (fun pattern => test pattern trimmed) thinkingPatterns in
    if hasThinkingKeyword || hasThinkingPattern then thinking
    else if isEmpty targets then broadcast else address.

Definition isAddress (a : CommandAction) : bool :=
  match a with address => true | _ => false end.

Definition isThinking (a : CommandAction) : bool :=
  match a with thinking => true | _ => false end.

(** [route(text, previousContext)] on a router whose context is [ctx];
    [now] is what [Date.now()] returns during the call.  The result and
    the router's context afterwards. *)
Definition route (now : Z) (ctx : CommandContext) (txt : text)
    (previousContext : option CommandContext)
    : option CommandRouteResult * CommandContext :=
  let raw := trim txt in
  if isEmpty raw then (None, ctx)
  else
    let normalized := toLowerCase raw in
    let ctx :=
      match previousContext with
      | Some previous =>
          {| lastAddressed := lastAddressed previous;
             lastAction := lastAction previous;
             timestamp := now;
             sessionContext := sessionContext previous |}
      | None => ctx
      end in
    match detectBargeInControl normalized ctx with
    | Some bargeInCmd => (Some bargeInCmd, ctx)
    | None =>
    match detectDuckingControl normalized ctx with
    | Some duckingCmd => (Some duckingCmd, ctx)
    | None =>
      let addressed := extractAddress normalized in
      let targets :=
        match addressed with Some a => Addressed.targets a | None => [] end in
      let remainder :=
        match addressed with
        | Some a => Addressed.remainder a
        | None => normalized
        end in
      let action := detectAction remainder targets normalized in
      let contextTargets :=
        resolveContextualTargets ctx normalized targets in
      let finalTargets :=
        if negb (isEmpty contextTargets) then contextTargets else targets in
      if isEmpty finalTargets && isAddress action then (None, ctx)
      else
        let resolvedTargets :=
          if isThinking action && isEmpty finalTargets then [claude]
          else finalTargets in
        let durationMs :=
          if isThinking action then Some (extractDuration remainder)
          else None in
        let result :=
          {| raw := raw; normalized := normalized;
             targets := resolvedTargets; remainder := remainder;
             action := action; durationMs := durationMs;
             confidence :=
               match addressed with
               | Some a => Addressed.confidence a
               | None => if isEmpty resolvedTargets then 0.3%Q else 0.5%Q
               end;
             matchedKeywords :=
               match addressed with
               | Some a => Addressed.matchedKeywords a
               | None => None
               end;
             fuzzyMatched :=
               match addressed with
               | Some a => Addressed.fuzzyMatched a
               | None => None
               end;
             context := Some ctx |} in
        let ctx' :=
          if negb (isEmpty resolvedTargets) then
            {| lastAddressed := Some resolvedTargets;
               lastAction := Some action;
               timestamp := now;
               sessionContext := sessionContext ctx |}
          else ctx in
        (Some result, ctx')
    end
    end.

(** The context of a fresh router, constructed at time [created]. *)
Definition emptyContext (created : Z) : CommandContext :=
  {| lastAddressed := None; lastAction := None; timestamp := created;
     sessionContext := None |}.

(** A decision without its context snapshot. *)
Definition decision (r : option CommandRouteResult)
    : option (text * text * list SpeakerId * text * CommandAction
              * option number * Q * option (list text) * option bool) :=
  match r with
  | Some r =>
      Some (raw r, normalized r, targets r, remainder r, action r,
            durationMs r, confidence r, matchedKeywords r, fuzzyMatched r)
  | None => None
  end.

(** What a fresh router answers: targets, action, duration, remainder. *)
Definition answer (t : string)
    : option (list SpeakerId * CommandAction * option number * string) :=
  match fst (route 0 (emptyContext 0) (s t) None) with
  | Some r =>
      Some (targets r, action r, durationMs r,
            string_of_list_ascii (remainder r))
  | None => None
  end.

(** ** What is claimed of a decision *)



End Router.


(* ================================================================== *)
(** * EnhancedVadDetector (services/vad-detector-enhanced.ts) *)
(* ================================================================== *)

Module Vad.

Local Open Scope R_scope.

Definition Rltb (x y : R) : bool := if Rlt_dec x y then true else false.
Definition Rleb (x y : R) : bool := if Rle_dec x y then true else false.

(** [Math.log10] on positive numbers. *)
Definition log10 (x : R) : R := ln x / ln 10.

(** [VadDetectorEnhancedOptions], callbacks apart. *)
Module Options.
Record t : Type := {
  sampleRate : option R;
  frameDurationMs : option R;
  speechThreshold : option R;
  releaseThreshold : option R;
  minSpeechMs : option R;
  minSilenceMs : option R;
  adaptiveThreshold : option bool;
  noiseFloorAdaptationRate : option R;
  confidenceEnabled : option bool;
  spectralAnalysis : option bool
}.
End Options.

(** [{}] *)
Definition noOptions : Options.t :=
  {| Options.sampleRate := None; Options.frameDurationMs := None;
     Options.speechThreshold := None; Options.releaseThreshold := None;
     Options.minSpeechMs := None; Options.minSilenceMs := None;
     Options.adaptiveThreshold := None; Options.noiseFloorAdaptationRate := None;
     Options.confidenceEnabled := None; Options.spectralAnalysis := None |}.

(** Fixed thresholds, no confidence scoring. *)
Definition plainOptions : Options.t :=
  {| Options.sampleRate := None; Options.frameDurationMs := None;
     Options.speechThreshold := None; Options.releaseThreshold := None;
     Options.minSpeechMs := None; Options.minSilenceMs := None;
     Options.adaptiveThreshold := Some false;
     Options.noiseFloorAdaptationRate := None;
     Options.confidenceEnabled := Some false; Options.spectralAnalysis := None |}.

(** The calls the detector makes on its callbacks (when they are set). *)
Inductive Callback : Type :=
| OnSpeechStart (confidence : R)
| OnSpeechEnd (confidence : R)
| OnConfidenceUpdate (confidence : R).

Record Detector : Type := {
  sampleRate : R;
  frameSamples : Z;
  speechThreshold : R;
  releaseThreshold : R;
  minSpeechFrames : nat;
  minSilenceFrames : nat;
  adaptiveThreshold : bool;
  noiseFloorAdaptationRate : R;
  confidenceEnabled : bool;
  spectralAnalysis : bool;
  speechFrameCount : nat;
  silenceFrameCount : nat;
  speaking : bool;
  noiseFloor : R;
  energyHistory : list R;
  confidenceHistory : list R;
  currentConfidence : R;
  peakEnergy : R;
  calls : list Callback
}.

Definition maxHistoryFrames : nat := 50.

Definition orElse {A : Type} (o : option A) (d : A) : A :=
  match o with Some a => a | None => d end.

(** The constructor (for a non-zero frame duration). *)
Definition create (options : Options.t) : Detector :=
  let sampleRate := orElse (Options.sampleRate options) 48000 in
  let frameDurationMs := orElse (Options.frameDurationMs options) 20 in
  let minSpeechMs := orElse (Options.minSpeechMs options) 120 in
  let minSilenceMs := orElse (Options.minSilenceMs options) 220 in
  {| sampleRate := sampleRate;
     frameSamples := Int_part ((sampleRate / 1000) * frameDurationMs);
     speechThreshold := orElse (Options.speechThreshold options) 0.015;
     releaseThreshold := orElse (Options.releaseThreshold options) 0.008;
     minSpeechFrames :=
       Z.to_nat (Z.max 1 (Int_part (minSpeechMs / frameDurationMs)));
     minSilenceFrames :=
       Z.to_nat (Z.max 1 (Int_part (minSilenceMs / frameDurationMs)));
     adaptiveThreshold := orElse (Options.adaptiveThreshold options) true;
     noiseFloorAdaptationRate :=
       orElse (Options.noiseFloorAdaptationRate options) 0.01;
     confidenceEnabled := orElse (Options.confidenceEnabled options) true;
     spectralAnalysis := orElse (Options.spectralAnalysis options) true;
     speechFrameCount := 0; silenceFrameCount := 0; speaking := false;
     noiseFloor := 0.001; energyHistory := []; confidenceHistory := [];
     currentConfidence := 0; peakEnergy := 0; calls := [] |}.

(** The mutable part of a detector, the rest being carried over. *)
Definition update (d : Detector)
    (speechThreshold' releaseThreshold' : R)
    (speechFrameCount' silenceFrameCount' : nat) (speaking' : bool)
    (noiseFloor' : R) (energyHistory' confidenceHistory' : list R)
    (currentConfidence' peakEnergy' : R) (calls' : list Callback)
    : Detector :=
  {| sampleRate := sampleRate d; frameSamples := frameSamples d;
     speechThreshold := speechThreshold';
     releaseThreshold := releaseThreshold';
     minSpeechFrames := minSpeechFrames d;
     minSilenceFrames := minSilenceFrames d;
     adaptiveThreshold := adaptiveThreshold d;
     noiseFloorAdaptationRate := noiseFloorAdaptationRate d;
     confidenceEnabled := confidenceEnabled d;
     spectralAnalysis := spectralAnalysis d;
     speechFrameCount := speechFrameCount';
     silenceFrameCount := silenceFrameCount'; speaking := speaking';
     noiseFloor := noiseFloor'; energyHistory := energyHistory';
     confidenceHistory := confidenceHistory';
     currentConfidence := currentConfidence'; peakEnergy := peakEnergy';
     calls := calls' |}.

Definition reset (d : Detector) : Detector :=
  update d (speechThreshold d) (releaseThreshold d) 0 0 false
    (noiseFloor d) [] [] 0 0 (calls d).

(** [history.push(x)], then [shift] when over [maxHistoryFrames]. *)
Definition pushBounded (history : list R) (x : R) : list R :=
  let pushed := history ++ [x] in
  if (maxHistoryFrames <? length pushed)%nat then tl pushed else pushed.

(** [array.slice(-n)] *)
Definition lastN {A : Type} (n : nat) (l : list A) : list A :=
  skipn (length l - n) l.

Definition sum (l : list R) : R := fold_left Rplus l 0.

(** The sample loop of [computeRms], [n] iterations from sample [i]. *)
Fixpoint energyLoop (n : nat) (buffer : Buffer.t) (startByte i : nat)
    (energy : R) : R :=
  match n with
  | O => energy
  | S n' =>
      let byteIndex := (startByte + i * 2)%nat in
      if (length buffer <=? byteIndex + 1)%nat then energy
      else
        match readInt16LE buffer byteIndex with
        | Some sample =>
            let normalized := IZR sample / 32768 in
            energyLoop n' buffer startByte (S i)
              (energy + normalized * normalized)
        | None => energy (* excluded by the bound check above *)
        end
  end.

Definition computeRms (buffer : Buffer.t) (startSample frameSize : nat)
    : R :=
  let energy := energyLoop frameSize buffer (startSample * 2) 0 0 in
  let meanSquare := energy / INR frameSize in
  sqrt meanSquare.

Definition updateNoiseFloor (d : Detector) (rms : R) : R :=
  if negb (speaking d) && Rltb rms (speechThreshold d) then
    let noiseFloor :=
      noiseFloor d * (1 - noiseFloorAdaptationRate d)
      + rms * noiseFloorAdaptationRate d in
    Rmax 0.0001 (Rmin 0.1 noiseFloor)
  else noiseFloor d.

(** [20 * Math.log10(snr)] is minus infinity at [snr = 0], which the
    clamp sends to 0; energies are square roots, so [snr] is never
    negative. *)
Definition computeEnergyConfidence (energyHistory : list R)
    (noiseFloor : R) : R :=
  match energyHistory with
  | [] => 0
  | _ :: _ =>
      let recentEnergy := lastN 10 energyHistory in
      let avgEnergy := sum recentEnergy / INR (length recentEnergy) in
      let snr := avgEnergy / Rmax noiseFloor 0.0001 in
      if Rleb snr 0 then 0
      else
        let snrDb := 20 * log10 snr in
        Rmax 0 (Rmin 1 ((snrDb - 5) / 15))
  end.

Definition computeConsistencyConfidence (energyHistory : list R) : R :=
  if (length energyHistory <? 5)%nat then 0.5
  else
    let recentEnergy := lastN 10 energyHistory in
    let mean := sum recentEnergy / INR (length recentEnergy) in
    let variance :=
      fold_left (fun acc val => acc + (val - mean) * (val - mean))
        recentEnergy 0 / INR (length recentEnergy) in
    let stdDev := sqrt variance in
    let coefficientOfVariation :=
      if Rltb 0 mean then stdDev / mean else 1 in
    Rmax 0 (Rmin 1 (1.0 - (coefficientOfVariation - 0.3) / 0.7)).

Definition computeSpectralConfidence : R := 0.7.

(** The new [currentConfidence] of [updateConfidence]. *)
Definition smoothedConfidence (d : Detector) (energyHistory : list R)
    (noiseFloor : R) : R :=
  let energyConf := computeEnergyConfidence energyHistory noiseFloor in
  let consistencyConf := computeConsistencyConfidence energyHistory in
  let spectralConf :=
    if spectralAnalysis d then computeSpectralConfidence else 0.5 in
  let rawConfidence :=
    energyConf * 0.4 + consistencyConf * 0.4 + spectralConf * 0.2 in
  let smoothingFactor := 0.15 in
  currentConfidence d * (1 - smoothingFactor)
  + rawConfidence * smoothingFactor.

(** How a frame's energy compares with the thresholds in force when the
    state machine looks at it. *)
Inductive Region : Type := AboveSpeech | BelowRelease | Intermediate.

Definition region (rms effectiveThreshold releaseThreshold : R) : Region :=
  if Rleb effectiveThreshold rms then AboveSpeech
  else if Rleb rms releaseThreshold then BelowRelease
  else Intermediate.

(** The detector as it stands when the state machine compares [rms]:
    histories, peak, noise floor, thresholds and confidence updated. *)
Definition measured (d : Detector) (rms : R) : Detector :=
  let energyHistory := pushBounded (energyHistory d) rms in
  let peakEnergy := Rmax (peakEnergy d * 0.999) rms in
  let noiseFloor :=
    if adaptiveThreshold d then updateNoiseFloor d rms else noiseFloor d in
  let noiseMargin := 2.5 in
  let speechThreshold :=
    if adaptiveThreshold d then noiseFloor * noiseMargin
    else speechThreshold d in
  let releaseThreshold :=
    if adaptiveThreshold d then noiseFloor * (noiseMargin * 0.6)
    else releaseThreshold d in
  let currentConfidence :=
    if confidenceEnabled d then smoothedConfidence d energyHistory noiseFloor
    else currentConfidence d in
  let confidenceHistory :=
    if confidenceEnabled d
    then pushBounded (confidenceHistory d) currentConfidence
    else confidenceHistory d in
  update d speechThreshold releaseThreshold (speechFrameCount d)
    (silenceFrameCount d) (speaking d) noiseFloor energyHistory
    confidenceHistory currentConfidence peakEnergy (calls d).

Definition effectiveThreshold (d : Detector) : R :=
  if confidenceEnabled d
  then speechThreshold d * (1.0 - currentConfidence d * 0.3)
  else speechThreshold d.

Definition withMachine (d : Detector) (speechFrameCount' silenceFrameCount' : nat)
    (speaking' : bool) (currentConfidence' : R) (calls' : list Callback)
    : Detector :=
  update d (speechThreshold d) (releaseThreshold d) speechFrameCount'
    silenceFrameCount' speaking' (noiseFloor d) (energyHistory d)
    (confidenceHistory d) currentConfidence' (peakEnergy d) calls'.

(** The state machine of [processFrame] on a measured detector. *)
Definition decide (d : Detector) (rms : R) : Detector :=
  match region rms (effectiveThreshold d) (releaseThreshold d) with
  | AboveSpeech =>
      let count := S (speechFrameCount d) in
      if negb (speaking d) && (minSpeechFrames d <=? count)%nat
         && (negb (confidenceEnabled d) || Rleb 0.4 (currentConfidence d))
      then
        let startConfidence :=
          if confidenceEnabled d then currentConfidence d else 0.8 in
        withMachine d count 0 true (currentConfidence d)
          (calls d ++ [OnSpeechStart startConfidence])
      else
        withMachine d count 0 (speaking d) (currentConfidence d) (calls d)
  | BelowRelease =>
      if speaking d then
        let silence := S (silenceFrameCount d) in
        if (minSilenceFrames d <=? silence)%nat then
          let endConfidence :=
            if confidenceEnabled d then currentConfidence d else 0.8 in
          withMachine d 0 0 false (currentConfidence d * 0.5)
            (calls d ++ [OnSpeechEnd endConfidence])
        else
          withMachine d (speechFrameCount d) silence true
            (currentConfidence d) (calls d)
      else
        withMachine d 0 (silenceFrameCount d) false (currentConfidence d)
          (calls d)
  | Intermediate =>
      withMachine d (Nat.max 0 (speechFrameCount d - 1))
        (silenceFrameCount d) (speaking d) (currentConfidence d) (calls d)
  end.

Definition notify (d : Detector) : Detector :=
  if confidenceEnabled d then
    withMachine d (speechFrameCount d) (silenceFrameCount d) (speaking d)
      (currentConfidence d)
      (calls d ++ [OnConfidenceUpdate (currentConfidence d)])
  else d.

(** [processFrame] once the frame's energy is known. *)
Definition processEnergy (d : Detector) (rms : R) : Detector :=
  notify (decide (measured d rms) rms).

Definition processFrame (d : Detector) (buffer : Buffer.t)
    (offset frameSize : nat) : Detector :=
  processEnergy d (computeRms buffer offset frameSize).

(** The frame loop of [processAudio]: at most [fuel] frames from sample
    [offset]. *)
Fixpoint frameLoop (fuel : nat) (d : Detector) (buffer : Buffer.t)
    (offset sampleCount : Z) : Detector :=
  match fuel with
  | O => d
  | S fuel' =>
      if (offset <? sampleCount)%Z then
        let frameSize := Z.min (frameSamples d) (sampleCount - offset) in
        if (frameSize <=? 0)%Z then d
        else
          frameLoop fuel'
            (processFrame d buffer (Z.to_nat offset) (Z.to_nat frameSize))
            buffer (offset + frameSamples d)%Z sampleCount
      else d
  end.

Definition processAudio (d : Detector) (buffer : Buffer.t) : Detector :=
  if (length buffer =? 0)%nat then d
  else if Nat.odd (length buffer) then d (* warn and drop the chunk *)
  else
    let sampleCount := Nat.div2 (length buffer) in
    frameLoop sampleCount d buffer 0 (Z.of_nat sampleCount).

(** Calls on a detector. *)
Inductive op : Type :=
| ProcessAudio (buffer : Buffer.t)
| Reset.

Definition perform (d : Detector) (o : op) : Detector :=
  match o with
  | ProcessAudio buffer => processAudio d buffer
  | Reset => reset d
  end.

Definition run (d : Detector) (ops : list op) : Detector :=
  fold_left perform ops d.

(** ** Frame-level traces, for counting *)

(** The region of a frame of energy [rms] arriving at detector [d]. *)
Definition regionOf (d : Detector) (rms : R) : Region :=
  let m := measured d rms in
  region rms (effectiveThreshold m) (releaseThreshold m).

Definition isAbove (r : Region) : bool :=
  match r with AboveSpeech => true | _ => false end.

(** The detector after the frames of energies [energies], and how many
    of those frames were at or above the effective threshold. *)
Fixpoint feed (d : Detector) (energies : list R) : Detector :=
  match energies with
  | [] => d
  | rms :: rest => feed (processEnergy d rms) rest
  end.

(** The speech-frame counter of a detector that is not speaking, after
    a frame in region [r]: up by one at or above the effective
    threshold, back to zero at or below the release threshold, down by
    one (and not below zero) in between. *)
Definition counted (count : nat) (r : Region) : nat :=
  match r with
  | AboveSpeech => S count
  | BelowRelease => 0
  | Intermediate => count - 1
  end.

Fixpoint countAbove (d : Detector) (energies : list R) : nat :=
  match energies with
  | [] => 0
  | rms :: rest =>
      (if isAbove (regionOf d rms) then 1 else 0)
      + countAbove (processEnergy d rms) rest
  end.

(** The energies of the frames that [frameLoop] cuts out of a chunk. *)
Fixpoint frameEnergies (fuel : nat) (frameSamples : Z) (buffer : Buffer.t)
    (offset sampleCount : Z) : list R :=
  match fuel with
  | O => []
  | S fuel' =>
      if (offset <? sampleCount)%Z then
        let frameSize := Z.min frameSamples (sampleCount - offset) in
        if (frameSize <=? 0)%Z then []
        else
          computeRms buffer (Z.to_nat offset) (Z.to_nat frameSize)
          :: frameEnergies fuel' frameSamples buffer
               (offset + frameSamples)%Z sampleCount
      else []
  end.

Definition chunkEnergies (d : Detector) (buffer : Buffer.t) : list R :=
  if (length buffer =? 0)%nat then []
  else if Nat.odd (length buffer) then []
  else
    let sampleCount := Nat.div2 (length buffer) in
    frameEnergies sampleCount (frameSamples d) buffer 0
      (Z.of_nat sampleCount).


(** ** Two one-sample chunks *)

(** The sample 1024 (energy 1/32) and the sample 400 (energy 25/2048). *)
Definition loud : Buffer.t := [x00; x04].
Definition middling : Buffer.t := [x90; x01].

(** The energies of five loud frames, a middling one, and a loud one. *)
Definition interleaved : list R :=
  [1 / 32; 1 / 32; 1 / 32; 1 / 32; 1 / 32; 25 / 2048; 1 / 32].

(** ** What is claimed of the detector state *)

Record Inv (d : Detector) : Prop := {
  inv_floor : 0.0001 <= noiseFloor d <= 0.1;
  inv_hysteresis : releaseThreshold d < speechThreshold d;
  inv_confidence : 0 <= currentConfidence d <= 1
}.

(** A detector with fixed thresholds and no confidence scoring. *)
Record Plain (d : Detector) : Prop := {
  plain_adaptive : adaptiveThreshold d = false;
  plain_confidence : confidenceEnabled d = false;
  plain_speech : speechThreshold d = 0.015;
  plain_release : releaseThreshold d = 0.008;
  plain_frames : minSpeechFrames d = 6%nat;
  plain_samples : frameSamples d = 960%Z
}.

(** ** Reading the callback log *)

(** Whether a listener that saw the calls [cs] takes the speaker to be
    speaking, starting from [speaking]; [None] when a start notice
    arrives during speech or an end notice outside of it. *)
Fixpoint afterCalls (speaking : bool) (cs : list Callback) : option bool :=
  match cs with
  | [] => Some speaking
  | OnSpeechStart _ :: rest =>
      if speaking then None else afterCalls true rest
  | OnSpeechEnd _ :: rest =>
      if speaking then afterCalls false rest else None
  | OnConfidenceUpdate _ :: rest => afterCalls speaking rest
  end.

End Vad.


(* ================================================================== *)
(** * VadDetector (services/vad-detector.ts): the lightweight detector *)
(* ================================================================== *)

Module VadDetector.

Local Open Scope R_scope.

(** [VadDetectorOptions], callbacks and the unused [targetSpeaker]
    apart. *)
Module Options.
Record t : Type := {
  sampleRate : option R;
  frameDurationMs : option R;
  speechThreshold : option R;
  releaseThreshold : option R;
  minSpeechMs : option R;
  minSilenceMs : option R
}.
End Options.

Definition noOptions : Options.t :=
  {| Options.sampleRate := None; Options.frameDurationMs := None;
     Options.speechThreshold := None; Options.releaseThreshold := None;
     Options.minSpeechMs := None; Options.minSilenceMs := None |}.

(** The calls the detector makes on its callbacks (when they are set). *)
Inductive Callback : Type := OnSpeechStart | OnSpeechEnd.

Record Detector : Type := {
  sampleRate : R;
  frameSamples : Z;
  speechThreshold : R;
  releaseThreshold : R;
  minSpeechFrames : nat;
  minSilenceFrames : nat;
  speechFrameCount : nat;
  silenceFrameCount : nat;
  speaking : bool;
  calls : list Callback
}.

(** The constructor (for a non-zero frame duration). *)
Definition create (options : Options.t) : Detector :=
  let sampleRate := Vad.orElse (Options.sampleRate options) 48000 in
  let frameDurationMs := Vad.orElse (Options.frameDurationMs options) 20 in
  let minSpeechMs := Vad.orElse (Options.minSpeechMs options) 120 in
  let minSilenceMs := Vad.orElse (Options.minSilenceMs options) 220 in
  {| sampleRate := sampleRate;
     frameSamples := Int_part ((sampleRate / 1000) * frameDurationMs);
     speechThreshold := Vad.orElse (Options.speechThreshold options) 0.015;
     releaseThreshold := Vad.orElse (Options.releaseThreshold options) 0.008;
     minSpeechFrames :=
       Z.to_nat (Z.max 1 (Int_part (minSpeechMs / frameDurationMs)));
     minSilenceFrames :=
       Z.to_nat (Z.max 1 (Int_part (minSilenceMs / frameDurationMs)));
     speechFrameCount := 0; silenceFrameCount := 0; speaking := false;
     calls := [] |}.

Definition isSpeaking (d : Detector) : bool := speaking d.

(** The counters and the flag, the rest being read-only. *)
Definition withMachine (d : Detector)
    (speechFrameCount' silenceFrameCount' : nat) (speaking' : bool)
    (calls' : list Callback) : Detector :=
  {| sampleRate := sampleRate d; frameSamples := frameSamples d;
     speechThreshold := speechThreshold d;
     releaseThreshold := releaseThreshold d;
     minSpeechFrames := minSpeechFrames d;
     minSilenceFrames := minSilenceFrames d;
     speechFrameCount := speechFrameCount';
     silenceFrameCount := silenceFrameCount'; speaking := speaking';
     calls := calls' |}.

Definition reset (d : Detector) : Detector :=
  withMachine d 0 0 false (calls d).

(** The sample loop of [computeRms], [n] iterations from sample [i];
    here [readInt16LE] is not guarded and may throw. *)
Fixpoint energyLoop (n : nat) (buffer : Buffer.t) (startByte i : nat)
    (energy : R) : outcome R :=
  match n with
  | O => Ok energy
  | S n' =>
      let byteIndex := (startByte + i * 2)%nat in
      match readInt16LE buffer byteIndex with
      | Some sample =>
          let normalized := IZR sample / 32768 in
          energyLoop n' buffer startByte (S i)
            (energy + normalized * normalized)
      | None => RangeError
      end
  end.

Definition computeRms (buffer : Buffer.t) (startSample frameSize : nat)
    : outcome R :=
  match energyLoop frameSize buffer (startSample * 2) 0 0 with
  | Ok energy =>
      let meanSquare := energy / INR frameSize in
      Ok (sqrt meanSquare)
  | RangeError => RangeError
  end.

(** The body of the frame loop once the frame's energy is known. *)
Definition processEnergy (d : Detector) (rms : R) : Detector :=
  if Vad.Rleb (speechThreshold d) rms then
    let count := S (speechFrameCount d) in
    if negb (speaking d) && (minSpeechFrames d <=? count)%nat then
      withMachine d count 0 true (calls d ++ [OnSpeechStart])
    else withMachine d count 0 (speaking d) (calls d)
  else if Vad.Rleb rms (releaseThreshold d) then
    if speaking d then
      let silence := S (silenceFrameCount d) in
      if (minSilenceFrames d <=? silence)%nat then
        withMachine d 0 0 false (calls d ++ [OnSpeechEnd])
      else withMachine d (speechFrameCount d) silence true (calls d)
    else withMachine d 0 (silenceFrameCount d) false (calls d)
  else
    withMachine d (Nat.max 0 (speechFrameCount d - 1))
      (silenceFrameCount d) (speaking d) (calls d).

(** The frame loop of [processAudio]: at most [fuel] frames from sample
    [offset]. *)
Fixpoint frameLoop (fuel : nat) (d : Detector) (buffer : Buffer.t)
    (offset sampleCount : Z) : outcome Detector :=
  match fuel with
  | O => Ok d
  | S fuel' =>
      if (offset <? sampleCount)%Z then
        let frameSize := Z.min (frameSamples d) (sampleCount - offset) in
        if (frameSize <=? 0)%Z then Ok d
        else
          match computeRms buffer (Z.to_nat offset) (Z.to_nat frameSize) with
          | Ok rms =>
              frameLoop fuel' (processEnergy d rms) buffer
                (offset + frameSamples d)%Z sampleCount
          | RangeError => RangeError
          end
      else Ok d
  end.

Definition processAudio (d : Detector) (buffer : Buffer.t)
    : outcome Detector :=
  if (length buffer =? 0)%nat then Ok d
  else if Nat.odd (length buffer) then Ok d (* warn and drop the chunk *)
  else
    let sampleCount := Nat.div2 (length buffer) in
    frameLoop sampleCount d buffer 0 (Z.of_nat sampleCount).

(** Calls on a detector. *)
Inductive op : Type :=
| ProcessAudio (buffer : Buffer.t)
| Reset.

Definition perform (d : Detector) (o : op) : outcome Detector :=
  match o with
  | ProcessAudio buffer => processAudio d buffer
  | Reset => Ok (reset d)
  end.

(** The calls [ops] in turn, up to the first that throws. *)
Fixpoint run (d : Detector) (ops : list op) : outcome Detector :=
  match ops with
  | [] => Ok d
  | o :: rest =>
      match perform d o with
      | Ok d' => run d' rest
      | RangeError => RangeError
      end
  end.

(** ** The enhanced detector configured to do the same *)

(** The same options for the enhanced detector, with adaptive
    thresholds and confidence scoring switched off. *)
Definition enhancedOptions (options : Options.t) : Vad.Options.t :=
  {| Vad.Options.sampleRate := Options.sampleRate options;
     Vad.Options.frameDurationMs := Options.frameDurationMs options;
     Vad.Options.speechThreshold := Options.speechThreshold options;
     Vad.Options.releaseThreshold := Options.releaseThreshold options;
     Vad.Options.minSpeechMs := Options.minSpeechMs options;
     Vad.Options.minSilenceMs := Options.minSilenceMs options;
     Vad.Options.adaptiveThreshold := Some false;
     Vad.Options.noiseFloorAdaptationRate := None;
     Vad.Options.confidenceEnabled := Some false;
     Vad.Options.spectralAnalysis := None |}.

Definition enhancedOp (o : op) : Vad.op :=
  match o with
  | ProcessAudio buffer => Vad.ProcessAudio buffer
  | Reset => Vad.Reset
  end.

(** The enhanced detector's call, made with its fixed confidence. *)
Definition enhancedCallback (c : Callback) : Vad.Callback :=
  match c with
  | OnSpeechStart => Vad.OnSpeechStart 0.8
  | OnSpeechEnd => Vad.OnSpeechEnd 0.8
  end.

Record Agree (b : Detector) (e : Vad.Detector) : Prop := {
  agree_samples : frameSamples b = Vad.frameSamples e;
  agree_speech : speechThreshold b = Vad.speechThreshold e;
  agree_release : releaseThreshold b = Vad.releaseThreshold e;
  agree_minSpeech : minSpeechFrames b = Vad.minSpeechFrames e;
  agree_minSilence : minSilenceFrames b = Vad.minSilenceFrames e;
  agree_adaptive : Vad.adaptiveThreshold e = false;
  agree_confidence : Vad.confidenceEnabled e = false;
  agree_speechCount : speechFrameCount b = Vad.speechFrameCount e;
  agree_silenceCount : silenceFrameCount b = Vad.silenceFrameCount e;
  agree_speaking : speaking b = Vad.speaking e;
  agree_calls : Vad.calls e = map enhancedCallback (calls b)
}.

End VadDetector.


(* ================================================================== *)
(** * ProductionOrchestrator: one session's speech and playback handlers *)
(* ================================================================== *)

Module Session.

Import Shared Orchestrator.
Local Open Scope R_scope.

(** The part of [SessionContext] the speech and playback handlers use.
    [activeAgentSpeakers] is the set in insertion order; [recorded]
    is what was handed to the recorder and [stopRequests] the adapters
    that were asked to stop, oldest first. *)
Record SessionContext : Type := {
  humanSpeaking : bool;
  duckingActive : bool;
  activeAgentSpeakers : list SpeakerId;
  orbRestore : option (OrbState * OrbState);
  recorded : list (SpeakerId * Buffer.t);
  stopRequests : list SpeakerId
}.

(** The context [createSession] returns. *)
Definition createSession : SessionContext :=
  {| humanSpeaking := false; duckingActive := false;
     activeAgentSpeakers := []; orbRestore := None; recorded := [];
     stopRequests := [] |}.

Definition has (set : list SpeakerId) (speaker : SpeakerId) : bool :=
  existsb (SpeakerId_eqb speaker) set.

Definition add (set : list SpeakerId) (speaker : SpeakerId)
    : list SpeakerId :=
  if has set speaker then set else set ++ [speaker].

Definition delete (set : list SpeakerId) (speaker : SpeakerId)
    : list SpeakerId :=
  filter (fun s => negb (SpeakerId_eqb s speaker)) set.

Definition agents : list SpeakerId := [claude; guest].

(** [handleHumanSpeechStart]; every interrupted agent has a TTS
    adapter, whose [stop] is requested at once, the rest of
    [stopAgentPlayback] running when that request resolves. *)
Definition handleHumanSpeechStart (st : State) (ctx : SessionContext)
    : State * SessionContext :=
  if humanSpeaking ctx then (st, ctx)
  else
    let interrupted := activeAgentSpeakers ctx in
    let ctx :=
      {| humanSpeaking := true; duckingActive := true;
         activeAgentSpeakers := [];
         orbRestore := Some (orbStates st claude, orbStates st guest);
         recorded := recorded ctx;
         stopRequests := stopRequests ctx ++ interrupted |} in
    let st := updateOrbState st you speaking in
    let st := fold_left (fun st agent => updateOrbState st agent muted)
                agents st in
    (st, ctx).

Definition handleHumanSpeechEnd (st : State) (ctx : SessionContext)
    : State * SessionContext :=
  if negb (humanSpeaking ctx) then (st, ctx)
  else
    let st := updateOrbState st you listening in
    let st :=
      match orbRestore ctx with
      | Some (previousClaude, previousGuest) =>
          updateOrbState (updateOrbState st claude previousClaude)
            guest previousGuest
      | None =>
          fold_left (fun st agent => updateOrbState st agent listening)
            agents st
      end in
    (st,
     {| humanSpeaking := false; duckingActive := false;
        activeAgentSpeakers := activeAgentSpeakers ctx;
        orbRestore := None; recorded := recorded ctx;
        stopRequests := stopRequests ctx |}).

(** The rest of [stopAgentPlayback], once the adapter's [stop] has
    resolved or failed. *)
Definition playbackStopped (st : State) (ctx : SessionContext)
    (speaker : SpeakerId) : State * SessionContext :=
  let ctx :=
    {| humanSpeaking := humanSpeaking ctx;
       duckingActive := duckingActive ctx;
       activeAgentSpeakers := delete (activeAgentSpeakers ctx) speaker;
       orbRestore := orbRestore ctx; recorded := recorded ctx;
       stopRequests := stopRequests ctx |} in
  if negb (humanSpeaking ctx) then (updateOrbState st speaker listening, ctx)
  else (st, ctx).

(** [handleTtsAudioChunk]; a throwing [applyGain] would leave
    everything as it was. *)
Definition handleTtsAudioChunk (st : State) (ctx : SessionContext)
    (speaker : SpeakerId) (audioChunk : Buffer.t)
    : outcome (State * SessionContext) :=
  match (if duckingActive ctx then applyGain audioChunk duckingGain
         else Ok audioChunk) with
  | RangeError => RangeError
  | Ok processedChunk =>
      let recorded := recorded ctx ++ [(speaker, processedChunk)] in
      if negb (has (activeAgentSpeakers ctx) speaker) then
        Ok (updateOrbState st speaker speaking,
            {| humanSpeaking := humanSpeaking ctx;
               duckingActive := duckingActive ctx;
               activeAgentSpeakers := add (activeAgentSpeakers ctx) speaker;
               orbRestore := orbRestore ctx; recorded := recorded;
               stopRequests := stopRequests ctx |})
      else
        Ok (st,
            {| humanSpeaking := humanSpeaking ctx;
               duckingActive := duckingActive ctx;
               activeAgentSpeakers := activeAgentSpeakers ctx;
               orbRestore := orbRestore ctx; recorded := recorded;
               stopRequests := stopRequests ctx |})
  end.

Definition handleTtsComplete (st : State) (ctx : SessionContext)
    (speaker : SpeakerId) : State * SessionContext :=
  let ctx' :=
    {| humanSpeaking := humanSpeaking ctx;
       duckingActive := duckingActive ctx;
       activeAgentSpeakers := delete (activeAgentSpeakers ctx) speaker;
       orbRestore := orbRestore ctx; recorded := recorded ctx;
       stopRequests := stopRequests ctx |} in
  if negb (humanSpeaking ctx)
  then (updateOrbState st speaker listening, ctx')
  else (st, ctx').

Definition handleTtsError (st : State) (ctx : SessionContext)
    (speaker : SpeakerId) : State * SessionContext :=
  (st,
   {| humanSpeaking := humanSpeaking ctx;
      duckingActive := duckingActive ctx;
      activeAgentSpeakers := delete (activeAgentSpeakers ctx) speaker;
      orbRestore := orbRestore ctx; recorded := recorded ctx;
      stopRequests := stopRequests ctx |}).

(** What reaches these handlers. *)
Inductive event : Type :=
| HumanSpeechStart
| HumanSpeechEnd
| TtsAudioChunk (speaker : SpeakerId) (audioChunk : Buffer.t)
| TtsComplete (speaker : SpeakerId)
| TtsError (speaker : SpeakerId)
| PlaybackStopped (speaker : SpeakerId).

Definition handle (s : State * SessionContext) (ev : event)
    : outcome (State * SessionContext) :=
  let (st, ctx) := s in
  match ev with
  | HumanSpeechStart => Ok (handleHumanSpeechStart st ctx)
  | HumanSpeechEnd => Ok (handleHumanSpeechEnd st ctx)
  | TtsAudioChunk speaker audioChunk =>
      handleTtsAudioChunk st ctx speaker audioChunk
  | TtsComplete speaker => Ok (handleTtsComplete st ctx speaker)
  | TtsError speaker => Ok (handleTtsError st ctx speaker)
  | PlaybackStopped speaker => Ok (playbackStopped st ctx speaker)
  end.

(** The events in turn, up to the first handler that throws. *)
Fixpoint run (s : State * SessionContext) (evs : list event)
    : outcome (State * SessionContext) :=
  match evs with
  | [] => Ok s
  | ev :: rest =>
      match handle s ev with
      | Ok s' => run s' rest
      | RangeError => RangeError
      end
  end.

End Session.


(* ================================================================== *)
(** * Facts about buffers *)
(* ================================================================== *)

Module BufferFacts.

Lemma byteZ_zbyte (z : Z) : byteZ (zbyte z) = (z mod 256)%Z.
Proof.
  unfold byteZ, zbyte.
  assert (Hr : (0 <= z mod 256 < 256)%Z) by (apply Z.mod_pos_bound; lia).
  destruct (Byte.of_N (Z.to_N (z mod 256))) as [b|] eqn:E.
  - apply Byte.to_of_N in E. rewrite E. lia.
  - apply Byte.of_N_None_iff in E. lia.
Qed.

Lemma byteZ_range (b : byte) : (0 <= byteZ b < 256)%Z.
Proof.
  unfold byteZ. pose proof (Byte.to_N_bounded b). lia.
Qed.

Lemma zbyte_byteZ (b : byte) : zbyte (byteZ b) = b.
Proof.
  unfold zbyte. pose proof (byteZ_range b) as Hr.
  rewrite Z.mod_small by lia. unfold byteZ. rewrite N2Z.id.
  now rewrite Byte.of_to_N.
Qed.

(** Reading back what was written gives the value, for every value a
    16-bit sample can take. *)
Lemma read_int16LE (v : Z) (rest : list byte) :
  (-32768 <= v <= 32767)%Z ->
  readInt16LE (int16LE v ++ rest) 0 = Some v.
Proof.
  intros Hv. unfold readInt16LE, int16LE. cbn [app nth_error].
  rewrite !byteZ_zbyte. f_equal.
  pose proof (Z.div_mod v 256 ltac:(lia)) as Hdm.
  pose proof (Z.mod_pos_bound v 256 ltac:(lia)) as Hlo.
  assert (Hq : (-128 <= v / 256 <= 127)%Z) by lia.
  destruct (Z_lt_dec v 0) as [Hneg|Hpos].
  - assert (Hq1 : (v / 256 < 0)%Z) by lia.
    assert (Hh : ((v / 256) mod 256 = v / 256 + 256)%Z).
    { symmetry. apply Z.mod_unique with (q := (-1)%Z); lia. }
    rewrite Hh.
    destruct (Z.ltb_spec (v mod 256 + (v / 256 + 256) * 256) 32768); lia.
  - assert (Hq0 : (0 <= v / 256)%Z) by lia.
    rewrite (Z.mod_small (v / 256) 256) by lia.
    destruct (Z.ltb_spec (v mod 256 + v / 256 * 256) 32768); lia.
Qed.

Lemma readInt16LE_range (buf : t) (off : nat) (v : Z) :
  readInt16LE buf off = Some v -> (-32768 <= v <= 32767)%Z.
Proof.
  unfold readInt16LE.
  destruct (nth_error buf off) as [a|]; [|discriminate].
  destruct (nth_error buf (S off)) as [b|]; [|discriminate].
  intros H. injection H as <-.
  pose proof (byteZ_range a). pose proof (byteZ_range b).
  destruct (Z.ltb_spec (byteZ a + byteZ b * 256) 32768); lia.
Qed.

End BufferFacts.


(* ================================================================== *)
(** * Facts about the audio processor *)
(* ================================================================== *)

Module AudioProcessorFacts.

Import AudioProcessor BufferFacts.
Local Open Scope R_scope.

(** ** Numeric helpers *)

Lemma clamp16_range (z : Z) : (-32768 <= clamp16 z <= 32767)%Z.
Proof. unfold clamp16. lia. Qed.

Lemma scale_range (s : Z) (g : option R) : (-32768 <= scale s g <= 32767)%Z.
Proof.
  destruct g as [g|]; cbn [scale]; [apply clamp16_range | lia].
Qed.

Lemma round_IZR (z : Z) : round (IZR z) = z.
Proof.
  unfold round.
  destruct (base_Int_part (IZR z + / 2)) as [Hlo Hhi].
  assert (H1 : IZR (Int_part (IZR z + / 2)) < IZR (z + 1)).
  { rewrite plus_IZR. lra. }
  assert (H2 : IZR (z - 1) < IZR (Int_part (IZR z + / 2))).
  { rewrite minus_IZR. lra. }
  apply lt_IZR in H1. apply lt_IZR in H2. lia.
Qed.

Lemma dbToGain_pos (db : R) : 0 < dbToGain db.
Proof. unfold dbToGain, Rpower. apply exp_pos. Qed.

Lemma dbToGain_le_1 (db : R) : db <= 0 -> dbToGain db <= 1.
Proof.
  intros H. unfold dbToGain.
  rewrite <- (Rpower_O 10) by lra.
  apply Rle_Rpower; lra.
Qed.

Lemma dbToGain_lt_1 (db : R) : db < 0 -> dbToGain db < 1.
Proof.
  intros H. unfold dbToGain.
  rewrite <- (Rpower_O 10) by lra.
  apply Rpower_lt; lra.
Qed.

Lemma dbToGain_20 : dbToGain 20 = 10.
Proof.
  unfold dbToGain. replace (20 / 20) with 1 by lra.
  apply Rpower_1. lra.
Qed.

(** ** The loop on a buffer of whole samples *)

Lemma readInt16LE_skip (a b : byte) (l : Buffer.t) (j : nat) :
  readInt16LE (a :: b :: l) (S (S j)) = readInt16LE l j.
Proof. reflexivity. Qed.

Lemma readInt16LE_app (pre l : Buffer.t) (j : nat) :
  readInt16LE (pre ++ l) (length pre + j) = readInt16LE l j.
Proof.
  unfold readInt16LE.
  replace (S (length pre + j)) with (length pre + S j)%nat by lia.
  rewrite !nth_error_app2 by lia.
  now replace (length pre + j - length pre)%nat with j by lia;
    replace (length pre + S j - length pre)%nat with (S j) by lia.
Qed.

Lemma readInt16LE_in_range (buf : Buffer.t) (off : nat) :
  (S off < length buf)%nat -> exists v, readInt16LE buf off = Some v.
Proof.
  intros H. unfold readInt16LE.
  destruct (nth_error buf off) as [a|] eqn:Ea.
  - destruct (nth_error buf (S off)) as [b|] eqn:Eb; [eauto|].
    apply nth_error_None in Eb. lia.
  - apply nth_error_None in Ea. lia.
Qed.


Lemma length_int16LE (v : Z) : length (int16LE v) = 2%nat.
Proof. reflexivity. Qed.

(** With [n] whole samples left from index [i], the loop returns: it
    appends two bytes per sample, sample [k] scaled by the gain of its
    position, and leaves the ramp where [n] samples take it. *)
Lemma processLoop_whole (n : nat) :
  forall (buffer : Buffer.t) (i : nat) (rs : GainRampState)
         (processed : Buffer.t),
    length buffer = (2 * (i + n))%nat ->
    exists bytes,
      processLoop n buffer i rs processed
        = (stateAfter rs n, Ok (processed ++ bytes))
      /\ length bytes = (2 * n)%nat
      /\ forall k, (k < n)%nat ->
           exists sample,
             readInt16LE buffer (2 * (i + k)) = Some sample
             /\ readInt16LE bytes (2 * k) = Some (scale sample (gainAt rs k)).
Proof.
  induction n as [|n IH]; intros buffer i rs processed Hlen.
  - exists []. cbn. rewrite app_nil_r. repeat split; intros; lia.
  - cbn [processLoop].
    destruct (readInt16LE_in_range buffer (i * 2)%nat) as [sample Hs]; [lia|].
    rewrite Hs.
    destruct (sampleGain rs) as [gain rs'] eqn:Eg.
    destruct (IH buffer (S i) rs' (processed ++ int16LE (scale sample gain)))
      as (bytes & Hrun & Hl & Hk); [lia|].
    exists (int16LE (scale sample gain) ++ bytes).
    split; [|split].
    + rewrite Hrun. cbn [stateAfter]. rewrite Eg. cbn [snd].
      now rewrite <- app_assoc.
    + rewrite length_app, Hl. cbn. lia.
    + intros [|k] Hlt.
      * exists sample. split.
        -- now replace (2 * (i + 0))%nat with (i * 2)%nat by lia.
        -- unfold gainAt. cbn [stateAfter]. rewrite Eg. cbn [fst].
           apply read_int16LE, scale_range.
      * destruct (Hk k) as (s & Hr & Hw); [lia|].
        exists s. split.
        -- now replace (2 * (i + S k))%nat with (2 * (S i + k))%nat by lia.
        -- replace (2 * S k)%nat with (length (int16LE (scale sample gain)) + 2 * k)%nat
             by (cbn; lia).
           rewrite readInt16LE_app. unfold gainAt in *. cbn [stateAfter].
           now rewrite Eg.
Qed.


Lemma div2_S_double (m : nat) : Nat.div2 (S (2 * m)) = m.
Proof.
  replace (S (2 * m)) with (1 + 2 * m)%nat by lia.
  rewrite Nat.div2_div.
  replace (1 + 2 * m)%nat with (1 + m * 2)%nat by lia.
  rewrite Nat.div_add by lia. reflexivity.
Qed.

Lemma div2_SS_double (m : nat) : Nat.div2 (S (S (2 * m))) = S m.
Proof. cbn [Nat.div2]. f_equal. apply Nat.div2_double. Qed.

Lemma bypass_true (rs : GainRampState) :
  bypass rs = true <-> active rs = false /\ currentGain rs = 1.
Proof.
  unfold bypass. destruct (active rs); cbn.
  - split; [discriminate | intros [H _]; discriminate].
  - destruct (Req_dec_T (currentGain rs) 1); split; intros H;
      try tauto; try discriminate.
Qed.

(** Pass-through: unity gain and no ramp return the input itself. *)
Lemma processBuffer_unity (rs : GainRampState) (buffer : Buffer.t) :
  active rs = false -> currentGain rs = 1 ->
  processBuffer rs buffer = (rs, Ok buffer).
Proof.
  intros Ha Hg. unfold processBuffer.
  now rewrite (proj2 (bypass_true rs) (conj Ha Hg)).
Qed.

(** Whole-sample buffers: the call returns a buffer of the same length
    whose [k]-th sample is the input's scaled by the gain at position
    [k]. *)
Lemma processBuffer_whole_samples (rs : GainRampState) (buffer : Buffer.t)
    (m : nat) :
  length buffer = (2 * m)%nat ->
  exists out,
    snd (processBuffer rs buffer) = Ok out
    /\ length out = length buffer
    /\ (bypass rs = true -> out = buffer)
    /\ (bypass rs = false ->
        fst (processBuffer rs buffer) = stateAfter rs m
        /\ forall k, (k < m)%nat ->
             exists sample,
               readInt16LE buffer (2 * k) = Some sample
               /\ readInt16LE out (2 * k)
                  = Some (scale sample (gainAt rs k))).
Proof.
  intros Hlen. unfold processBuffer.
  destruct (bypass rs) eqn:Eb.
  - exists buffer. cbn [snd]. split; [reflexivity|]. split; [reflexivity|].
    split; [reflexivity | discriminate].
  - unfold sampleIterations. rewrite Hlen, div2_S_double.
    destruct (processLoop_whole m buffer 0 rs [])
      as (bytes & Hrun & Hl & Hk); [lia|].
    exists bytes. rewrite Hrun. cbn [fst snd app].
    split; [reflexivity|]. split; [lia|]. split; [discriminate|].
    intros _. split; [reflexivity|]. exact Hk.
Qed.



(** ** Ramp invariants *)

Lemma floor_nonneg (x : R) : 0 <= x -> (0 <= floor x)%Z.
Proof.
  intros Hx. unfold floor.
  destruct (base_Int_part x) as [_ Hhi].
  assert (H : IZR (-1) < IZR (Int_part x)) by lra.
  apply lt_IZR in H. lia.
Qed.

Lemma curvedProgress_unit (c : DuckingCurve) (p : R) :
  0 <= p <= 1 -> 0 <= curvedProgress c p <= 1.
Proof. intros Hp. destruct c; cbn; nra. Qed.

Lemma interpolate_unit (a b t : R) :
  0 <= a <= 1 -> 0 <= b <= 1 -> 0 <= t <= 1 -> 0 <= a + (b - a) * t <= 1.
Proof. intros Ha Hb Ht. nra. Qed.

Lemma Inv_initial (cfg : AudioProcessorConfig) : Inv (initialRampState cfg).
Proof. constructor; cbn; try lra; try lia; try reflexivity; discriminate. Qed.

Lemma Inv_startDucking cfg rs immediate :
  Attenuating cfg -> Inv rs -> Inv (startDucking cfg rs immediate).
Proof.
  intros [Hred Hrate Hup Hdown] [Hc Hs Ht He Hd].
  pose proof (dbToGain_pos (getDuckingReduction cfg)) as Hpos.
  pose proof (dbToGain_le_1 _ Hred) as Hle.
  unfold startDucking. destruct immediate; constructor; cbn;
    try lra; try reflexivity; try discriminate.
  intros _. apply floor_nonneg. apply Rmult_le_pos; lra.
Qed.

Lemma Inv_stopDucking cfg rs immediate :
  Attenuating cfg -> Inv rs -> Inv (stopDucking cfg rs immediate).
Proof.
  intros [Hred Hrate Hup Hdown] [Hc Hs Ht He Hd].
  unfold stopDucking. destruct immediate; constructor; cbn;
    try lra; try reflexivity; try discriminate.
  intros _. apply floor_nonneg. apply Rmult_le_pos; lra.
Qed.

(** While a ramp runs and is not finishing, the interpolated gain is a
    real number between 0 and 1. *)
Lemma computeRampGain_unit (rs : GainRampState) :
  Inv rs ->
  (Z.of_nat (S (elapsedSamples rs)) < rampSamples rs)%Z ->
  exists g, computeRampGain rs = Some g /\ 0 <= g <= 1.
Proof.
  intros [Hc Hs Ht He Hd] Hlt. unfold computeRampGain.
  destruct (Z.eqb_spec (rampSamples rs) 0) as [E|E]; [lia|].
  eexists; split; [reflexivity|].
  apply interpolate_unit; auto.
  apply curvedProgress_unit.
  assert (Hr : 0 < IZR (rampSamples rs)) by (apply IZR_lt; lia).
  assert (He' : INR (elapsedSamples rs) <= IZR (rampSamples rs)).
  { rewrite INR_IZR_INZ. apply IZR_le. lia. }
  pose proof (pos_INR (elapsedSamples rs)) as Hn.
  split.
  - apply Rmult_le_pos; [lra|]. left. now apply Rinv_0_lt_compat.
  - apply Rmult_le_reg_r with (r := IZR (rampSamples rs)); [lra|].
    unfold Rdiv. rewrite Rmult_assoc, Rinv_l by lra. lra.
Qed.

Lemma Inv_sampleGain (rs : GainRampState) :
  Inv rs -> Inv (snd (sampleGain rs)).
Proof.
  intros HI. pose proof HI as [Hc Hs Ht He Hd]. unfold sampleGain.
  destruct (active rs) eqn:Ea; [|exact HI].
  destruct (Z.leb_spec (rampSamples rs) (Z.of_nat (S (elapsedSamples rs))))
    as [Hdone|Hrun]; cbn [snd].
  - constructor; cbn; auto; discriminate.
  - destruct (computeRampGain_unit rs HI Hrun) as (g & Eg & Hg).
    rewrite Eg. constructor; cbn; auto; try discriminate.
    intros _. lia.
Qed.

(** A ramp that completes on this sample lands exactly on its target. *)
Lemma sampleGain_completes (rs : GainRampState) :
  active rs = true ->
  active (snd (sampleGain rs)) = false ->
  currentGain (snd (sampleGain rs)) = targetGain (snd (sampleGain rs)).
Proof.
  unfold sampleGain. intros ->.
  destruct (rampSamples rs <=? Z.of_nat (S (elapsedSamples rs)))%Z; cbn.
  - reflexivity.
  - discriminate.
Qed.

Lemma Inv_stateAfter (k : nat) : forall rs, Inv rs -> Inv (stateAfter rs k).
Proof.
  induction k as [|k IH]; intros rs HI; cbn; auto using Inv_sampleGain.
Qed.

Lemma Inv_processLoop (n : nat) :
  forall buffer i rs processed,
    Inv rs -> Inv (fst (processLoop n buffer i rs processed)).
Proof.
  induction n as [|n IH]; intros buffer i rs processed HI; cbn; auto.
  destruct (readInt16LE buffer (i * 2)); cbn; auto.
  pose proof (Inv_sampleGain rs HI) as HI'.
  destruct (sampleGain rs) as [gain rs']. cbn in HI'. now apply IH.
Qed.

Lemma Inv_processBuffer rs buffer :
  Inv rs -> Inv (fst (processBuffer rs buffer)).
Proof.
  intros HI. unfold processBuffer.
  destruct (bypass rs); cbn; auto using Inv_processLoop.
Qed.

Lemma Inv_perform cfg rs c :
  Attenuating cfg -> Inv rs -> Inv (perform cfg rs c).
Proof.
  intros Hcfg HI.
  destruct c; cbn;
    auto using Inv_startDucking, Inv_stopDucking, Inv_processBuffer.
Qed.

Lemma Inv_fold cfg (calls : list call) :
  Attenuating cfg ->
  forall rs, Inv rs -> Inv (fold_left (perform cfg) calls rs).
Proof.
  intros Hcfg. induction calls as [|c calls IH]; intros rs HI; cbn; auto.
  apply IH. now apply Inv_perform.
Qed.

Lemma Attenuating_default : Attenuating defaultConfig.
Proof. constructor; cbn; lra. Qed.

(** ** applyGain of the orchestrator *)

Import Orchestrator.

Lemma applyGainLoop_total (gain : R) (n : nat) :
  forall (buffer : Buffer.t) (i : nat) (scaled : Buffer.t),
    (i + 2 * n = length buffer \/ i + 2 * n = S (length buffer))%nat ->
    exists bytes,
      applyGainLoop n buffer i gain scaled = Ok (scaled ++ bytes)
      /\ (length bytes = length buffer - i)%nat
      /\ (forall k, (i + 2 * k + 1 < length buffer)%nat ->
            exists sample,
              readInt16LE buffer (i + 2 * k) = Some sample
              /\ readInt16LE bytes (2 * k)
                 = Some (clamp16 (round (IZR sample * gain))))
      /\ ((0 < n)%nat -> (i + 2 * n = S (length buffer))%nat ->
            nth_error bytes (length buffer - i - 1)
            = nth_error buffer (length buffer - 1)).
Proof.
  induction n as [|n IH]; intros buffer i scaled Hlen.
  - exists []. cbn. rewrite app_nil_r.
    split; [reflexivity|]. split; [lia|]. split; intros; lia.
  - cbn [applyGainLoop].
    destruct (Nat.leb_spec (length buffer) (i + 1)) as [Hlast|Hmore].
    + assert (Hi : length buffer = S i) by lia.
      assert (Hn : n = 0%nat) by lia. subst n.
      destruct (nth_error buffer i) as [b|] eqn:Eb.
      2:{ apply nth_error_None in Eb. lia. }
      exists [b]. cbn [applyGainLoop].
      split; [reflexivity|]. split; [cbn; lia|].
      split; [intros; lia|].
      intros _ _. rewrite Hi.
      replace (S i - i - 1)%nat with 0%nat by lia.
      replace (S i - 1)%nat with i by lia. now rewrite Eb.
    + destruct (readInt16LE_in_range buffer i) as [sample Hs]; [lia|].
      rewrite Hs.
      set (value := clamp16 (round (IZR sample * gain))).
      destruct (IH buffer (i + 2)%nat (scaled ++ int16LE value))
        as (bytes & Hrun & Hl & Hk & Ht); [lia|].
      exists (int16LE value ++ bytes).
      split; [now rewrite Hrun, <- app_assoc|].
      split; [rewrite length_app, Hl; cbn; lia|].
      split.
      * intros [|k] Hlt.
        -- exists sample. split.
           ++ now replace (i + 2 * 0)%nat with i by lia.
           ++ apply read_int16LE, clamp16_range.
        -- destruct (Hk k) as (s & Hr & Hw); [lia|].
           exists s. split.
           ++ now replace (i + 2 * S k)%nat with (i + 2 + 2 * k)%nat by lia.
           ++ replace (2 * S k)%nat
                with (length (int16LE value) + 2 * k)%nat by (cbn; lia).
              now rewrite readInt16LE_app.
      * intros _ Hodd. rewrite <- Ht by lia.
        replace (length buffer - i - 1)%nat
          with (length (int16LE value) + (length buffer - (i + 2) - 1))%nat
          by (cbn; lia).
        rewrite nth_error_app2 by lia. f_equal. lia.
Qed.

(** applyGain never throws, keeps the length, scales every whole sample
    and copies a trailing odd byte. *)
Lemma applyGain_spec (buffer : Buffer.t) (gain : R) :
  exists out,
    applyGain buffer gain = Ok out
    /\ length out = length buffer
    /\ (forall k, (2 * k + 1 < length buffer)%nat ->
          exists sample,
            readInt16LE buffer (2 * k) = Some sample
            /\ readInt16LE out (2 * k)
               = Some (clamp16 (round (IZR sample * gain))))
    /\ (Nat.odd (length buffer) = true ->
          nth_error out (length buffer - 1)
          = nth_error buffer (length buffer - 1)).
Proof.
  unfold applyGain.
  assert (Hparity : ((0 + 2 * Nat.div2 (S (length buffer)) = length buffer
                      /\ Nat.odd (length buffer) = false)
                     \/ (0 + 2 * Nat.div2 (S (length buffer))
                         = S (length buffer)
                         /\ Nat.odd (length buffer) = true))%nat).
  { destruct (Nat.Even_or_Odd (length buffer)) as [[m Hm]|[m Hm]].
    - left. rewrite Hm, div2_S_double. split; [lia|].
      rewrite <- Nat.negb_even. replace (2 * m)%nat with (0 + 2 * m)%nat by lia.
      now rewrite Nat.even_add_mul_2.
    - right. replace (2 * m + 1)%nat with (S (2 * m)) in Hm by lia.
      rewrite Hm, div2_SS_double. split; [lia|].
      replace (S (2 * m)) with (1 + 2 * m)%nat by lia.
      now rewrite Nat.odd_add_mul_2. }
  destruct (applyGainLoop_total gain (Nat.div2 (S (length buffer)))
              buffer 0 []) as (bytes & Hrun & Hl & Hk & Ht); [tauto|].
  assert (Hlen0 : (0 < length buffer -> 0 < Nat.div2 (S (length buffer)))%nat).
  { destruct Hparity as [[H _]|[H _]]; lia. }
  exists bytes. cbn [app] in Hrun.
  split; [exact Hrun|]. split; [lia|]. split; [exact Hk|].
  intros Hodd. destruct Hparity as [[_ He]|[Hp _]]; [congruence|].
  rewrite <- Ht by lia. f_equal. lia.
Qed.

End AudioProcessorFacts.


(* ================================================================== *)
(** * Facts about captions and snapshots *)
(* ================================================================== *)

Module OrchestratorFacts.

Import Shared Orchestrator.

Lemma firstn_app_firstn {A : Type} (n : nat) (a b : list A) :
  firstn n (a ++ firstn n b) = firstn n (a ++ b).
Proof.
  rewrite !firstn_app, firstn_firstn. f_equal. f_equal. lia.
Qed.

Lemma captions_updateOrbState st speaker state :
  captions (updateOrbState st speaker state) = captions st.
Proof.
  unfold updateOrbState. now destruct (OrbState_eqb _ _).
Qed.

Lemma captions_enterThinkingMode st command now :
  captions (enterThinkingMode st command now) = captions st.
Proof.
  unfold enterThinkingMode. cbn [fold_left].
  repeat match goal with
         | |- context [if ?b then _ else _] => destruct b
         end;
    rewrite ?captions_updateOrbState; reflexivity.
Qed.

Lemma captions_exitThinkingMode st :
  captions (exitThinkingMode st) = captions st.
Proof.
  unfold exitThinkingMode. destruct (sharedScreen st); [reflexivity|].
  cbn [fold_left]. now rewrite !captions_updateOrbState.
Qed.

Lemma captions_handleCommand st command now :
  captions (handleCommand st command now) = captions st.
Proof.
  unfold handleCommand.
  destruct (action command); auto using captions_enterThinkingMode.
Qed.

(** One event: a finalized transcript prepends its caption and trims to
    the history size, nothing else touches the history. *)
Lemma captions_handle st ev :
  captions (handle st ev)
  = firstn MAX_CAPTION_HISTORY
      (rev (finalCaptions [ev]) ++ firstn MAX_CAPTION_HISTORY (captions st))
    \/ (finalCaptions [ev] = [] /\ captions (handle st ev) = captions st).
Proof.
  destruct ev as [txt [|] uuid now routed | on | sp state | ]; cbn [handle].
  - left. unfold handleSttTranscript.
    assert (E : forall s, captions s
              = firstn MAX_CAPTION_HISTORY
                  ([{| id := uuid; speaker := you; text := txt;
                       timestamp := now |}] ++ captions st) ->
            captions s
            = firstn MAX_CAPTION_HISTORY
                (rev (finalCaptions [SttTranscript txt true uuid now routed])
                 ++ firstn MAX_CAPTION_HISTORY (captions st))).
    { intros s ->.
      exact (eq_sym (firstn_app_firstn MAX_CAPTION_HISTORY
                       [{| id := uuid; speaker := you; text := txt;
                           timestamp := now |}] (captions st))). }
    destruct routed as [command|]; apply E.
    + now rewrite captions_handleCommand, captions_updateOrbState.
    + now rewrite captions_updateOrbState.
  - right. split; reflexivity.
  - right. split; reflexivity.
  - right. split; [reflexivity | apply captions_updateOrbState].
  - right. split; [reflexivity | apply captions_exitThinkingMode].
Qed.

Lemma finalCaptions_cons ev evs :
  finalCaptions (ev :: evs) = finalCaptions [ev] ++ finalCaptions evs.
Proof.
  destruct ev as [txt [|] uuid now routed | on | sp state | ]; reflexivity.
Qed.

Lemma captions_fold (evs : list event) :
  forall st,
    captions (fold_left handle evs st)
    = firstn MAX_CAPTION_HISTORY
        (rev (finalCaptions evs) ++ firstn MAX_CAPTION_HISTORY (captions st))
    \/ (finalCaptions evs = []
        /\ captions (fold_left handle evs st) = captions st).
Proof.
  induction evs as [|ev evs IH]; intros st; [right; now split|].
  cbn [fold_left]. rewrite finalCaptions_cons.
  destruct (IH (handle st ev)) as [E|[En E]];
    destruct (captions_handle st ev) as [E1|[En1 E1]]; rewrite E.
  - left. rewrite E1, rev_app_distr, <- app_assoc.
    now rewrite !firstn_app_firstn.
  - left. rewrite E1, En1. cbn [app]. reflexivity.
  - left. rewrite E1, En, app_nil_r.
    rewrite <- (app_nil_l (firstn _ (_ ++ _))) at 1.
    now rewrite firstn_app_firstn.
  - right. rewrite En, En1, E1. now split.
Qed.

(** The stored history is the 20 most recent captions, newest first. *)
Lemma captions_run (evs : list event) :
  captions (run evs) = firstn MAX_CAPTION_HISTORY (rev (finalCaptions evs)).
Proof.
  unfold run. destruct (captions_fold evs initialState) as [E|[En E]].
  - rewrite E. cbn [initialState captions].
    now rewrite firstn_nil, app_nil_r.
  - rewrite E, En. reflexivity.
Qed.

End OrchestratorFacts.


(* ================================================================== *)
(** * Facts about the barge-in manager *)
(* ================================================================== *)

Module BargeInFacts.

Import Shared BargeIn.

Lemma SpeakerId_eqb_eq (a b : SpeakerId) :
  SpeakerId_eqb a b = true <-> a = b.
Proof. destruct a, b; cbn; split; congruence. Qed.

(** The check passes exactly when the interrupter is the human or its
    level is at least the level of every target: equal levels pass. *)
Lemma canInterrupt_spec (m : Manager) (interrupter : SpeakerId)
    (targets : list SpeakerId) :
  canInterrupt m interrupter targets = true <->
  interrupter = you
  \/ forall target, In target targets ->
       (getPriorityLevel m target <= getPriorityLevel m interrupter)%Z.
Proof.
  unfold canInterrupt. rewrite forallb_forall. split.
  - intros H. destruct (SpeakerId_eqb interrupter you) eqn:E.
    + left. now apply SpeakerId_eqb_eq.
    + right. intros target Hin. specialize (H target Hin).
      rewrite orb_false_r in H. now apply Z.leb_le.
  - intros [->|H] target Hin.
    + cbn. apply orb_true_r.
    + apply orb_true_iff. left. apply Z.leb_le. now apply H.
Qed.

Lemma calls_withSpeaker m s f : calls (withSpeaker m s f) = calls m.
Proof. reflexivity. Qed.

(** Ending the interrupter's speech while its barge-in is pending makes
    exactly one callback call, the cancellation notice; no ducking
    request is part of it, and no timer remains armed to make one. *)
Lemma onSpeechEnd_pending (m : Manager) (speaker : SpeakerId)
    (confidence : R) (now : Z) (pending : Pending.t) :
  pendingBargeIn m = Some pending ->
  Pending.interrupter pending = speaker ->
  calls (onSpeechEnd m speaker confidence now)
  = calls m ++ [OnBargeInCancelled]
  /\ graceTimer (onSpeechEnd m speaker confidence now) = None
  /\ pendingBargeIn (onSpeechEnd m speaker confidence now) = None
  /\ exists earlier,
       eventTypes (onSpeechEnd m speaker confidence now)
       = earlier ++ [bargeInCancelled].
Proof.
  intros Hp Hi. unfold onSpeechEnd, withSpeaker. cbn [pendingBargeIn].
  rewrite Hp, Hi.
  rewrite (proj2 (SpeakerId_eqb_eq speaker speaker) eq_refl).
  unfold cancelBargeIn, setTimer. cbn [pendingBargeIn]. rewrite ?Hp.
  unfold eventTypes, logEvent, call, setPending.
  cbn [calls graceTimer pendingBargeIn bargeInHistory config].
  split; [reflexivity|]. split; [reflexivity|]. split; [reflexivity|].
  destruct (maxHistorySize <? _)%nat eqn:E.
  - destruct (bargeInHistory m) as [|e l]; cbn [app tl].
    + discriminate E.
    + exists (map Event.type l). now rewrite map_app.
  - exists (map Event.type (bargeInHistory m)). now rewrite map_app.
Qed.

End BargeInFacts.


(* ================================================================== *)
(** * Facts about the command router *)
(* ================================================================== *)

Module RouterFacts.

Import Shared Regex Router.
Import QArith Lqa.
Local Close Scope Q_scope.









(** A control command does not look at the router's context. *)
Lemma detectControl_context (patterns : list (re * Q)) (act : CommandAction)
    (normalized : text) (ctx1 ctx2 : CommandContext) :
  decision (detectControl patterns act normalized ctx1)
  = decision (detectControl patterns act normalized ctx2).
Proof.
  induction patterns as [|[pattern q] more IH]; cbn [detectControl];
    [reflexivity|].
  destruct (test pattern normalized); [reflexivity | exact IH].
Qed.

Lemma detectControl_none (patterns : list (re * Q)) (act : CommandAction)
    (normalized : text) (ctx1 ctx2 : CommandContext) :
  detectControl patterns act normalized ctx1 = None ->
  detectControl patterns act normalized ctx2 = None.
Proof.
  intros H. pose proof (detectControl_context patterns act normalized
                          ctx1 ctx2) as E.
  rewrite H in E. cbn in E.
  destruct (detectControl patterns act normalized ctx2); [|reflexivity].
  discriminate.
Qed.
















(** ** The router on the inputs of its test suite *)

Import String.
Local Open Scope string_scope.

Example route_guest :
  answer "Guest, your thoughts?"
  = Some ([guest], address, None, "your thoughts?").
Proof. reflexivity. Qed.

Example route_both_ten_seconds :
  answer "Both of you, take 10 seconds to think"
  = Some ([claude; guest], thinking, Some (Exact 10000),
          "of you, take 10 seconds to think").
Proof. reflexivity. Qed.

Example route_two_minutes :
  answer "Take 2 minutes to think"
  = Some ([claude], thinking, Some (Exact 120000), "take 2 minutes to think").
Proof. reflexivity. Qed.

Example route_quick_moment :
  answer "Take a quick moment"
  = Some ([claude], thinking, Some (Exact 10000), "take a quick moment").
Proof. reflexivity. Qed.

Example route_inline :
  answer "So Claude, what do you say?"
  = Some ([claude], address, None, "what do you say?").
Proof. reflexivity. Qed.

Example route_fuzzy :
  answer "claue respond" = Some ([claude], address, None, "respond").
Proof. reflexivity. Qed.

Example route_stop :
  answer "Stop talking" = Some ([claude; guest], bargeInControl, None, "").
Proof. reflexivity. Qed.

Example route_blank : answer "   " = None.
Proof. reflexivity. Qed.

Example levenshtein_kitten :
  levenshteinDistance (s "kitten") (s "sitting") = 3%nat.
Proof. reflexivity. Qed.

End RouterFacts.


(* ================================================================== *)
(** * Facts about the enhanced VAD *)
(* ================================================================== *)

Module VadFacts.

Import Vad.
Local Open Scope R_scope.

Lemma Rleb_true (x y : R) : x <= y -> Rleb x y = true.
Proof. intros H. unfold Rleb. now destruct (Rle_dec x y). Qed.

Lemma Rleb_false (x y : R) : y < x -> Rleb x y = false.
Proof. intros H. unfold Rleb. destruct (Rle_dec x y); [lra | reflexivity]. Qed.

Lemma Rleb_le (x y : R) : Rleb x y = true <-> x <= y.
Proof.
  unfold Rleb. destruct (Rle_dec x y); split; auto; discriminate.
Qed.

Lemma Int_part_IZR (z : Z) : Int_part (IZR z) = z.
Proof.
  destruct (base_Int_part (IZR z)) as [Hlo Hhi].
  assert (H1 : IZR (Int_part (IZR z)) < IZR (z + 1)).
  { rewrite plus_IZR. lra. }
  assert (H2 : IZR (z - 1) < IZR (Int_part (IZR z))).
  { rewrite minus_IZR. lra. }
  apply lt_IZR in H1. apply lt_IZR in H2. lia.
Qed.

Lemma clamp01 (x : R) : 0 <= Rmax 0 (Rmin 1 x) <= 1.
Proof.
  split; [apply Rmax_l|].
  apply Rmax_lub; [lra | apply Rmin_l].
Qed.

Lemma computeEnergyConfidence_unit (h : list R) (nf : R) :
  0 <= computeEnergyConfidence h nf <= 1.
Proof.
  unfold computeEnergyConfidence. destruct h as [|x h]; [lra|].
  destruct (Rleb _ 0); [lra | apply clamp01].
Qed.

Lemma computeConsistencyConfidence_unit (h : list R) :
  0 <= computeConsistencyConfidence h <= 1.
Proof.
  unfold computeConsistencyConfidence.
  destruct (length h <? 5)%nat; [lra | apply clamp01].
Qed.

Lemma smoothedConfidence_unit (d : Detector) (h : list R) (nf : R) :
  0 <= currentConfidence d <= 1 -> 0 <= smoothedConfidence d h nf <= 1.
Proof.
  intros Hc. unfold smoothedConfidence, computeSpectralConfidence.
  pose proof (computeEnergyConfidence_unit h nf) as He.
  pose proof (computeConsistencyConfidence_unit h) as Hk.
  destruct (spectralAnalysis d); lra.
Qed.

Lemma updateNoiseFloor_range (d : Detector) (rms : R) :
  0.0001 <= noiseFloor d <= 0.1 -> 0.0001 <= updateNoiseFloor d rms <= 0.1.
Proof.
  intros H. unfold updateNoiseFloor.
  destruct (negb (speaking d) && Rltb rms (speechThreshold d)); [|exact H].
  split; [apply Rmax_l|].
  apply Rmax_lub; [lra | apply Rmin_l].
Qed.

(** ** The invariants of the detector state *)

Lemma Inv_measured (d : Detector) (rms : R) : Inv d -> Inv (measured d rms).
Proof.
  intros [Hf Hh Hc]. unfold measured.
  pose proof (updateNoiseFloor_range d rms Hf) as Hf'.
  constructor; cbn [update noiseFloor releaseThreshold speechThreshold
                    currentConfidence].
  - destruct (adaptiveThreshold d); assumption.
  - destruct (adaptiveThreshold d); [lra | assumption].
  - destruct (confidenceEnabled d); [|assumption].
    now apply smoothedConfidence_unit.
Qed.

Lemma Inv_decide (d : Detector) (rms : R) : Inv d -> Inv (decide d rms).
Proof.
  intros [Hf Hh Hc]. unfold decide.
  destruct (region _ _ _).
  - destruct (negb (speaking d) && _ && _); constructor; cbn; assumption.
  - destruct (speaking d); [destruct (_ <=? _)%nat|]; constructor; cbn;
      try assumption. lra.
  - constructor; cbn; assumption.
Qed.

Lemma Inv_notify (d : Detector) : Inv d -> Inv (notify d).
Proof.
  intros [Hf Hh Hc]. unfold notify.
  destruct (confidenceEnabled d); constructor; cbn; assumption.
Qed.

Lemma Inv_processEnergy (d : Detector) (rms : R) :
  Inv d -> Inv (processEnergy d rms).
Proof.
  intros H. unfold processEnergy.
  now apply Inv_notify, Inv_decide, Inv_measured.
Qed.

Lemma Inv_feed (energies : list R) :
  forall d, Inv d -> Inv (feed d energies).
Proof.
  induction energies as [|rms rest IH]; intros d H; cbn; auto.
  now apply IH, Inv_processEnergy.
Qed.

Lemma Inv_frameLoop (fuel : nat) :
  forall d buffer offset sampleCount,
    Inv d -> Inv (frameLoop fuel d buffer offset sampleCount).
Proof.
  induction fuel as [|fuel IH]; intros d buffer offset sampleCount H;
    cbn [frameLoop]; auto.
  destruct (offset <? sampleCount)%Z; auto.
  destruct (_ <=? 0)%Z; auto.
  apply IH. now apply Inv_processEnergy.
Qed.

Lemma Inv_processAudio (d : Detector) (buffer : Buffer.t) :
  Inv d -> Inv (processAudio d buffer).
Proof.
  intros H. unfold processAudio.
  destruct (length buffer =? 0)%nat; auto.
  destruct (Nat.odd (length buffer)); auto using Inv_frameLoop.
Qed.

Lemma Inv_reset (d : Detector) : Inv d -> Inv (reset d).
Proof. intros [Hf Hh Hc]. constructor; cbn; try assumption. lra. Qed.

Lemma Inv_run (ops : list op) : forall d, Inv d -> Inv (run d ops).
Proof.
  unfold run. induction ops as [|o ops IH]; intros d H; cbn; auto.
  apply IH. destruct o; cbn; auto using Inv_processAudio, Inv_reset.
Qed.

Lemma Inv_create_default : Inv (create noOptions).
Proof. constructor; cbn; lra. Qed.

(** ** The frame loop *)

Lemma frameSamples_processEnergy d rms :
  frameSamples (processEnergy d rms) = frameSamples d.
Proof.
  unfold processEnergy, notify, decide, measured.
  repeat match goal with
         | |- context [match ?b with _ => _ end] => destruct b
         end; reflexivity.
Qed.

(** The loop is a fold of [processEnergy] over the energies of the
    frames it cuts out. *)
Lemma frameLoop_feed (fuel : nat) :
  forall d buffer offset sampleCount,
    frameLoop fuel d buffer offset sampleCount
    = feed d (frameEnergies fuel (frameSamples d) buffer offset sampleCount).
Proof.
  induction fuel as [|fuel IH]; intros d buffer offset sampleCount;
    cbn [frameLoop frameEnergies]; [reflexivity|].
  destruct (offset <? sampleCount)%Z; [|reflexivity].
  destruct (_ <=? 0)%Z; [reflexivity|].
  cbn [feed]. rewrite IH. unfold processFrame.
  now rewrite frameSamples_processEnergy.
Qed.

Lemma processAudio_feed (d : Detector) (buffer : Buffer.t) :
  processAudio d buffer = feed d (chunkEnergies d buffer).
Proof.
  unfold processAudio, chunkEnergies.
  destruct (length buffer =? 0)%nat; [reflexivity|].
  destruct (Nat.odd (length buffer)); [reflexivity|].
  apply frameLoop_feed.
Qed.

(** The fuel given by [processAudio] is never what stops the loop. *)
Lemma frameLoop_fuel (fuel : nat) :
  forall d buffer offset sampleCount extra,
    (sampleCount - offset <= Z.of_nat fuel)%Z ->
    frameLoop (fuel + extra) d buffer offset sampleCount
    = frameLoop fuel d buffer offset sampleCount.
Proof.
  induction fuel as [|fuel IH]; intros d buffer offset sampleCount extra Hle.
  - cbn [Nat.add frameLoop]. destruct extra as [|extra]; [reflexivity|].
    cbn [frameLoop].
    destruct (Z.ltb_spec offset sampleCount); [lia | reflexivity].
  - cbn [Nat.add frameLoop].
    destruct (offset <? sampleCount)%Z; [|reflexivity].
    destruct (Z.leb_spec (Z.min (frameSamples d) (sampleCount - offset)) 0);
      [reflexivity|].
    apply IH. lia.
Qed.

(** ** Counting frames above the threshold *)

Lemma minSpeechFrames_processEnergy d rms :
  minSpeechFrames (processEnergy d rms) = minSpeechFrames d.
Proof.
  unfold processEnergy, notify, decide, measured.
  repeat match goal with
         | |- context [match ?b with _ => _ end] => destruct b
         end; reflexivity.
Qed.

Lemma minSpeechFrames_feed (energies : list R) :
  forall d, minSpeechFrames (feed d energies) = minSpeechFrames d.
Proof.
  induction energies as [|rms rest IH]; intros d; cbn; auto.
  now rewrite IH, minSpeechFrames_processEnergy.
Qed.

Lemma speechFrameCount_notify d :
  speechFrameCount (notify d) = speechFrameCount d.
Proof. unfold notify. now destruct (confidenceEnabled d). Qed.

Lemma speaking_notify d : speaking (notify d) = speaking d.
Proof. unfold notify. now destruct (confidenceEnabled d). Qed.

(** One frame adds at most one to the counter, and only when it is at or
    above the effective threshold. *)
Lemma speechFrameCount_step d rms :
  (speechFrameCount (processEnergy d rms)
   <= speechFrameCount d + (if isAbove (regionOf d rms) then 1 else 0))%nat.
Proof.
  unfold processEnergy, regionOf. rewrite speechFrameCount_notify.
  unfold decide.
  destruct (region rms _ _); cbn [isAbove].
  - destruct (negb _ && _ && _); cbn; lia.
  - destruct (speaking (measured d rms));
      [destruct (_ <=? _)%nat|]; cbn; lia.
  - cbn. lia.
Qed.

Lemma speechFrameCount_feed (energies : list R) :
  forall d,
    (speechFrameCount (feed d energies)
     <= speechFrameCount d + countAbove d energies)%nat.
Proof.
  induction energies as [|rms rest IH]; intros d; cbn [feed countAbove];
    [lia|].
  pose proof (IH (processEnergy d rms)).
  pose proof (speechFrameCount_step d rms). lia.
Qed.

Lemma countAbove_app (a b : list R) :
  forall d,
    countAbove d (a ++ b) = (countAbove d a + countAbove (feed d a) b)%nat.
Proof.
  induction a as [|rms a IH]; intros d; cbn [app countAbove feed];
    [reflexivity|].
  rewrite IH. lia.
Qed.

(** What a start of speech requires of the frame that causes it. *)
Lemma speech_start_step d rms :
  speaking d = false ->
  speaking (processEnergy d rms) = true ->
  regionOf d rms = AboveSpeech
  /\ (minSpeechFrames d <= S (speechFrameCount d))%nat
  /\ (confidenceEnabled d = true ->
      0.4 <= currentConfidence (measured d rms)).
Proof.
  intros Hs. unfold processEnergy, regionOf. rewrite speaking_notify.
  unfold decide.
  assert (Hm : speaking (measured d rms) = false) by exact Hs.
  assert (Hn : minSpeechFrames (measured d rms) = minSpeechFrames d)
    by reflexivity.
  assert (Hk : speechFrameCount (measured d rms) = speechFrameCount d)
    by reflexivity.
  assert (He : confidenceEnabled (measured d rms) = confidenceEnabled d)
    by reflexivity.
  destruct (region rms _ _).
  - rewrite Hm, Hn, Hk, He. cbn [negb andb].
    destruct (minSpeechFrames d <=? S (speechFrameCount d))%nat eqn:E1;
      cbn [andb]; [|cbn; rewrite ?Hm, ?Hs; discriminate].
    destruct (negb (confidenceEnabled d)
              || Rleb 0.4 (currentConfidence (measured d rms))) eqn:E2;
      [|cbn; rewrite ?Hm, ?Hs; discriminate].
    intros _. split; [reflexivity|]. split; [now apply Nat.leb_le|].
    intros Hc. rewrite Hc in E2. cbn in E2. now apply Rleb_le.
  - rewrite Hm. cbn. rewrite ?Hm, ?Hs. discriminate.
  - cbn. rewrite ?Hm, ?Hs. discriminate.
Qed.


(** ** A detector with fixed thresholds and no confidence scoring *)

Lemma Plain_create : Plain (create plainOptions).
Proof.
  constructor; try reflexivity; cbn.
  - replace (120 / 20) with (IZR 6) by lra. now rewrite Int_part_IZR.
  - replace (48000 / 1000 * 20) with (IZR 960) by lra. apply Int_part_IZR.
Qed.

Lemma computeRms_loud : computeRms loud 0 1 = 1 / 32.
Proof.
  unfold computeRms, loud. cbn [energyLoop Nat.mul Nat.add length Nat.leb].
  change (readInt16LE [x00; x04] 0) with (Some 1024%Z). cbn [INR].
  replace ((0 + IZR 1024 / 32768 * (IZR 1024 / 32768)) / 1)
    with ((1 / 32) * (1 / 32)) by lra.
  apply sqrt_square. lra.
Qed.

Lemma computeRms_middling : computeRms middling 0 1 = 25 / 2048.
Proof.
  unfold computeRms, middling. cbn [energyLoop Nat.mul Nat.add length Nat.leb].
  change (readInt16LE [x90; x01] 0) with (Some 400%Z). cbn [INR].
  replace ((0 + IZR 400 / 32768 * (IZR 400 / 32768)) / 1)
    with ((25 / 2048) * (25 / 2048)) by lra.
  apply sqrt_square. lra.
Qed.

(** A two-byte chunk is one frame of one sample. *)
Lemma processAudio_one_sample (d : Detector) (a b : byte) :
  (1 <= frameSamples d)%Z ->
  processAudio d [a; b] = processEnergy d (computeRms [a; b] 0 1).
Proof.
  intros H. unfold processAudio. cbn [length Nat.eqb Nat.odd Nat.even negb
                                      Nat.div2 Z.of_nat frameLoop].
  change (Z.of_nat 1) with 1%Z. cbn [Z.ltb Z.compare Z.sub Z.opp Z.add].
  change (Z.pos_sub 1 1) with 0%Z. change (1 - 0)%Z with 1%Z.
  rewrite Z.min_r by lia. reflexivity.
Qed.

Ltac destruct_matches :=
  repeat match goal with
         | |- context [match ?b with _ => _ end] =>
             let E := fresh "E" in destruct b eqn:E
         end.

Lemma settings_notify d :
  adaptiveThreshold (notify d) = adaptiveThreshold d
  /\ confidenceEnabled (notify d) = confidenceEnabled d
  /\ speechThreshold (notify d) = speechThreshold d
  /\ releaseThreshold (notify d) = releaseThreshold d.
Proof. unfold notify. destruct (confidenceEnabled d) eqn:E; cbn; auto. Qed.

Lemma settings_decide d rms :
  adaptiveThreshold (decide d rms) = adaptiveThreshold d
  /\ confidenceEnabled (decide d rms) = confidenceEnabled d
  /\ speechThreshold (decide d rms) = speechThreshold d
  /\ releaseThreshold (decide d rms) = releaseThreshold d.
Proof.
  unfold decide.
  destruct (region _ _ _);
    [destruct (negb _ && _ && _)
    |destruct (speaking d); [destruct (_ <=? _)%nat|]
    |]; cbn; auto.
Qed.

Lemma readonly_processEnergy d rms :
  adaptiveThreshold (processEnergy d rms) = adaptiveThreshold d
  /\ confidenceEnabled (processEnergy d rms) = confidenceEnabled d.
Proof.
  unfold processEnergy.
  destruct (settings_notify (decide (measured d rms) rms)) as (-> & -> & _).
  destruct (settings_decide (measured d rms) rms) as (-> & -> & _).
  split; reflexivity.
Qed.

Lemma thresholds_fixed d rms :
  adaptiveThreshold d = false ->
  speechThreshold (processEnergy d rms) = speechThreshold d
  /\ releaseThreshold (processEnergy d rms) = releaseThreshold d.
Proof.
  intros Ha. unfold processEnergy.
  destruct (settings_notify (decide (measured d rms) rms))
    as (_ & _ & -> & ->).
  destruct (settings_decide (measured d rms) rms) as (_ & _ & -> & ->).
  unfold measured. cbn [update speechThreshold releaseThreshold].
  now rewrite Ha.
Qed.

Lemma Plain_processEnergy d rms : Plain d -> Plain (processEnergy d rms).
Proof.
  intros [Ha Hc Hs Hr Hf Hn].
  destruct (readonly_processEnergy d rms) as [Ea Ec].
  destruct (thresholds_fixed d rms Ha) as [Es Er].
  constructor; try congruence.
  - now rewrite minSpeechFrames_processEnergy.
  - now rewrite frameSamples_processEnergy.
Qed.

(** A frame at or above the threshold, while not speaking and without
    confidence gating: the counter goes up and speech starts when it
    reaches the required number. *)
Lemma above_step d rms :
  regionOf d rms = AboveSpeech ->
  speaking d = false ->
  confidenceEnabled d = false ->
  speechFrameCount (processEnergy d rms) = S (speechFrameCount d)
  /\ speaking (processEnergy d rms)
     = (minSpeechFrames d <=? S (speechFrameCount d))%nat.
Proof.
  intros Hreg Hsp Hc. unfold processEnergy.
  rewrite speechFrameCount_notify, speaking_notify.
  unfold decide. unfold regionOf in Hreg. rewrite Hreg.
  change (speaking (measured d rms)) with (speaking d).
  change (minSpeechFrames (measured d rms)) with (minSpeechFrames d).
  change (speechFrameCount (measured d rms)) with (speechFrameCount d).
  change (confidenceEnabled (measured d rms)) with (confidenceEnabled d).
  rewrite Hsp, Hc. cbn [negb andb orb].
  destruct (minSpeechFrames d <=? S (speechFrameCount d))%nat;
    cbn [andb]; split; reflexivity.
Qed.

(** A frame in the intermediate region, while not speaking: the counter
    decays by one. *)
Lemma intermediate_step d rms :
  regionOf d rms = Intermediate ->
  speechFrameCount (processEnergy d rms) = (speechFrameCount d - 1)%nat
  /\ speaking (processEnergy d rms) = speaking d.
Proof.
  intros Hreg. unfold processEnergy.
  rewrite speechFrameCount_notify, speaking_notify.
  unfold decide. unfold regionOf in Hreg. rewrite Hreg.
  split; reflexivity.
Qed.

Lemma plain_region_loud d : Plain d -> regionOf d (1 / 32) = AboveSpeech.
Proof.
  intros [Ha Hc Hs Hr Hf Hn].
  unfold regionOf, region, effectiveThreshold, measured.
  cbn [update confidenceEnabled speechThreshold releaseThreshold].
  rewrite Ha, Hc, Hs. now rewrite Rleb_true by lra.
Qed.

Lemma plain_region_middling d :
  Plain d -> regionOf d (25 / 2048) = Intermediate.
Proof.
  intros [Ha Hc Hs Hr Hf Hn].
  unfold regionOf, region, effectiveThreshold, measured.
  cbn [update confidenceEnabled speechThreshold releaseThreshold].
  rewrite Ha, Hc, Hs, Hr. now rewrite !Rleb_false by lra.
Qed.

Lemma plain_loud (d : Detector) :
  Plain d -> speaking d = false ->
  Plain (processEnergy d (1 / 32))
  /\ speechFrameCount (processEnergy d (1 / 32)) = S (speechFrameCount d)
  /\ speaking (processEnergy d (1 / 32))
     = (6 <=? S (speechFrameCount d))%nat
  /\ regionOf d (1 / 32) = AboveSpeech.
Proof.
  intros P Hsp. pose proof (plain_region_loud d P) as Hreg.
  destruct (above_step d (1 / 32) Hreg Hsp (plain_confidence d P)) as [C S].
  rewrite (plain_frames d P) in S.
  auto using Plain_processEnergy.
Qed.

Lemma plain_middling (d : Detector) :
  Plain d -> speaking d = false ->
  Plain (processEnergy d (25 / 2048))
  /\ speechFrameCount (processEnergy d (25 / 2048))
     = (speechFrameCount d - 1)%nat
  /\ speaking (processEnergy d (25 / 2048)) = false
  /\ regionOf d (25 / 2048) = Intermediate.
Proof.
  intros P Hsp. pose proof (plain_region_middling d P) as Hreg.
  destruct (intermediate_step d (25 / 2048) Hreg) as [C S].
  rewrite Hsp in S.
  auto using Plain_processEnergy.
Qed.

Lemma plain_five_loud :
  let d := feed (create plainOptions) (firstn 5 interleaved) in
  Plain d /\ speechFrameCount d = 5%nat /\ speaking d = false.
Proof.
  cbn [firstn interleaved feed].
  pose proof Plain_create as P0.
  destruct (plain_loud _ P0 eq_refl) as (P1 & C1 & S1 & _).
  cbn in C1, S1.
  destruct (plain_loud _ P1 S1) as (P2 & C2 & S2 & _).
  rewrite C1 in C2, S2. cbn in S2.
  destruct (plain_loud _ P2 S2) as (P3 & C3 & S3 & _).
  rewrite C2 in C3, S3. cbn in S3.
  destruct (plain_loud _ P3 S3) as (P4 & C4 & S4 & _).
  rewrite C3 in C4, S4. cbn in S4.
  destruct (plain_loud _ P4 S4) as (P5 & C5 & S5 & _).
  rewrite C4 in C5, S5. cbn in S5.
  auto.
Qed.

Lemma plain_interleaved :
  let d := feed (create plainOptions) interleaved in
  Plain d /\ speechFrameCount d = 5%nat /\ speaking d = false.
Proof.
  destruct plain_five_loud as (P5 & C5 & S5).
  cbn [firstn interleaved feed] in P5, C5, S5.
  cbn [interleaved feed].
  destruct (plain_middling _ P5 S5) as (P6 & C6 & S6 & _).
  rewrite C5 in C6. change (5 - 1)%nat with 4%nat in C6.
  destruct (plain_loud _ P6 S6) as (P7 & C7 & S7 & _).
  rewrite C6 in C7, S7. change (6 <=? 5)%nat with false in S7.
  auto.
Qed.

Lemma plain_eighth_frame_starts_speech :
  speaking (processEnergy (feed (create plainOptions) interleaved) (1 / 32))
  = true.
Proof.
  destruct plain_interleaved as (P7 & C7 & S7).
  destruct (plain_loud _ P7 S7) as (_ & _ & S8 & _).
  rewrite S8, C7. reflexivity.
Qed.

Lemma feed_app (a b : list R) :
  forall d, feed d (a ++ b) = feed (feed d a) b.
Proof. induction a as [|x a IH]; intros d; cbn; auto. Qed.

(** A sequence of one-sample chunks is the sequence of their frames. *)
Lemma run_one_sample_chunks (chunks : list (byte * byte)) :
  forall d,
    (1 <= frameSamples d)%Z ->
    run d (map (fun c => ProcessAudio [fst c; snd c]) chunks)
    = feed d (map (fun c => computeRms [fst c; snd c] 0 1) chunks).
Proof.
  unfold run.
  induction chunks as [|[a b] chunks IH]; intros d Hd; [reflexivity|].
  cbn [map fold_left feed perform fst snd].
  rewrite processAudio_one_sample by exact Hd.
  apply IH. now rewrite frameSamples_processEnergy.
Qed.

(** ** One frame on a detector that is not speaking *)

(** The counter follows the frame's region, and speech starts exactly on
    a frame at or above the effective threshold that brings the counter
    to the required number, the confidence gate permitting. *)
Lemma idle_step d rms :
  speaking d = false ->
  speechFrameCount (processEnergy d rms)
  = counted (speechFrameCount d) (regionOf d rms)
  /\ (speaking (processEnergy d rms) = true <->
      regionOf d rms = AboveSpeech
      /\ (minSpeechFrames d <= S (speechFrameCount d))%nat
      /\ (confidenceEnabled d = true ->
          0.4 <= currentConfidence (measured d rms))).
Proof.
  intros Hs. split.
  - unfold processEnergy, regionOf. rewrite speechFrameCount_notify.
    unfold decide.
    change (speaking (measured d rms)) with (speaking d).
    change (speechFrameCount (measured d rms)) with (speechFrameCount d).
    rewrite Hs.
    destruct (region rms _ _); cbn [counted].
    + destruct (negb false && _ && _); reflexivity.
    + reflexivity.
    + cbn [withMachine update speechFrameCount]. apply Nat.max_r. lia.
  - split; [now apply speech_start_step|].
    intros (Hreg & Hmin & Hconf).
    unfold processEnergy. rewrite speaking_notify.
    unfold decide. unfold regionOf in Hreg. rewrite Hreg.
    change (speaking (measured d rms)) with (speaking d).
    change (minSpeechFrames (measured d rms)) with (minSpeechFrames d).
    change (speechFrameCount (measured d rms)) with (speechFrameCount d).
    change (confidenceEnabled (measured d rms)) with (confidenceEnabled d).
    rewrite Hs. cbn [negb andb].
    apply Nat.leb_le in Hmin. rewrite Hmin. cbn [andb].
    destruct (confidenceEnabled d) eqn:Ec; cbn [negb orb].
    + rewrite (Rleb_true _ _ (Hconf eq_refl)). reflexivity.
    + reflexivity.
Qed.

End VadFacts.


(* ================================================================== *)
(** * Audio claims *)
(* ================================================================== *)

Module AudioClaims.

Import AudioProcessor AudioProcessorFacts BufferFacts Orchestrator.
Local Open Scope R_scope.

Lemma ducked_not_bypassed :
  bypass (startDucking defaultConfig (initialRampState defaultConfig) true)
  = false.
Proof.
  destruct (bypass _) eqn:E; [|reflexivity].
  apply bypass_true in E. destruct E as [_ E]. cbn in E.
  pose proof (dbToGain_lt_1 (-12) ltac:(lra)). lra.
Qed.

(** C1 (code defect): a three-byte buffer handed to a processor that is
    ducking (immediate start, default medium profile) makes
    [processBuffer] throw the runtime's range error on the second loop
    iteration instead of returning a three-byte output; the claim promises
    an output of the input's length for every input buffer.  Buffers of
    whole samples satisfy the claim, see [processBuffer_whole_samples]. *)
Theorem C1_processBuffer_throws_on_three_bytes :
  let rs := startDucking defaultConfig (initialRampState defaultConfig) true in
  processBuffer rs [x00; x10; x7f] = (rs, RangeError).
Proof.
  intros rs. unfold processBuffer.
  unfold rs at 1. rewrite ducked_not_bypassed.
  reflexivity.
Qed.

(** C5 (code defect): on the one-byte buffer [2a], the orchestrator's
    [applyGain] returns the byte unchanged, while [processBuffer] of a
    processor whose ramp has just started throws the runtime's range
    error; the claim promises the copy-through for both paths. *)
Theorem C5_trailing_byte_only_survives_applyGain :
  snd (processBuffer
         (startDucking defaultConfig (initialRampState defaultConfig) false)
         [x2a]) = RangeError
  /\ applyGain [x2a] duckingGain = Ok [x2a].
Proof.
  split; reflexivity.
Qed.

(** C6 counterexample: with a custom profile of +20 dB, an immediate
    [startDucking] leaves [currentGain] at 10, outside [0, 1]. *)
Lemma C6_counterexample_custom_boost :
  ~ (0 <= currentGain (AudioProcessor.run boostConfig [StartDucking true]) <= 1).
Proof.
  cbn. unfold getDuckingReduction. cbn. rewrite dbToGain_20. lra.
Qed.

(** C6 (amended): for a processor whose ducking reduction is at most
    0 dB and whose sample rate and ramp durations are not negative, after
    every sequence of startDucking, stopDucking and processBuffer calls,
    and after any number [k] of further samples, the current gain lies in
    [0, 1]; while a ramp is active the elapsed samples do not exceed the
    ramp's total; whenever no ramp is active the current gain equals the
    target gain, in particular at the sample on which a ramp completes. *)
Theorem C6_ramp_invariants (cfg : AudioProcessorConfig)
    (calls : list call) (k : nat) :
  Attenuating cfg ->
  let rs := stateAfter (AudioProcessor.run cfg calls) k in
  0 <= currentGain rs <= 1
  /\ (active rs = true ->
      (0 <= Z.of_nat (elapsedSamples rs) <= rampSamples rs)%Z)
  /\ (active rs = false -> currentGain rs = targetGain rs)
  /\ (active rs = true ->
      active (snd (sampleGain rs)) = false ->
      currentGain (snd (sampleGain rs)) = targetGain (snd (sampleGain rs))).
Proof.
  intros Hcfg rs.
  assert (HI : Inv rs).
  { apply Inv_stateAfter. unfold AudioProcessor.run.
    apply Inv_fold; [exact Hcfg | apply Inv_initial]. }
  destruct HI as [Hc _ _ He Hd].
  split; [exact Hc|]. split.
  - intros Ha. split; [lia | auto].
  - split; [exact Hd | apply sampleGain_completes].
Qed.

Lemma C6_ramp_invariants_witness :
  let rs :=
    stateAfter
      (AudioProcessor.run defaultConfig
         [StartDucking false; ProcessBuffer [x00; x10]; StopDucking false])
      1 in
  0 <= currentGain rs <= 1
  /\ (active rs = true ->
      (0 <= Z.of_nat (elapsedSamples rs) <= rampSamples rs)%Z)
  /\ (active rs = false -> currentGain rs = targetGain rs)
  /\ (active rs = true ->
      active (snd (sampleGain rs)) = false ->
      currentGain (snd (sampleGain rs)) = targetGain (snd (sampleGain rs))).
Proof.
  apply (C6_ramp_invariants defaultConfig
           [StartDucking false; ProcessBuffer [x00; x10]; StopDucking false]
           1).
  constructor; cbn; lra.
Defined.

End AudioClaims.


(* ================================================================== *)
(** * Caption claims *)
(* ================================================================== *)

Module OrchestratorClaims.

Import Shared Orchestrator OrchestratorFacts.

(** C9: after every sequence of events handled by the orchestrator, the
    stored caption history is the 20 most recent finalized-transcript
    captions, newest first (so never more than 20), and the snapshot
    exposes exactly the first min(6, stored) of them together with the
    current orb states, autopilot flag and shared-screen value. *)
Theorem C9_caption_history_and_snapshot (evs : list event) :
  let st := run evs in
  captions st = firstn 20 (rev (finalCaptions evs))
  /\ (length (captions st) <= 20)%nat
  /\ OrchestratorStateSnapshot.captions (snapshot st) = firstn 6 (captions st)
  /\ length (OrchestratorStateSnapshot.captions (snapshot st)) = Nat.min 6 (length (captions st))
  /\ OrchestratorStateSnapshot.orbStates (snapshot st) = orbStates st
  /\ OrchestratorStateSnapshot.autopilot (snapshot st) = autopilot st
  /\ OrchestratorStateSnapshot.sharedScreen (snapshot st) = sharedScreen st.
Proof.
  intros st. subst st.
  split; [apply captions_run|].
  split; [rewrite captions_run; apply firstn_le_length|].
  split; [reflexivity|].
  split; [apply length_firstn|].
  repeat split.
Qed.

End OrchestratorClaims.


(* ================================================================== *)
(** * Barge-in claims *)
(* ================================================================== *)

Module BargeInClaims.

Import Shared BargeIn BargeInFacts.
Local Open Scope R_scope.

(** C2 (code defect): with the default manager both agents have priority
    medium (level 50).  The host is speaking, the guest starts speaking,
    and the grace timer fires: the guest's barge-in against the host is
    scheduled and completed, although the claim (and the priority table of
    the guide) lets an agent interrupt only targets of strictly lower
    priority.  The check of the code is [canInterrupt_spec]. *)
Theorem C2_equal_priority_agent_interrupts :
  let m := run (create defaults)
             [SpeechStart claude 0.9 0; SpeechStart guest 0.9 10;
              TimerFires 310] in
  getPriorityLevel (create defaults) guest
  = getPriorityLevel (create defaults) claude
  /\ calls m = [OnDuckingRequest [claude] true;
                OnBargeInStart guest [claude];
                OnBargeInComplete guest [claude]]
  /\ Speaker.speaking (speakerStates m claude) = false
  /\ eventTypes m = [bargeInStart; bargeInComplete].
Proof.
  repeat split.
Qed.

(** C3 (code defect): default manager (graceful, ducking enabled).  The
    host is speaking, the human starts (ducking-on for the host is
    requested and a barge-in is pending) and stops 150 ms later.  The
    pending barge-in is cancelled, the timer is cleared, the cancellation
    callback fires and a cancelled event is recorded, but the callback
    log ends there: no ducking-off request for the host is made, and with
    no timer armed none can follow. *)
Theorem C3_cancel_on_speech_end_requests_no_ducking_off :
  let m := run (create defaults)
             [SpeechStart claude 0.9 0; SpeechStart you 0.85 0;
              SpeechEnd you 0.85 150] in
  calls m = [OnDuckingRequest [claude] true; OnBargeInCancelled]
  /\ graceTimer m = None
  /\ pendingBargeIn m = None
  /\ eventTypes m = [bargeInCancelled]
  /\ calls (timerFires m 300) = calls m.
Proof.
  repeat split.
Qed.

End BargeInClaims.


(* ================================================================== *)
(** * Router claims *)
(* ================================================================== *)

Module RouterClaims.

Import Shared Regex Router RouterFacts.
Import QArith.
Local Close Scope Q_scope.
Import String.
Local Open Scope string_scope.



End RouterClaims.


(* ================================================================== *)
(** * VAD claims *)
(* ================================================================== *)

Module VadClaims.

Import Vad VadFacts.
Local Open Scope R_scope.

(** C7: for a detector constructed with default options, after every
    sequence of processAudio (and reset) calls, and after every frame
    processed within them, the speech threshold is strictly above the
    release threshold, the noise floor lies in [0.0001, 0.1] and the
    current confidence lies in [0, 1]. *)
Theorem C7_vad_invariants (ops : list op) (energies : list R) :
  let d := feed (run (create noOptions) ops) energies in
  releaseThreshold d < speechThreshold d
  /\ 0.0001 <= noiseFloor d <= 0.1
  /\ 0 <= currentConfidence d <= 1.
Proof.
  intros d.
  assert (H : Inv d).
  { apply Inv_feed, Inv_run, Inv_create_default. }
  destruct H as [Hf Hh Hc]. auto.
Qed.

(** C8 counterexample: a detector with fixed thresholds and no confidence
    gate requires 6 frames.  Five one-sample chunks at energy 1/32 (above
    the speech threshold 0.015), one at 25/2048 (between the release
    threshold 0.008 and the speech threshold), then two more at 1/32: the
    detector is not speaking after the seventh chunk and is speaking after
    the eighth, although the sixth frame was in the intermediate region,
    so only two consecutive frames at or above the threshold precede the
    transition. *)
Lemma C8_counterexample_interleaved_intermediate_frame :
  let d0 := create plainOptions in
  let chunks := [loud; loud; loud; loud; loud; middling; loud] in
  let before := run d0 (map ProcessAudio chunks) in
  minSpeechFrames d0 = 6%nat
  /\ speaking before = false
  /\ speaking (processAudio before loud) = true
  /\ regionOf (run d0 (map ProcessAudio (firstn 5 chunks)))
       (computeRms middling 0 1) = Intermediate.
Proof.
  intros d0 chunks before. subst d0.
  set (d0 := create plainOptions) in *.
  pose proof Plain_create as P0. fold d0 in P0.
  assert (Hs0 : (1 <= frameSamples d0)%Z).
  { rewrite (plain_samples _ P0). lia. }
  assert (Hbefore : before = feed d0 interleaved).
  { subst before chunks.
    change (map ProcessAudio [loud; loud; loud; loud; loud; middling; loud])
      with (map (fun c : byte * byte => ProcessAudio [fst c; snd c])
              [(x00, x04); (x00, x04); (x00, x04); (x00, x04); (x00, x04);
               (x90, x01); (x00, x04)]).
    rewrite run_one_sample_chunks by exact Hs0.
    cbn [map fst snd]. fold loud middling.
    now rewrite computeRms_loud, computeRms_middling. }
  assert (Hfive : run d0 (map ProcessAudio (firstn 5 chunks))
                  = feed d0 (firstn 5 interleaved)).
  { subst chunks. cbn [firstn].
    change (map ProcessAudio [loud; loud; loud; loud; loud])
      with (map (fun c : byte * byte => ProcessAudio [fst c; snd c])
              [(x00, x04); (x00, x04); (x00, x04); (x00, x04); (x00, x04)]).
    rewrite run_one_sample_chunks by exact Hs0.
    cbn [map fst snd]. fold loud.
    now rewrite computeRms_loud. }
  destruct plain_interleaved as (P7 & C7 & S7).
  destruct plain_five_loud as (P5 & C5 & S5).
  fold d0 in P7, C7, S7, P5, C5, S5.
  split; [apply (plain_frames _ P0)|].
  split; [rewrite Hbefore; exact S7|].
  split.
  - rewrite Hbefore. unfold loud.
    rewrite processAudio_one_sample
      by (rewrite (plain_samples _ P7); lia).
    fold loud. rewrite computeRms_loud.
    exact plain_eighth_frame_starts_speech.
  - rewrite Hfive, computeRms_middling.
    now apply plain_region_middling.
Qed.

(** C8 (amended): while the detector is not speaking, its speech-frame
    counter goes up by one on a frame at or above the effective speech
    threshold, back to zero on a frame at or below the release
    threshold, and down by one (not below zero) on a frame in the
    intermediate region; speech starts exactly on a frame at or above
    the effective threshold that brings the counter to
    [minSpeechFrames] or more, provided, with confidence enabled, that
    the confidence is 0.4 or more.  So, from a state whose counter is
    zero, a start needs at least [minSpeechFrames] frames at or above
    their effective thresholds (the triggering frame included), but they
    need not be consecutive: an intermediate frame takes one off the
    counter instead of resetting it. *)
Theorem C8_speech_start_needs_enough_frames (d0 : Detector)
    (energies : list R) (rms : R) :
  speechFrameCount d0 = 0%nat ->
  speaking (feed d0 energies) = false ->
  let d := feed d0 energies in
  speechFrameCount (processEnergy d rms)
  = counted (speechFrameCount d) (regionOf d rms)
  /\ (speaking (processEnergy d rms) = true <->
      regionOf d rms = AboveSpeech
      /\ (minSpeechFrames d0 <= S (speechFrameCount d))%nat
      /\ (confidenceEnabled d = true ->
          0.4 <= currentConfidence (measured d rms)))
  /\ (speaking (processEnergy d rms) = true ->
      (minSpeechFrames d0 <= countAbove d0 (energies ++ [rms]))%nat).
Proof.
  intros H0 Hbefore d.
  destruct (idle_step d rms Hbefore) as [Hcount Hstart].
  unfold d in Hstart at 3. rewrite minSpeechFrames_feed in Hstart.
  fold d in Hstart.
  split; [exact Hcount|]. split; [exact Hstart|].
  intros Hafter. destruct (proj1 Hstart Hafter) as (Hreg & Hmin & _).
  pose proof (speechFrameCount_feed energies d0) as Hfeed. fold d in Hfeed.
  rewrite countAbove_app. cbn [countAbove]. fold d. rewrite Hreg.
  cbn [isAbove]. lia.
Qed.

Lemma C8_speech_start_needs_enough_frames_witness :
  let d := feed (create plainOptions) interleaved in
  speechFrameCount (processEnergy d (1 / 32))
  = counted (speechFrameCount d) (regionOf d (1 / 32))
  /\ (speaking (processEnergy d (1 / 32)) = true <->
      regionOf d (1 / 32) = AboveSpeech
      /\ (minSpeechFrames (create plainOptions)
          <= S (speechFrameCount d))%nat
      /\ (confidenceEnabled d = true ->
          0.4 <= currentConfidence (measured d (1 / 32))))
  /\ (speaking (processEnergy d (1 / 32)) = true ->
      (minSpeechFrames (create plainOptions)
       <= countAbove (create plainOptions)
            (interleaved ++ [(1 / 32)%R]))%nat).
Proof.
  apply (C8_speech_start_needs_enough_frames
           (create plainOptions) interleaved (1 / 32)).
  - reflexivity.
  - exact (proj2 (proj2 plain_interleaved)).
Defined.

(** C10: a non-empty chunk of odd byte length is dropped whole: the
    detector after [processAudio] is the detector before it, in every
    field (speaking flag, both frame counters, both histories, noise
    floor, thresholds, peak energy, current confidence) and in the list
    of callback calls made. *)
Theorem C10_odd_chunk_is_dropped (d : Detector) (buffer : Buffer.t) :
  buffer <> [] ->
  Nat.odd (length buffer) = true ->
  processAudio d buffer = d.
Proof.
  intros _ Hodd. unfold processAudio. rewrite Hodd.
  now destruct (length buffer =? 0)%nat.
Qed.

Lemma C10_odd_chunk_is_dropped_witness :
  processAudio (create noOptions) [x00; x04; x7f] = create noOptions.
Proof.
  apply (C10_odd_chunk_is_dropped (create noOptions) [x00; x04; x7f]).
  - discriminate.
  - reflexivity.
Defined.

End VadClaims.


(* ================================================================== *)
(** * Further properties of the audio path *)
(* ================================================================== *)

Module AudioExtras.

Import AudioProcessor AudioProcessorFacts BufferFacts Orchestrator.
Local Open Scope R_scope.

(** ** Attenuation *)

Lemma round_between_nonneg (s : Z) (x : R) :
  (0 <= s)%Z -> 0 <= x <= IZR s -> (0 <= round x <= s)%Z.
Proof.
  intros Hs Hx. unfold round.
  destruct (base_Int_part (x + / 2)) as [Hlo Hhi].
  split.
  - assert (H : IZR (-1) < IZR (Int_part (x + / 2))) by lra.
    apply lt_IZR in H. lia.
  - assert (H : IZR (Int_part (x + / 2)) < IZR (s + 1)).
    { rewrite plus_IZR. lra. }
    apply lt_IZR in H. lia.
Qed.

Lemma round_between_nonpos (s : Z) (x : R) :
  (s <= 0)%Z -> IZR s <= x <= 0 -> (s <= round x <= 0)%Z.
Proof.
  intros Hs Hx. unfold round.
  destruct (base_Int_part (x + / 2)) as [Hlo Hhi].
  split.
  - assert (H : IZR (s - 1) < IZR (Int_part (x + / 2))).
    { rewrite minus_IZR. lra. }
    apply lt_IZR in H. lia.
  - assert (H : IZR (Int_part (x + / 2)) < IZR 1) by lra.
    apply lt_IZR in H. lia.
Qed.

(** A gain between 0 and 1 never raises a sample's magnitude and never
    flips its sign. *)
Lemma scale_attenuates (sample : Z) (g : R) :
  0 <= g <= 1 ->
  (Z.abs (scale sample (Some g)) <= Z.abs sample)%Z
  /\ (0 <= sample -> 0 <= scale sample (Some g))%Z
  /\ (sample <= 0 -> scale sample (Some g) <= 0)%Z.
Proof.
  intros Hg. cbn [scale]. unfold clamp16.
  destruct (Z_le_gt_dec 0 sample) as [Hs|Hs].
  - assert (Hx : 0 <= IZR sample * g <= IZR sample).
    { assert (0 <= IZR sample) by (apply IZR_le; lia). split; nra. }
    pose proof (round_between_nonneg sample _ Hs Hx). lia.
  - assert (Hx : IZR sample <= IZR sample * g <= 0).
    { assert (IZR sample <= 0) by (apply IZR_le; lia). split; nra. }
    pose proof (round_between_nonpos sample _ ltac:(lia) Hx). lia.
Qed.

(** Under the ramp invariants the gain of every sample position is a
    number between 0 and 1, or the NaN of an empty ramp. *)
Lemma sampleGain_unit (rs : GainRampState) :
  Inv rs ->
  match fst (sampleGain rs) with
  | Some g => 0 <= g <= 1
  | None => True
  end.
Proof.
  intros [Hc Hs Ht He Hd]. unfold sampleGain.
  destruct (active rs) eqn:Ea; [|exact Hc].
  assert (Hg : match computeRampGain rs with
               | Some g => 0 <= g <= 1
               | None => True
               end).
  { unfold computeRampGain.
    destruct (Z.eqb_spec (rampSamples rs) 0) as [E|E]; [exact I|].
    specialize (He eq_refl).
    apply interpolate_unit; auto. apply curvedProgress_unit.
    assert (Hr : 0 < IZR (rampSamples rs)) by (apply IZR_lt; lia).
    assert (He' : INR (elapsedSamples rs) <= IZR (rampSamples rs)).
    { rewrite INR_IZR_INZ. now apply IZR_le. }
    pose proof (pos_INR (elapsedSamples rs)) as Hn.
    split.
    - apply Rmult_le_pos; [lra|]. left. now apply Rinv_0_lt_compat.
    - apply Rmult_le_reg_r with (r := IZR (rampSamples rs)); [lra|].
      unfold Rdiv. rewrite Rmult_assoc, Rinv_l by lra. lra. }
  destruct (rampSamples rs <=? Z.of_nat (S (elapsedSamples rs)))%Z;
    exact Hg.
Qed.

Lemma gainAt_unit (rs : GainRampState) (k : nat) :
  Inv rs ->
  match gainAt rs k with
  | Some g => 0 <= g <= 1
  | None => True
  end.
Proof.
  intros HI. unfold gainAt. apply sampleGain_unit.
  now apply Inv_stateAfter.
Qed.

Lemma scale_gainAt_attenuates (rs : GainRampState) (k : nat) (sample : Z) :
  Inv rs -> (Z.abs (scale sample (gainAt rs k)) <= Z.abs sample)%Z.
Proof.
  intros HI. pose proof (gainAt_unit rs k HI) as Hg.
  destruct (gainAt rs k) as [g|].
  - now apply scale_attenuates.
  - cbn. lia.
Qed.

Lemma Inv_processor_run (cfg : AudioProcessorConfig) (calls : list call) :
  Attenuating cfg -> Inv (AudioProcessor.run cfg calls).
Proof.
  intros H. unfold AudioProcessor.run.
  apply Inv_fold; [exact H | apply Inv_initial].
Qed.

(** X1: on a buffer of whole samples [processBuffer] always returns:
    the output has the input's length; a pass-through call (no ramp,
    unity gain) returns the input itself and leaves the ramp state
    alone; any other call leaves the ramp where one step per sample
    takes it. *)
Theorem X1_processBuffer_whole_samples (rs : GainRampState)
    (buffer : Buffer.t) (m : nat) :
  length buffer = (2 * m)%nat ->
  exists out,
    processBuffer rs buffer
    = (if bypass rs then rs else stateAfter rs m, Ok out)
    /\ length out = length buffer
    /\ (bypass rs = true -> out = buffer).
Proof.
  intros Hlen.
  destruct (processBuffer_whole_samples rs buffer m Hlen)
    as (out & Ho & Hl & Hb & Hn).
  exists out. split; [|split; [exact Hl | exact Hb]].
  apply injective_projections; cbn [fst snd]; [|exact Ho].
  destruct (bypass rs) eqn:Eb.
  - unfold processBuffer. now rewrite Eb.
  - now destruct (Hn eq_refl).
Qed.

Lemma X1_processBuffer_whole_samples_witness :
  exists out,
    processBuffer
      (startDucking defaultConfig (initialRampState defaultConfig) false)
      [x00; x10; x00; xf0]
    = (if bypass (startDucking defaultConfig
                    (initialRampState defaultConfig) false)
       then startDucking defaultConfig (initialRampState defaultConfig) false
       else stateAfter
              (startDucking defaultConfig (initialRampState defaultConfig)
                 false) 2,
       Ok out)
    /\ length out = length [x00; x10; x00; xf0]
    /\ (bypass (startDucking defaultConfig (initialRampState defaultConfig)
                  false) = true ->
        out = [x00; x10; x00; xf0]).
Proof.
  apply (X1_processBuffer_whole_samples
           (startDucking defaultConfig (initialRampState defaultConfig) false)
           [x00; x10; x00; xf0] 2).
  reflexivity.
Defined.




(** X3: [applyGain] returns for every buffer and every gain: the output
    has the input's length and a trailing odd byte is the input's; with
    a gain between 0 and 1 no whole sample comes out larger in magnitude
    than it went in, and none changes sign. *)
Theorem X3_applyGain_total (buffer : Buffer.t) (gain : R) :
  exists out,
    applyGain buffer gain = Ok out
    /\ length out = length buffer
    /\ (Nat.odd (length buffer) = true ->
          nth_error out (length buffer - 1)
          = nth_error buffer (length buffer - 1))
    /\ (0 <= gain <= 1 ->
        forall k, (2 * k + 1 < length buffer)%nat ->
          exists sample scaled,
            readInt16LE buffer (2 * k) = Some sample
            /\ readInt16LE out (2 * k) = Some scaled
            /\ (Z.abs scaled <= Z.abs sample)%Z
            /\ (0 <= sample -> 0 <= scaled)%Z
            /\ (sample <= 0 -> scaled <= 0)%Z).
Proof.
  destruct (applyGain_spec buffer gain) as (out & Ho & Hl & Hk & Ht).
  exists out. split; [exact Ho|]. split; [exact Hl|]. split; [exact Ht|].
  intros Hg k Hlt. destruct (Hk k Hlt) as (sample & Hr & Hw).
  exists sample, (clamp16 (round (IZR sample * gain))).
  split; [exact Hr|]. split; [exact Hw|].
  exact (scale_attenuates sample gain Hg).
Qed.

(** X4: a processor configured to attenuate never amplifies: whatever
    calls came before, every sample [processBuffer] returns for a buffer
    of whole samples is no larger in magnitude than the input sample and
    has no opposite sign. *)
Theorem X4_processBuffer_never_amplifies (cfg : AudioProcessorConfig)
    (calls : list call) (buffer : Buffer.t) (m : nat) :
  Attenuating cfg ->
  length buffer = (2 * m)%nat ->
  exists out,
    snd (processBuffer (AudioProcessor.run cfg calls) buffer) = Ok out
    /\ forall k, (k < m)%nat ->
         exists sample scaled,
           readInt16LE buffer (2 * k) = Some sample
           /\ readInt16LE out (2 * k) = Some scaled
           /\ (Z.abs scaled <= Z.abs sample)%Z
           /\ (0 <= sample -> 0 <= scaled)%Z
           /\ (sample <= 0 -> scaled <= 0)%Z.
Proof.
  intros Hcfg Hlen.
  pose proof (Inv_processor_run cfg calls Hcfg) as HI.
  set (rs := AudioProcessor.run cfg calls) in *.
  destruct (processBuffer_whole_samples rs buffer m Hlen)
    as (out & Ho & _ & Hb & Hn).
  exists out. split; [exact Ho|]. intros k Hk.
  destruct (bypass rs) eqn:Eb.
  - rewrite (Hb eq_refl).
    destruct (readInt16LE_in_range buffer (2 * k)) as [sample Hs]; [lia|].
    exists sample, sample. repeat split; auto. lia.
  - destruct (Hn eq_refl) as [_ Hk'].
    destruct (Hk' k Hk) as (sample & Hr & Hw).
    exists sample, (scale sample (gainAt rs k)).
    split; [exact Hr|]. split; [exact Hw|].
    pose proof (gainAt_unit rs k HI) as Hg.
    destruct (gainAt rs k) as [g|].
    + now apply scale_attenuates.
    + cbn [scale]. lia.
Qed.

Lemma X4_processBuffer_never_amplifies_witness :
  exists out,
    snd (processBuffer
           (AudioProcessor.run defaultConfig [StartDucking false])
           [x00; x10; x00; xf0]) = Ok out
    /\ forall k, (k < 2)%nat ->
         exists sample scaled,
           readInt16LE [x00; x10; x00; xf0] (2 * k) = Some sample
           /\ readInt16LE out (2 * k) = Some scaled
           /\ (Z.abs scaled <= Z.abs sample)%Z
           /\ (0 <= sample -> 0 <= scaled)%Z
           /\ (sample <= 0 -> scaled <= 0)%Z.
Proof.
  apply (X4_processBuffer_never_amplifies defaultConfig
           [StartDucking false] [x00; x10; x00; xf0] 2).
  - constructor; cbn; lra.
  - reflexivity.
Defined.

(** ** Ramp length *)

Lemma stateAfter_inactive (k : nat) (rs : GainRampState) :
  active rs = false -> stateAfter rs k = rs.
Proof.
  intros Ha. induction k as [|k IH]; [reflexivity|].
  cbn [stateAfter]. unfold sampleGain. rewrite Ha. exact IH.
Qed.

Lemma targetGain_stateAfter (k : nat) :
  forall rs, targetGain (stateAfter rs k) = targetGain rs.
Proof.
  induction k as [|k IH]; intros rs; [reflexivity|].
  cbn [stateAfter]. rewrite IH. unfold sampleGain.
  destruct (active rs); [|reflexivity].
  destruct (rampSamples rs <=? Z.of_nat (S (elapsedSamples rs)))%Z;
    reflexivity.
Qed.

Lemma stateAfter_ramping (k : nat) :
  forall rs,
    active rs = true ->
    (Z.of_nat (elapsedSamples rs + S k) < rampSamples rs)%Z ->
    active (stateAfter rs (S k)) = true
    /\ elapsedSamples (stateAfter rs (S k)) = (elapsedSamples rs + S k)%nat.
Proof.
  induction k as [|k IH]; intros rs Ha Hlt.
  - cbn [stateAfter]. unfold sampleGain. rewrite Ha.
    destruct (Z.leb_spec (rampSamples rs) (Z.of_nat (S (elapsedSamples rs))));
      [lia|].
    cbn. split; [reflexivity | lia].
  - change (stateAfter rs (S (S k)))
      with (stateAfter (snd (sampleGain rs)) (S k)).
    assert (Hs : active (snd (sampleGain rs)) = true
                 /\ elapsedSamples (snd (sampleGain rs))
                    = S (elapsedSamples rs)
                 /\ rampSamples (snd (sampleGain rs)) = rampSamples rs).
    { unfold sampleGain. rewrite Ha.
      destruct (Z.leb_spec (rampSamples rs)
                  (Z.of_nat (S (elapsedSamples rs)))); [lia|].
      cbn. auto. }
    destruct Hs as (Ha' & He' & Hr').
    destruct (IH (snd (sampleGain rs)) Ha') as [H1 H2].
    { rewrite He', Hr'. lia. }
    split; [exact H1|]. rewrite H2, He'. lia.
Qed.

Lemma stateAfter_completed (k : nat) :
  forall rs,
    active rs = true ->
    (rampSamples rs <= Z.of_nat (elapsedSamples rs + S k))%Z ->
    active (stateAfter rs (S k)) = false
    /\ currentGain (stateAfter rs (S k)) = targetGain rs.
Proof.
  induction k as [|k IH]; intros rs Ha Hle.
  - cbn [stateAfter]. unfold sampleGain. rewrite Ha.
    destruct (Z.leb_spec (rampSamples rs) (Z.of_nat (S (elapsedSamples rs))));
      [|lia].
    cbn. auto.
  - change (stateAfter rs (S (S k)))
      with (stateAfter (snd (sampleGain rs)) (S k)).
    unfold sampleGain. rewrite Ha.
    destruct (Z.leb_spec (rampSamples rs)
                (Z.of_nat (S (elapsedSamples rs)))) as [Hd|Hd]; cbn [snd].
    + rewrite stateAfter_inactive by reflexivity. cbn. auto.
    + match goal with
      | |- context [stateAfter ?r _] =>
          destruct (IH r eq_refl) as [H1 H2]; [cbn; lia|]
      end.
      split; [exact H1|]. rewrite H2. reflexivity.
Qed.

(** X5: a ramp that has just been started (as a non-immediate
    [startDucking] or [stopDucking] leaves it: active, no sample
    elapsed) lasts [max 1 rampSamples] processed samples: before that
    many samples it is still running, one elapsed sample counted per
    processed sample, and from that many samples on it is over, the
    current gain being the ramp's target gain. *)
Theorem X5_ramp_length (rs : GainRampState) (k : nat) :
  active rs = true ->
  elapsedSamples rs = 0%nat ->
  let n := Z.max 1 (rampSamples rs) in
  ((Z.of_nat k < n)%Z ->
     isRamping (stateAfter rs k) = true
     /\ elapsedSamples (stateAfter rs k) = k)
  /\ ((n <= Z.of_nat k)%Z ->
     isRamping (stateAfter rs k) = false
     /\ getCurrentGain (stateAfter rs k) = targetGain rs).
Proof.
  intros Ha He n. unfold isRamping, getCurrentGain, n.
  split; intros Hk.
  - destruct k as [|k]; [split; [exact Ha | exact He]|].
    destruct (stateAfter_ramping k rs Ha) as [H1 H2].
    { rewrite He. cbn [Nat.add]. lia. }
    split; [exact H1|]. rewrite H2, He. reflexivity.
  - destruct k as [|k]; [lia|].
    destruct (stateAfter_completed k rs Ha) as [H1 H2].
    { rewrite He. cbn [Nat.add]. lia. }
    split; [exact H1 | exact H2].
Qed.

Lemma X5_ramp_length_witness :
  let rs := stopDucking defaultConfig
              (startDucking defaultConfig (initialRampState defaultConfig)
                 true)
              false in
  let n := Z.max 1 (rampSamples rs) in
  ((Z.of_nat 3 < n)%Z ->
     isRamping (stateAfter rs 3) = true
     /\ elapsedSamples (stateAfter rs 3) = 3%nat)
  /\ ((n <= Z.of_nat 3)%Z ->
     isRamping (stateAfter rs 3) = false
     /\ getCurrentGain (stateAfter rs 3) = targetGain rs).
Proof.
  intros rs.
  apply (X5_ramp_length rs 3); reflexivity.
Defined.

(** ** Streaming *)

Lemma int16LE_readInt16LE (buf : Buffer.t) (off : nat) (v : Z) :
  readInt16LE buf off = Some v ->
  exists a b,
    nth_error buf off = Some a /\ nth_error buf (S off) = Some b
    /\ int16LE v = [a; b].
Proof.
  unfold readInt16LE.
  destruct (nth_error buf off) as [a|]; [|discriminate].
  destruct (nth_error buf (S off)) as [b|]; [|discriminate].
  intros H. injection H as <-. exists a, b. repeat split.
  pose proof (byteZ_range a) as Ra. pose proof (byteZ_range b) as Rb.
  unfold int16LE.
  destruct (Z.ltb_spec (byteZ a + byteZ b * 256) 32768) as [Hlt|Hge].
  - f_equal; [|f_equal].
    + rewrite <- (zbyte_byteZ a) at 2. unfold zbyte.
      now rewrite Z.mod_add by lia.
    + rewrite Z.div_add by lia. rewrite Z.div_small by lia.
      apply zbyte_byteZ.
  - f_equal; [|f_equal].
    + rewrite <- (zbyte_byteZ a) at 2. unfold zbyte.
      replace (byteZ a + byteZ b * 256 - 65536)%Z
        with (byteZ a + (byteZ b - 256) * 256)%Z by lia.
      now rewrite Z.mod_add by lia.
    + replace (byteZ a + byteZ b * 256 - 65536)%Z
        with (byteZ a + (byteZ b - 256) * 256)%Z by lia.
      rewrite Z.div_add by lia. rewrite Z.div_small by lia.
      rewrite <- (zbyte_byteZ b) at 2. unfold zbyte.
      replace (0 + (byteZ b - 256))%Z with (byteZ b + (-1) * 256)%Z by lia.
      now rewrite Z.mod_add by lia.
Qed.

Lemma processLoop_prepend (n : nat) :
  forall buffer i rs p q,
    processLoop n buffer i rs (p ++ q)
    = (fst (processLoop n buffer i rs q),
       match snd (processLoop n buffer i rs q) with
       | Ok o => Ok (p ++ o)
       | RangeError => RangeError
       end).
Proof.
  induction n as [|n IH]; intros buffer i rs p q; [reflexivity|].
  cbn [processLoop].
  destruct (readInt16LE buffer (i * 2)) as [sample|]; [|reflexivity].
  destruct (sampleGain rs) as [gain rs'].
  rewrite <- app_assoc. apply IH.
Qed.

Lemma processLoop_split (n1 n2 : nat) :
  forall buffer i rs p,
    processLoop (n1 + n2) buffer i rs p
    = match processLoop n1 buffer i rs p with
      | (rs1, Ok p1) => processLoop n2 buffer (n1 + i) rs1 p1
      | (rs1, RangeError) => (rs1, RangeError)
      end.
Proof.
  induction n1 as [|n1 IH]; intros buffer i rs p; [reflexivity|].
  cbn [processLoop Nat.add].
  destruct (readInt16LE buffer (i * 2)) as [sample|]; [|reflexivity].
  destruct (sampleGain rs) as [gain rs'].
  rewrite IH. now replace (n1 + S i)%nat with (S (n1 + i)) by lia.
Qed.

Lemma processLoop_left (n : nat) :
  forall b1 b2 i rs p,
    length b1 = (2 * (i + n))%nat ->
    processLoop n (b1 ++ b2) i rs p = processLoop n b1 i rs p.
Proof.
  induction n as [|n IH]; intros b1 b2 i rs p Hlen; [reflexivity|].
  cbn [processLoop].
  assert (E : readInt16LE (b1 ++ b2) (i * 2) = readInt16LE b1 (i * 2)).
  { unfold readInt16LE. now rewrite !nth_error_app1 by lia. }
  rewrite E. destruct (readInt16LE b1 (i * 2)) as [sample|]; [|reflexivity].
  destruct (sampleGain rs) as [gain rs']. apply IH. lia.
Qed.

Lemma processLoop_right (n : nat) :
  forall b1 b2 m1 i rs p,
    length b1 = (2 * m1)%nat ->
    processLoop n (b1 ++ b2) (m1 + i) rs p = processLoop n b2 i rs p.
Proof.
  induction n as [|n IH]; intros b1 b2 m1 i rs p Hlen; [reflexivity|].
  cbn [processLoop].
  replace ((m1 + i) * 2)%nat with (length b1 + i * 2)%nat by lia.
  rewrite readInt16LE_app.
  destruct (readInt16LE b2 (i * 2)) as [sample|]; [|reflexivity].
  destruct (sampleGain rs) as [gain rs'].
  replace (S (m1 + i)) with (m1 + S i)%nat by lia. now apply IH.
Qed.

(** The pass-through shortcut returns what the loop would have written. *)
Lemma processLoop_bypass (rs : GainRampState) (n : nat) :
  bypass rs = true ->
  forall buffer p,
    length buffer = (2 * n)%nat ->
    processLoop n buffer 0 rs p = (rs, Ok (p ++ buffer)).
Proof.
  intros Eb. apply bypass_true in Eb. destruct Eb as [Ha Hg].
  induction n as [|n IH]; intros buffer p Hlen.
  - destruct buffer; [|discriminate]. cbn. now rewrite app_nil_r.
  - destruct buffer as [|a [|b rest]]; [cbn in Hlen; lia | cbn in Hlen; lia |].
    cbn [processLoop].
    destruct (readInt16LE_in_range (a :: b :: rest) (0 * 2))
      as [sample Hs]; [cbn; lia|].
    rewrite Hs.
    destruct (int16LE_readInt16LE _ _ _ Hs) as (a' & b' & Ea & Eb & Ei).
    cbn in Ea, Eb. injection Ea as <-. injection Eb as <-.
    unfold sampleGain. rewrite Ha, Hg. cbn [scale].
    rewrite Rmult_1_r, round_IZR.
    pose proof (readInt16LE_range _ _ _ Hs) as Hr.
    replace (clamp16 sample) with sample by (unfold clamp16; lia).
    rewrite Ei.
    pose proof (processLoop_right n [a; b] rest 1 0 rs (p ++ [a; b]) eq_refl)
      as Hshift.
    cbn [app Nat.add] in Hshift. rewrite Hshift.
    rewrite IH by (cbn in Hlen; lia).
    now rewrite <- app_assoc.
Qed.

Lemma sampleIterations_even (m : nat) : sampleIterations (2 * m) = m.
Proof. unfold sampleIterations. apply div2_S_double. Qed.

(** X6: the processor's output does not depend on how the stream is cut
    into buffers of whole samples: processing [b1] and then [b2] returns
    the two halves of what processing [b1 ++ b2] in one call returns, and
    leaves the ramp in the same state. *)
Theorem X6_processBuffer_chunking (rs : GainRampState)
    (b1 b2 : Buffer.t) (m1 m2 : nat) :
  length b1 = (2 * m1)%nat ->
  length b2 = (2 * m2)%nat ->
  exists o1 o2 rs1 rs2,
    processBuffer rs b1 = (rs1, Ok o1)
    /\ processBuffer rs1 b2 = (rs2, Ok o2)
    /\ processBuffer rs (b1 ++ b2) = (rs2, Ok (o1 ++ o2)).
Proof.
  intros H1 H2.
  assert (Hloop : forall r b m, length b = (2 * m)%nat ->
            exists o, processLoop m b 0 r [] = (stateAfter r m, Ok o)).
  { intros r b m Hb.
    destruct (processLoop_whole m b 0 r [] Hb) as (o & Ho & _).
    exists o. exact Ho. }
  assert (Hsecond : forall r b m, length b = (2 * m)%nat ->
            exists o r', processBuffer r b = (r', Ok o)
                         /\ processLoop m b 0 r [] = (r', Ok o)).
  { intros r b m Hb. unfold processBuffer.
    destruct (bypass r) eqn:Eb.
    - exists b, r. split; [reflexivity|].
      now rewrite (processLoop_bypass r m Eb b [] Hb).
    - destruct (Hloop r b m Hb) as [o Ho].
      exists o, (stateAfter r m).
      now rewrite Hb, sampleIterations_even. }
  destruct (Hsecond rs b1 m1 H1) as (o1 & rs1 & Hp1 & Hl1).
  destruct (Hsecond rs1 b2 m2 H2) as (o2 & rs2 & Hp2 & Hl2).
  exists o1, o2, rs1, rs2. split; [exact Hp1|]. split; [exact Hp2|].
  assert (Hwhole : processLoop (m1 + m2) (b1 ++ b2) 0 rs []
                   = (rs2, Ok (o1 ++ o2))).
  { rewrite processLoop_split.
    rewrite (processLoop_left m1 b1 b2 0 rs []) by (cbn; lia).
    rewrite Hl1.
    rewrite (processLoop_right m2 b1 b2 m1 0 rs1 o1 H1).
    rewrite <- (app_nil_r o1) at 1.
    rewrite processLoop_prepend, Hl2. reflexivity. }
  unfold processBuffer. destruct (bypass rs) eqn:Eb.
  - rewrite <- Hwhole. symmetry.
    rewrite (processLoop_bypass rs (m1 + m2) Eb (b1 ++ b2) []); [reflexivity|].
    rewrite length_app. lia.
  - rewrite length_app, H1, H2.
    replace (2 * m1 + 2 * m2)%nat with (2 * (m1 + m2))%nat by lia.
    rewrite sampleIterations_even. exact Hwhole.
Qed.

Lemma X6_processBuffer_chunking_witness :
  exists o1 o2 rs1 rs2,
    processBuffer
      (startDucking defaultConfig (initialRampState defaultConfig) false)
      [x00; x10] = (rs1, Ok o1)
    /\ processBuffer rs1 [x00; xf0; x34; x12] = (rs2, Ok o2)
    /\ processBuffer
         (startDucking defaultConfig (initialRampState defaultConfig) false)
         ([x00; x10] ++ [x00; xf0; x34; x12]) = (rs2, Ok (o1 ++ o2)).
Proof.
  apply (X6_processBuffer_chunking
           (startDucking defaultConfig (initialRampState defaultConfig) false)
           [x00; x10] [x00; xf0; x34; x12] 1 2); reflexivity.
Defined.

(** ** The two gain paths *)

Lemma processLoop_settled (rs : GainRampState) (n : nat) :
  active rs = false ->
  forall buffer i p,
    length buffer = (2 * (i + n))%nat ->
    snd (processLoop n buffer i rs p)
    = applyGainLoop n buffer (2 * i) (currentGain rs) p.
Proof.
  intros Ha. induction n as [|n IH]; intros buffer i p Hlen; [reflexivity|].
  cbn [processLoop applyGainLoop].
  destruct (Nat.leb_spec (length buffer) (2 * i + 1)) as [Hle|_]; [lia|].
  replace (i * 2)%nat with (2 * i)%nat by lia.
  destruct (readInt16LE buffer (2 * i)) as [sample|]; [|reflexivity].
  unfold sampleGain. rewrite Ha. cbn [scale].
  rewrite IH by lia.
  now replace (2 * S i)%nat with (2 * i + 2)%nat by lia.
Qed.

(** X9: on buffers of whole samples the two gain paths agree: a
    processor whose gain is settled (no ramp running) returns exactly
    what the orchestrator's static [applyGain] returns for the
    processor's current gain; at unity gain both return the input. *)
Theorem X9_settled_processor_agrees_with_applyGain (rs : GainRampState)
    (buffer : Buffer.t) (m : nat) :
  active rs = false ->
  length buffer = (2 * m)%nat ->
  snd (processBuffer rs buffer) = applyGain buffer (currentGain rs)
  /\ applyGain buffer 1 = Ok buffer.
Proof.
  intros Ha Hlen.
  assert (Hloop : snd (processLoop m buffer 0 rs [])
                  = applyGain buffer (currentGain rs)).
  { unfold applyGain. rewrite Hlen, div2_S_double.
    exact (processLoop_settled rs m Ha buffer 0 [] Hlen). }
  assert (Hunity : forall r, bypass r = true ->
            applyGain buffer (currentGain r) = Ok buffer).
  { intros r Eb. unfold applyGain. rewrite Hlen, div2_S_double.
    pose proof (proj1 (bypass_true r) Eb) as [Har _].
    pose proof (processLoop_settled r m Har buffer 0 [] Hlen) as Hs.
    rewrite (processLoop_bypass r m Eb buffer [] Hlen) in Hs.
    symmetry. exact Hs. }
  split.
  - unfold processBuffer. destruct (bypass rs) eqn:Eb.
    + now rewrite (Hunity rs Eb).
    + now rewrite Hlen, sampleIterations_even.
  - apply (Hunity (stopDucking defaultConfig rs true)). apply bypass_true.
    split; reflexivity.
Qed.

Lemma X9_settled_processor_agrees_with_applyGain_witness :
  snd (processBuffer
         (startDucking defaultConfig (initialRampState defaultConfig) true)
         [x00; x10; x00; xf0])
  = applyGain [x00; x10; x00; xf0]
      (currentGain
         (startDucking defaultConfig (initialRampState defaultConfig) true))
  /\ applyGain [x00; x10; x00; xf0] 1 = Ok [x00; x10; x00; xf0].
Proof.
  apply (X9_settled_processor_agrees_with_applyGain
           (startDucking defaultConfig (initialRampState defaultConfig) true)
           [x00; x10; x00; xf0] 2); reflexivity.
Defined.

(** ** Reporting *)

Lemma ln_10_gt_1 : 1 < ln 10.
Proof.
  apply exp_lt_inv. rewrite exp_ln by lra.
  pose proof exp_le_3. lra.
Qed.

Lemma dbToGain_ducked (db : R) : db <= -1 -> dbToGain db < 0.99.
Proof.
  intros Hdb. unfold dbToGain, Rpower.
  pose proof ln_10_gt_1 as Hln.
  assert (Hle : db / 20 * ln 10 <= - / 20) by nra.
  assert (Hexp : exp (db / 20 * ln 10) <= exp (- / 20)).
  { destruct Hle as [Hlt|Heq].
    - left. now apply exp_increasing.
    - rewrite Heq. lra. }
  pose proof (exp_ineq1 (/ 20) ltac:(lra)) as Hpos.
  rewrite exp_Ropp in Hexp.
  assert (Hinv : / exp (/ 20) < / (1 + / 20)).
  { apply Rinv_lt_contravar; [|exact Hpos].
    apply Rmult_lt_0_compat; lra. }
  assert (Hnum : / (1 + / 20) < 0.99).
  { apply Rmult_lt_reg_r with (r := 1 + / 20); [lra|].
    rewrite Rinv_l by lra. lra. }
  lra.
Qed.

Lemma targetGain_sampleGain (rs : GainRampState) :
  targetGain (snd (sampleGain rs)) = targetGain rs.
Proof.
  unfold sampleGain. destruct (active rs); [|reflexivity].
  destruct (rampSamples rs <=? Z.of_nat (S (elapsedSamples rs)))%Z;
    reflexivity.
Qed.

Lemma targetGain_processLoop (n : nat) :
  forall buffer i rs processed,
    targetGain (fst (processLoop n buffer i rs processed)) = targetGain rs.
Proof.
  induction n as [|n IH]; intros buffer i rs processed; [reflexivity|].
  cbn [processLoop].
  destruct (readInt16LE buffer (i * 2)) as [sample|]; [|reflexivity].
  pose proof (targetGain_sampleGain rs) as Ht.
  destruct (sampleGain rs) as [gain rs']. cbn [snd] in Ht.
  now rewrite IH.
Qed.

Lemma targetGain_processBuffer (rs : GainRampState) (buffer : Buffer.t) :
  targetGain (fst (processBuffer rs buffer)) = targetGain rs.
Proof.
  unfold processBuffer. destruct (bypass rs); [reflexivity|].
  apply targetGain_processLoop.
Qed.

Lemma targetGain_processAll (buffers : list Buffer.t) :
  forall rs, targetGain (processAll rs buffers) = targetGain rs.
Proof.
  unfold processAll.
  induction buffers as [|b buffers IH]; intros rs; [reflexivity|].
  cbn [fold_left]. rewrite IH. apply targetGain_processBuffer.
Qed.

(** X7: with a reduction of at least 1 dB (every built-in profile),
    [isDucking] reports true from a [startDucking], immediate or ramped,
    through every buffer processed afterwards, buffers that make
    [processBuffer] throw included; an immediate [stopDucking] makes it
    report false. *)
Theorem X7_isDucking_after_startDucking (cfg : AudioProcessorConfig)
    (rs : GainRampState) (immediate : bool) (buffers : list Buffer.t) :
  getDuckingReduction cfg <= -1 ->
  isDucking (processAll (startDucking cfg rs immediate) buffers) = true
  /\ isDucking
       (stopDucking cfg (processAll (startDucking cfg rs immediate) buffers)
          true) = false.
Proof.
  intros Hdb. split.
  - unfold isDucking. rewrite targetGain_processAll.
    assert (Ht : targetGain (startDucking cfg rs immediate)
                 = dbToGain (getDuckingReduction cfg))
      by (destruct immediate; reflexivity).
    rewrite Ht. pose proof (dbToGain_ducked _ Hdb).
    destruct (Rlt_dec (dbToGain (getDuckingReduction cfg)) 0.99);
      [apply orb_true_r | contradiction].
  - unfold isDucking, stopDucking. cbn [currentGain targetGain].
    destruct (Rlt_dec 1 0.99); [lra | reflexivity].
Qed.

Lemma X7_isDucking_after_startDucking_witness :
  isDucking
    (processAll
       (startDucking defaultConfig (initialRampState defaultConfig) false)
       [[x00; x10]; [x7f]]) = true
  /\ isDucking
       (stopDucking defaultConfig
          (processAll
             (startDucking defaultConfig (initialRampState defaultConfig)
                false)
             [[x00; x10]; [x7f]])
          true) = false.
Proof.
  apply (X7_isDucking_after_startDucking defaultConfig
           (initialRampState defaultConfig) false [[x00; x10]; [x7f]]).
  cbn. lra.
Defined.

End AudioExtras.

(* ================================================================== *)
(** * Further properties of the multi-channel processor *)
(* ================================================================== *)

Module MultiChannelExtras.

Import AudioProcessor MultiChannel.

Lemma get_app (l l' : list (String.string * GainRampState))
    (id : String.string) :
  get (l ++ l') id
  = match get l id with
    | Some rs => Some rs
    | None => get l' id
    end.
Proof.
  induction l as [|[id' rs] l IH]; [reflexivity|].
  cbn [app get]. destruct (String.eqb id' id); [reflexivity | exact IH].
Qed.

Lemma get_modify (l : list (String.string * GainRampState))
    (id id' : String.string) (f : GainRampState -> GainRampState) :
  get (modify l id f) id'
  = if String.eqb id id' then option_map f (get l id') else get l id'.
Proof.
  induction l as [|[key rs] l IH].
  - cbn. now destruct (String.eqb id id').
  - cbn [modify get].
    destruct (String.eqb_spec key id) as [->|Hne].
    + cbn [get]. now destruct (String.eqb id id').
    + cbn [get]. destruct (String.eqb_spec key id') as [->|Hne'].
      * apply not_eq_sym in Hne. apply String.eqb_neq in Hne.
        now rewrite Hne.
      * exact IH.
Qed.

Lemma config_onProcessor (m : t) (id : String.string)
    (f : GainRampState -> GainRampState) :
  config (onProcessor m id f) = config m.
Proof.
  unfold onProcessor, getProcessor.
  now destruct (get (processors m) id).
Qed.

(** One method call on the processor of [id]: that processor, created if
    need be, is changed by [f]; every other entry is as before. *)
Lemma get_onProcessor (m : t) (id id' : String.string)
    (f : GainRampState -> GainRampState) :
  get (processors (onProcessor m id f)) id'
  = if String.eqb id id'
    then Some (f (match get (processors m) id' with
                  | Some rs => rs
                  | None => initialRampState (config m)
                  end))
    else get (processors m) id'.
Proof.
  unfold onProcessor, getProcessor.
  destruct (get (processors m) id) as [rs|] eqn:Eg; cbn [processors].
  - rewrite get_modify.
    destruct (String.eqb_spec id id') as [<-|Hne]; [|reflexivity].
    now rewrite Eg.
  - rewrite get_modify, get_app. cbn [get].
    destruct (String.eqb_spec id id') as [<-|Hne].
    + now rewrite Eg.
    + now destruct (get (processors m) id').
Qed.

Lemma config_fold_onProcessor
    (g : AudioProcessorConfig -> GainRampState -> GainRampState)
    (ids : list String.string) :
  forall m,
    config (fold_left (fun m id => onProcessor m id (g (config m))) ids m)
    = config m.
Proof.
  induction ids as [|id ids IH]; intros m; [reflexivity|].
  cbn [fold_left]. rewrite IH. apply config_onProcessor.
Qed.

Lemma config_perform (m : t) (c : call) : config (perform m c) = config m.
Proof.
  destruct c as [ids imm|ids imm|id buffer]; cbn [perform].
  - apply (config_fold_onProcessor
             (fun cfg rs => AudioProcessor.startDucking cfg rs imm)).
  - apply (config_fold_onProcessor
             (fun cfg rs => AudioProcessor.stopDucking cfg rs imm)).
  - unfold processAudio. destruct (getProcessor m id).
    apply config_onProcessor.
Qed.

(** The same method called on the processor of every listed speaker. *)
Lemma get_fold_onProcessor
    (g : AudioProcessorConfig -> GainRampState -> GainRampState)
    (c : AudioProcessor.call) (id' : String.string)
    (ids : list String.string) :
  (forall cfg rs, g cfg rs = AudioProcessor.perform cfg rs c) ->
  forall m,
    get (processors
           (fold_left (fun m id => onProcessor m id (g (config m))) ids m))
      id'
    = match map (fun _ => c) (filter (fun id => String.eqb id id') ids) with
      | [] => get (processors m) id'
      | cs =>
          Some (fold_left (AudioProcessor.perform (config m)) cs
                  (match get (processors m) id' with
                   | Some rs => rs
                   | None => initialRampState (config m)
                   end))
      end.
Proof.
  intros Hg. induction ids as [|id ids IH]; intros m; [reflexivity|].
  cbn [fold_left filter]. rewrite IH.
  rewrite config_onProcessor, get_onProcessor.
  destruct (String.eqb id id'); cbn [map].
  - cbn [fold_left]. rewrite Hg.
    now destruct (map (fun _ => c)
                    (filter (fun id0 => String.eqb id0 id') ids)).
  - reflexivity.
Qed.

(** The processor of [id'] after one call on the facade. *)
Lemma get_perform (m : t) (c : call) (id' : String.string) :
  get (processors (perform m c)) id'
  = match projected id' c with
    | [] => get (processors m) id'
    | cs =>
        Some (fold_left (AudioProcessor.perform (config m)) cs
                (match get (processors m) id' with
                 | Some rs => rs
                 | None => initialRampState (config m)
                 end))
    end.
Proof.
  destruct c as [ids imm|ids imm|id buffer]; cbn [perform projected].
  - apply (get_fold_onProcessor
             (fun cfg rs => AudioProcessor.startDucking cfg rs imm)
             (AudioProcessor.StartDucking imm)).
    reflexivity.
  - apply (get_fold_onProcessor
             (fun cfg rs => AudioProcessor.stopDucking cfg rs imm)
             (AudioProcessor.StopDucking imm)).
    reflexivity.
  - unfold processAudio. destruct (getProcessor m id) as [m' rs].
    cbn [fst]. rewrite get_onProcessor.
    now destruct (String.eqb id id').
Qed.

Lemma get_fold_perform (calls : list call) (id' : String.string) :
  forall m,
    get (processors (fold_left perform calls m)) id'
    = match flat_map (projected id') calls with
      | [] => get (processors m) id'
      | cs =>
          Some (fold_left (AudioProcessor.perform (config m)) cs
                  (match get (processors m) id' with
                   | Some rs => rs
                   | None => initialRampState (config m)
                   end))
      end.
Proof.
  induction calls as [|c calls IH]; intros m; [reflexivity|].
  cbn [fold_left flat_map]. rewrite IH, config_perform, get_perform.
  destruct (projected id' c) as [|c1 cs1]; [reflexivity|].
  cbn [app].
  destruct (flat_map (projected id') calls) as [|c2 cs2].
  - now rewrite app_nil_r.
  - now rewrite fold_left_app.
Qed.

Lemma config_fold_perform (calls : list call) :
  forall m, config (fold_left perform calls m) = config m.
Proof.
  induction calls as [|c calls IH]; intros m; [reflexivity|].
  cbn [fold_left]. rewrite IH. apply config_perform.
Qed.

(** X8: the channels of the multi-channel processor do not interfere:
    after any sequence of facade calls, the processor of a speaker is the
    single processor that received, in order, exactly the calls addressed
    to that speaker (one per occurrence of the speaker in a ducking
    list), a speaker no call addressed has no processor, and
    [processAudio] returns what that single processor returns. *)
Theorem X8_channels_are_independent (cfg : AudioProcessorConfig)
    (calls : list call) (speakerId : String.string) (buffer : Buffer.t) :
  get (processors (MultiChannel.run cfg calls)) speakerId
  = match flat_map (projected speakerId) calls with
    | [] => None
    | cs => Some (AudioProcessor.run cfg cs)
    end
  /\ snd (processAudio (MultiChannel.run cfg calls) speakerId buffer)
     = snd (processBuffer
              (AudioProcessor.run cfg (flat_map (projected speakerId) calls))
              buffer).
Proof.
  assert (Hget : get (processors (MultiChannel.run cfg calls)) speakerId
                 = match flat_map (projected speakerId) calls with
                   | [] => None
                   | cs => Some (AudioProcessor.run cfg cs)
                   end).
  { unfold MultiChannel.run. rewrite get_fold_perform. reflexivity. }
  split; [exact Hget|].
  unfold processAudio, getProcessor. rewrite Hget.
  destruct (flat_map (projected speakerId) calls) as [|c cs]; cbn [snd].
  - unfold MultiChannel.run. rewrite config_fold_perform. reflexivity.
  - reflexivity.
Qed.

End MultiChannelExtras.


(* ================================================================== *)
(** * Further properties of the barge-in manager *)
(* ================================================================== *)

Module BargeInExtras.

Import Shared BargeIn BargeInFacts.
Local Open Scope R_scope.

(** ** Projections of the building blocks *)

Lemma fold_stopSpeaking (interrupted : list SpeakerId) :
  forall m,
    let m' := fold_left (fun m speaker => withSpeaker m speaker stopSpeaking)
                interrupted m in
    config m' = config m /\ graceTimer m' = graceTimer m
    /\ pendingBargeIn m' = pendingBargeIn m
    /\ bargeInHistory m' = bargeInHistory m /\ calls m' = calls m.
Proof.
  induction interrupted as [|s l IH]; intros m; cbn; [tauto|].
  destruct (IH (withSpeaker m s stopSpeaking)) as (H1 & H2 & H3 & H4 & H5).
  cbn in *. tauto.
Qed.

Lemma logEvent_length (m : Manager) (e : Event.t) :
  (length (bargeInHistory m) <= maxHistorySize)%nat ->
  (length (bargeInHistory (logEvent m e)) <= maxHistorySize)%nat.
Proof.
  intros H. unfold logEvent. cbn [bargeInHistory].
  destruct (Nat.ltb_spec maxHistorySize
              (length (bargeInHistory m ++ [e]))) as [Hlt|Hle]; [|exact Hle].
  rewrite length_app in Hlt. cbn in Hlt.
  destruct (bargeInHistory m) as [|x l]; cbn in *; [lia|].
  rewrite length_app. cbn. lia.
Qed.

Lemma logEvent_In (m : Manager) (e x : Event.t) :
  In x (bargeInHistory (logEvent m e)) -> In x (bargeInHistory m) \/ x = e.
Proof.
  unfold logEvent. cbn [bargeInHistory].
  assert (Happ : In x (bargeInHistory m ++ [e]) ->
                 In x (bargeInHistory m) \/ x = e).
  { intros H. apply in_app_or in H. destruct H as [H|[H|[]]]; auto. }
  destruct (maxHistorySize <? _)%nat; [|exact Happ].
  intros H. apply Happ.
  destruct (bargeInHistory m ++ [e]); [exact H | now right].
Qed.

Lemma speakers_eqb_refl (l : list SpeakerId) : speakers_eqb l l = true.
Proof.
  unfold speakers_eqb. rewrite Nat.eqb_refl. cbn.
  induction l as [|s l IH]; [reflexivity|].
  cbn. rewrite IH. now destruct s.
Qed.

Lemma paired_app_n (n : nat) :
  forall a b, (length a <= n)%nat ->
    paired a = true -> paired (a ++ b) = paired b.
Proof.
  induction n as [|n IH]; intros a b Hn Ha.
  - destruct a; [reflexivity | cbn in Hn; lia].
  - destruct a as [|c a]; [reflexivity|].
    destruct c as [i t|i t| |sp en]; cbn [app].
    + destruct a as [|c' a]; [discriminate|].
      destruct c' as [i' t'|i' t'| |sp' en']; try discriminate.
      cbn [paired app] in *.
      apply andb_true_iff in Ha. destruct Ha as [Hh Ht]. rewrite Hh.
      cbn [andb]. apply IH; [cbn in Hn; lia | exact Ht].
    + discriminate.
    + cbn [paired] in *. apply IH; [cbn in Hn; lia | exact Ha].
    + cbn [paired] in *. apply IH; [cbn in Hn; lia | exact Ha].
Qed.

Lemma paired_app (a b : list Callback) :
  paired a = true -> paired (a ++ b) = paired b.
Proof. apply (paired_app_n (length a)). lia. Qed.

Lemma calls_executeBargeIn m i t c g now :
  calls (executeBargeIn m i t c g now)
  = calls m ++ [OnBargeInStart i t; OnBargeInComplete i t].
Proof.
  unfold executeBargeIn. cbn [calls setPending call logEvent].
  match goal with
  | |- context [fold_left ?f t ?m0] =>
      destruct (fold_stopSpeaking t m0) as (_ & _ & _ & _ & Hc)
  end.
  cbn zeta in Hc. rewrite Hc. cbn [calls call logEvent].
  now rewrite <- app_assoc.
Qed.

(** ** Preservation of consistency *)

Lemma Consistent_create (cfg : Config.t) : Consistent (create cfg).
Proof.
  constructor; cbn; try easy. unfold maxHistorySize. lia.
Qed.

Lemma Consistent_withSpeaker m s f :
  Consistent m -> Consistent (withSpeaker m s f).
Proof. intros [H1 H2 H3 H4 H5]. constructor; assumption. Qed.

Lemma Consistent_executeBargeIn m i t c now :
  Consistent m ->
  graceTimer m = None ->
  Consistent
    (executeBargeIn m i t c
       (negb (BargeInMode_eqb (Config.mode (config m)) immediate)) now).
Proof.
  intros [H1 H2 H3 H4 H5] Ht.
  set (g := negb (BargeInMode_eqb (Config.mode (config m)) immediate)).
  pose proof (calls_executeBargeIn m i t c g now) as Hcalls.
  unfold executeBargeIn in *.
  match goal with
  | |- context [fold_left ?f t ?m0] =>
      destruct (fold_stopSpeaking t m0) as (Hcfg & Htm & Hp & Hh & Hc);
      set (m1 := fold_left f t m0) in *
  end.
  cbn zeta in *.
  constructor; cbn [setPending call logEvent config graceTimer
                     pendingBargeIn bargeInHistory calls].
  - apply (logEvent_length m1). rewrite Hh. apply logEvent_length, H1.
  - rewrite Htm. cbn. rewrite Ht. discriminate.
  - reflexivity.
  - intros e He. rewrite Hcfg. cbn [config call logEvent].
    change (In e (bargeInHistory (logEvent m1
              {| Event.type := bargeInComplete; Event.timestamp := now;
                 Event.interrupter := i; Event.interrupted := t;
                 Event.mode := Config.mode (config m);
                 Event.confidence := c; Event.gracePeriodUsed := g;
                 Event.duckingApplied := Config.duckingEnabled (config m) |})))
      in He.
    apply logEvent_In in He. destruct He as [He| ->]; [|now cbn].
    rewrite Hh in He.
    change (In e (bargeInHistory (logEvent m
              {| Event.type := bargeInStart; Event.timestamp := now;
                 Event.interrupter := i; Event.interrupted := t;
                 Event.mode := Config.mode (config m);
                 Event.confidence := c; Event.gracePeriodUsed := g;
                 Event.duckingApplied := Config.duckingEnabled (config m) |})))
      in He.
    apply logEvent_In in He. destruct He as [He| ->]; [now apply H4|].
    cbn. split; [reflexivity | discriminate].
  - cbn [setPending call logEvent calls] in Hcalls. rewrite Hcalls.
    rewrite paired_app by exact H5. cbn.
    destruct i; cbn; now rewrite speakers_eqb_refl.
Qed.

Lemma Consistent_setTimer_None m :
  Consistent m -> pendingBargeIn m = None -> Consistent (setTimer m None).
Proof.
  intros [H1 H2 H3 H4 H5] Hp. constructor; cbn; try assumption.
  - discriminate.
  - now intros _.
Qed.

Lemma Consistent_cancelBargeIn m now :
  Consistent m -> Consistent (cancelBargeIn m now).
Proof.
  intros [H1 H2 H3 H4 H5]. unfold cancelBargeIn.
  cbn [setTimer pendingBargeIn].
  destruct (pendingBargeIn m) as [p|] eqn:Ep.
  - constructor; cbn [setPending call logEvent setTimer config graceTimer
                       pendingBargeIn bargeInHistory calls].
    + match goal with
      | |- context [bargeInHistory m ++ [?e]] =>
          apply (logEvent_length m e H1)
      end.
    + discriminate.
    + reflexivity.
    + intros e He.
      match type of He with
      | context [bargeInHistory m ++ [?e0]] =>
          apply (logEvent_In m e0 e) in He
      end.
      destruct He as [He| ->]; [now apply H4|].
      cbn. split; [reflexivity | discriminate].
    + rewrite paired_app by exact H5. reflexivity.
  - constructor; cbn; try assumption; [discriminate | reflexivity].
Qed.

Lemma Consistent_call_request m targets enable :
  Consistent m -> Consistent (call m (OnDuckingRequest targets enable)).
Proof.
  intros [H1 H2 H3 H4 H5]. constructor; cbn; try assumption.
  now rewrite paired_app.
Qed.

Lemma Consistent_schedule m i t c now delay :
  Consistent m ->
  scheduledDelay (config m) = Some delay ->
  t <> [] ->
  Consistent (schedule m i t c now delay).
Proof.
  intros HC Hd Ht. unfold schedule.
  assert (HC' : Consistent
                  (if Config.duckingEnabled (config m)
                   then call m (OnDuckingRequest t true) else m)).
  { destruct (Config.duckingEnabled (config m));
      [now apply Consistent_call_request | exact HC]. }
  assert (Hcfg : config (if Config.duckingEnabled (config m)
                         then call m (OnDuckingRequest t true) else m)
                 = config m)
    by now destruct (Config.duckingEnabled (config m)).
  destruct HC' as [H1 H2 H3 H4 H5].
  constructor; cbn [setTimer setPending config graceTimer pendingBargeIn
                     bargeInHistory calls]; try assumption.
  - intros t' E. injection E as <-. cbn. rewrite Hcfg.
    split; [eauto | split; assumption].
  - discriminate.
Qed.

Lemma allowedTargets_nonempty m targets s l :
  allowedTargets m targets = s :: l -> s :: l <> [].
Proof. discriminate. Qed.

Lemma Consistent_initiateBargeIn m i targets c now :
  Consistent m ->
  Consistent (initiateBargeIn m i targets c now).
Proof.
  intros HC. unfold initiateBargeIn.
  destruct (allowedTargets m targets) as [|s l] eqn:Ea; [exact HC|].
  destruct (canInterrupt m i (s :: l)); cbn [negb]; [|exact HC].
  destruct (Config.mode (config m)) eqn:Em.
  - pose proof (Consistent_executeBargeIn m i (s :: l) c now HC) as H.
    rewrite Em in H. cbn in H. apply H.
    destruct (graceTimer m) as [t|] eqn:Et; [|reflexivity].
    destruct (cons_timer m HC t Et) as (_ & Hd & _).
    unfold scheduledDelay in Hd. rewrite Em in Hd. discriminate.
  - apply Consistent_schedule; [exact HC | | discriminate].
    unfold scheduledDelay. now rewrite Em.
  - apply Consistent_schedule; [exact HC | | discriminate].
    unfold scheduledDelay. now rewrite Em.
  - exact HC.
Qed.

Lemma Consistent_onSpeechStart m s c now :
  Consistent m -> Consistent (onSpeechStart m s c now).
Proof.
  intros HC. unfold onSpeechStart.
  match goal with
  | |- context [withSpeaker m s ?f] =>
      pose proof (Consistent_withSpeaker m s f HC) as HC';
      set (m1 := withSpeaker m s f) in *
  end.
  destruct (filter _ (getActiveSpeakers m1)); [exact HC'|].
  destruct (isDisabled _); [exact HC'|].
  now apply Consistent_initiateBargeIn.
Qed.

Lemma Consistent_onSpeechEnd m s c now :
  Consistent m -> Consistent (onSpeechEnd m s c now).
Proof.
  intros HC. unfold onSpeechEnd.
  match goal with
  | |- context [withSpeaker m s ?f] =>
      pose proof (Consistent_withSpeaker m s f HC) as HC';
      set (m1 := withSpeaker m s f) in *
  end.
  destruct (pendingBargeIn m1) as [p|]; [|exact HC'].
  destruct (SpeakerId_eqb _ _); [|exact HC'].
  now apply Consistent_cancelBargeIn.
Qed.

Lemma Consistent_disarm m t :
  Consistent m -> graceTimer m = Some t ->
  Consistent (setPending (setTimer m None) None).
Proof.
  intros [H1 H2 H3 H4 H5] _. constructor; cbn; try assumption.
  - discriminate.
  - reflexivity.
Qed.

Lemma fold_setPending (l : list SpeakerId) :
  forall m p,
    fold_left (fun m speaker => withSpeaker m speaker stopSpeaking) l
      (setPending m p)
    = setPending
        (fold_left (fun m speaker => withSpeaker m speaker stopSpeaking) l m)
        p.
Proof.
  induction l as [|x l IH]; intros m p; [reflexivity|].
  cbn [fold_left]. rewrite <- IH. reflexivity.
Qed.

Lemma executeBargeIn_setPending m p i t c g now :
  executeBargeIn (setPending m p) i t c g now = executeBargeIn m i t c g now.
Proof.
  unfold executeBargeIn. cbn zeta.
  change (config (setPending m p)) with (config m).
  match goal with
  | |- context [call (logEvent (setPending m p) ?e) ?cb] =>
      change (call (logEvent (setPending m p) e) cb)
        with (setPending (call (logEvent m e) cb) p)
  end.
  rewrite fold_setPending. reflexivity.
Qed.

Lemma Consistent_timerFires m now :
  Consistent m -> Consistent (timerFires m now).
Proof.
  intros HC. unfold timerFires.
  destruct (graceTimer m) as [t|] eqn:Et; [|exact HC].
  destruct (cons_timer m HC t Et) as ((p & Hp & _) & Hd & Hne).
  destruct (Speaker.speaking _).
  - assert (Hmode : negb (BargeInMode_eqb (Config.mode (config m)) immediate)
                    = true).
    { unfold scheduledDelay in Hd.
      destruct (Config.mode (config m)); try discriminate; reflexivity. }
    rewrite <- (executeBargeIn_setPending (setTimer m None) None).
    pose proof (Consistent_executeBargeIn
                  (setPending (setTimer m None) None)
                  (Timer.interrupter t) (Timer.targets t)
                  (Timer.confidence t) now
                  (Consistent_disarm m t HC Et) eq_refl) as H.
    cbn [setPending setTimer config] in H. rewrite Hmode in H. exact H.
  - pose proof (Consistent_cancelBargeIn (setTimer m None) now) as H.
    assert (HC1 : Consistent (cancelBargeIn m now))
      by now apply Consistent_cancelBargeIn.
    assert (E : cancelBargeIn (setTimer m None) now = cancelBargeIn m now)
      by reflexivity.
    rewrite E.
    assert (Ecfg : config (cancelBargeIn m now) = config m).
    { unfold cancelBargeIn. cbn [setTimer pendingBargeIn].
      now destruct (pendingBargeIn m). }
    rewrite Ecfg.
    destruct (Config.duckingEnabled (config m)); [|exact HC1].
    now apply Consistent_call_request.
Qed.

Lemma Consistent_invoke m a : Consistent m -> Consistent (invoke m a).
Proof.
  intros HC. destruct a as [[s c now|s c now|now]|s p|s b]; cbn [invoke step].
  - now apply Consistent_onSpeechStart.
  - now apply Consistent_onSpeechEnd.
  - now apply Consistent_timerFires.
  - now apply Consistent_withSpeaker.
  - now apply Consistent_withSpeaker.
Qed.

Lemma Consistent_fold (apis : list api) :
  forall m, Consistent m -> Consistent (fold_left invoke apis m).
Proof.
  induction apis as [|a apis IH]; intros m HC; cbn; auto.
  apply IH. now apply Consistent_invoke.
Qed.

Lemma Consistent_session cfg apis : Consistent (session cfg apis).
Proof. apply Consistent_fold, Consistent_create. Qed.

Lemma config_invoke m a : config (invoke m a) = config m.
Proof.
  destruct a as [[s c now|s c now|now]|s p|s b]; cbn [invoke step];
    try reflexivity.
  - unfold onSpeechStart.
    match goal with
    | |- context [withSpeaker m s ?f] => set (m1 := withSpeaker m s f)
    end.
    change (config m) with (config m1).
    destruct (filter _ (getActiveSpeakers m1)); [reflexivity|].
    destruct (isDisabled _); [reflexivity|].
    unfold initiateBargeIn.
    destruct (allowedTargets m1 _); [reflexivity|].
    destruct (canInterrupt m1 s _); cbn [negb]; [|reflexivity].
    destruct (Config.mode (config m1)); try reflexivity.
    + unfold executeBargeIn. cbn [setPending call logEvent config].
      match goal with
      | |- context [fold_left ?f ?t ?m0] =>
          destruct (fold_stopSpeaking t m0) as (Hc & _)
      end.
      cbn zeta in Hc. now rewrite Hc.
    + unfold scheduleGracefulBargeIn, schedule. cbn.
      now destruct (Config.duckingEnabled (config m)).
    + unfold scheduleSentenceCompleteBargeIn, schedule. cbn.
      now destruct (Config.duckingEnabled (config m)).
  - unfold onSpeechEnd.
    match goal with
    | |- context [withSpeaker m s ?f] => set (m1 := withSpeaker m s f)
    end.
    change (config m) with (config m1).
    destruct (pendingBargeIn m1) eqn:Ep; [|reflexivity].
    destruct (SpeakerId_eqb _ _); [|reflexivity].
    unfold cancelBargeIn. cbn [setTimer pendingBargeIn]. now rewrite Ep.
  - unfold timerFires. destruct (graceTimer m) as [t|]; [|reflexivity].
    destruct (Speaker.speaking _).
    + unfold executeBargeIn. cbn [setPending call logEvent config].
      match goal with
      | |- context [fold_left ?f ?t ?m0] =>
          destruct (fold_stopSpeaking t m0) as (Hc & _)
      end.
      cbn zeta in Hc. now rewrite Hc.
    + assert (Ecfg : config (cancelBargeIn (setTimer m None) now) = config m).
      { unfold cancelBargeIn. cbn [setTimer pendingBargeIn].
        now destruct (pendingBargeIn m). }
      rewrite Ecfg.
      destruct (Config.duckingEnabled (config m)); [|exact Ecfg].
      exact Ecfg.
Qed.

Lemma config_session cfg apis : config (session cfg apis) = cfg.
Proof.
  unfold session.
  assert (H : forall m, config (fold_left invoke apis m) = config m).
  { induction apis as [|a apis IH]; intros m; cbn; [reflexivity|].
    rewrite IH. apply config_invoke. }
  now rewrite H.
Qed.

(** ** Sessions *)

(** X10: whatever a client calls, the event history never holds more
    than the hundred most recent events. *)
Theorem X10_history_is_bounded (cfg : Config.t) (apis : list api) :
  (length (getHistory (session cfg apis)) <= 100)%nat.
Proof. exact (cons_history _ (Consistent_session cfg apis)). Qed.



(** ** Statistics *)

Lemma tally_fold (md : BargeInMode) (g : bool) (l : list Event.t) :
  (forall e, In e l ->
     Event.mode e = md
     /\ (isComplete e = true -> Event.gracePeriodUsed e = g)) ->
  forall acc mode,
    tallyByMode (fold_left tallyEvent l acc) mode
    = ((if BargeInMode_eqb mode md then length (filter isComplete l) else 0)
       + tallyByMode acc mode)%nat
    /\ gracePeriodUsageCount (fold_left tallyEvent l acc)
       = ((if g then length (filter isComplete l) else 0)
          + gracePeriodUsageCount acc)%nat.
Proof.
  induction l as [|e l IH]; intros Hall acc mode.
  - cbn. now destruct (BargeInMode_eqb mode md), g.
  - cbn [fold_left filter].
    destruct (Hall e (or_introl eq_refl)) as [Hm Hg].
    destruct (IH (fun x Hx => Hall x (or_intror Hx)) (tallyEvent acc e) mode)
      as [H1 H2].
    rewrite H1, H2. unfold tallyEvent.
    destruct (isComplete e) eqn:Ec; cbn [length tallyByMode
                                          gracePeriodUsageCount].
    + rewrite Hm, (Hg eq_refl).
      destruct (BargeInMode_eqb mode md), g; split; lia.
    + split; reflexivity.
Qed.

(** X13: the statistics of a session are those of its one mode: every
    completed barge-in is counted under the configured mode and under no
    other, and the grace-period usage rate is 1 when the mode is not
    immediate and a barge-in was completed, and 0 otherwise. *)
Theorem X13_statistics_follow_the_mode (cfg : Config.t) (apis : list api)
    (mode : BargeInMode) :
  let stats := getStatistics (session cfg apis) in
  Statistics.byMode stats mode
  = (if BargeInMode_eqb mode (Config.mode cfg)
     then Statistics.totalBargeIns stats else 0%nat)
  /\ Statistics.gracePeriodUsageRate stats
     = (if (0 <? Statistics.totalBargeIns stats)%nat
           && negb (BargeInMode_eqb (Config.mode cfg) immediate)
        then 1 else 0).
Proof.
  intros stats.
  pose proof (Consistent_session cfg apis) as HC.
  pose proof (cons_events _ HC) as He.
  rewrite config_session in He.
  set (acc0 := {| tallyByMode := fun _ => 0%nat; totalConfidence := 0;
                  gracePeriodUsageCount := 0%nat |}).
  destruct (tally_fold (Config.mode cfg)
              (negb (BargeInMode_eqb (Config.mode cfg) immediate))
              (bargeInHistory (session cfg apis)) He acc0 mode) as [H1 H2].
  unfold stats, getStatistics.
  cbn [Statistics.byMode Statistics.totalBargeIns
       Statistics.gracePeriodUsageRate].
  fold acc0. rewrite H1, H2. cbn [acc0 tallyByMode gracePeriodUsageCount].
  split; [now rewrite Nat.add_0_r|].
  set (n := length (filter isComplete (bargeInHistory (session cfg apis)))).
  destruct (Nat.ltb_spec 0 n) as [Hn|Hn]; [|reflexivity].
  destruct (negb (BargeInMode_eqb (Config.mode cfg) immediate)); cbn [andb].
  - rewrite Nat.add_0_r. apply Rinv_r.
    apply not_0_INR. lia.
  - cbn. unfold Rdiv. apply Rmult_0_l.
Qed.

(** ** Disabled mode *)

(** X14: a manager in disabled mode only keeps track of who is
    speaking: whatever a client calls, it makes no callback, records no
    event, arms no timer and holds no pending barge-in. *)
Theorem X14_disabled_mode_is_silent (cfg : Config.t) (apis : list api) :
  Config.mode cfg = disabled ->
  let m := session cfg apis in
  calls m = [] /\ getHistory m = [] /\ graceTimer m = None
  /\ pendingBargeIn m = None.
Proof.
  intros Hmode. unfold session, getHistory.
  assert (H : forall m,
            Config.mode (config m) = disabled ->
            calls m = [] /\ bargeInHistory m = [] /\ graceTimer m = None
            /\ pendingBargeIn m = None ->
            let m' := fold_left invoke apis m in
            calls m' = [] /\ bargeInHistory m' = [] /\ graceTimer m' = None
            /\ pendingBargeIn m' = None).
  { induction apis as [|a apis IH]; intros m Hm Hq; [exact Hq|].
    cbn [fold_left]. apply IH; [now rewrite config_invoke|].
    destruct Hq as (Hc & Hh & Ht & Hp).
    destruct a as [[s c now|s c now|now]|s p|s b]; cbn [invoke step].
    - unfold onSpeechStart.
      match goal with
      | |- context [withSpeaker m s ?f] => set (m1 := withSpeaker m s f)
      end.
      change (config m1) with (config m). rewrite Hm. cbn [isDisabled].
      destruct (filter _ (getActiveSpeakers m1)); cbn; auto.
    - unfold onSpeechEnd. cbn [withSpeaker pendingBargeIn]. rewrite Hp.
      cbn. auto.
    - unfold timerFires. rewrite Ht. auto.
    - cbn. auto.
    - cbn. auto. }
  apply H; [exact Hmode | cbn; auto].
Qed.

Lemma X14_disabled_mode_is_silent_witness :
  let cfg :=
    {| Config.mode := disabled; Config.gracePeriodMs := 300;
       Config.sentenceCompletionMaxMs := 2000; Config.priority := medium;
       Config.allowPartialInterruption := true;
       Config.duckingEnabled := true; Config.duckingLeadTimeMs := 150 |} in
  let m := session cfg
             [Drive (SpeechStart claude 0.9 0);
              Drive (SpeechStart you 0.9 10)] in
  calls m = [] /\ getHistory m = [] /\ graceTimer m = None
  /\ pendingBargeIn m = None.
Proof.
  intros cfg.
  apply (X14_disabled_mode_is_silent cfg
           [Drive (SpeechStart claude 0.9 0);
            Drive (SpeechStart you 0.9 10)]).
  reflexivity.
Defined.

(** ** What one input does *)

Lemma speakerStates_fold_stopSpeaking (t : list SpeakerId) (x : SpeakerId) :
  forall m,
    speakerStates
      (fold_left (fun m speaker => withSpeaker m speaker stopSpeaking) t m) x
    = if existsb (SpeakerId_eqb x) t then stopSpeaking (speakerStates m x)
      else speakerStates m x.
Proof.
  induction t as [|y t IH]; intros m; [reflexivity|].
  cbn [fold_left existsb]. rewrite IH. cbn [withSpeaker speakerStates].
  destruct (SpeakerId_eqb x y); cbn [orb].
  - now destruct (existsb (SpeakerId_eqb x) t).
  - reflexivity.
Qed.

Lemma speakerStates_executeBargeIn m i t c g now x :
  speakerStates (executeBargeIn m i t c g now) x
  = if existsb (SpeakerId_eqb x) t then stopSpeaking (speakerStates m x)
    else speakerStates m x.
Proof.
  unfold executeBargeIn. cbn [setPending call logEvent speakerStates].
  now rewrite speakerStates_fold_stopSpeaking.
Qed.

Lemma graceTimer_executeBargeIn m i t c g now :
  graceTimer (executeBargeIn m i t c g now) = graceTimer m.
Proof.
  unfold executeBargeIn. cbn [setPending call logEvent graceTimer].
  match goal with
  | |- context [fold_left ?f t ?m0] =>
      destruct (fold_stopSpeaking t m0) as (_ & Hg & _)
  end.
  cbn zeta in Hg. now rewrite Hg.
Qed.

Lemma calls_cancelBargeIn m now :
  calls (cancelBargeIn m now)
  = calls m ++ match pendingBargeIn m with
               | Some _ => [OnBargeInCancelled]
               | None => []
               end.
Proof.
  unfold cancelBargeIn. cbn [setTimer pendingBargeIn].
  destruct (pendingBargeIn m); cbn; [reflexivity | now rewrite app_nil_r].
Qed.

Lemma speakerStates_cancelBargeIn m now :
  speakerStates (cancelBargeIn m now) = speakerStates m.
Proof.
  unfold cancelBargeIn. cbn [setTimer pendingBargeIn].
  now destruct (pendingBargeIn m).
Qed.

Lemma graceTimer_cancelBargeIn m now :
  graceTimer (cancelBargeIn m now) = None.
Proof.
  unfold cancelBargeIn. cbn [setTimer pendingBargeIn].
  now destruct (pendingBargeIn m).
Qed.

Lemma config_cancelBargeIn m now : config (cancelBargeIn m now) = config m.
Proof.
  unfold cancelBargeIn. cbn [setTimer pendingBargeIn].
  now destruct (pendingBargeIn m).
Qed.

Lemma calls_schedule m i t c now d :
  calls (schedule m i t c now d)
  = calls m ++ (if Config.duckingEnabled (config m)
                then [OnDuckingRequest t true] else []).
Proof.
  unfold schedule. cbn [setTimer setPending calls].
  destruct (Config.duckingEnabled (config m)); cbn;
    [reflexivity | now rewrite app_nil_r].
Qed.

Lemma speakerStates_schedule m i t c now d :
  speakerStates (schedule m i t c now d) = speakerStates m.
Proof.
  unfold schedule. cbn [setTimer setPending speakerStates].
  now destruct (Config.duckingEnabled (config m)).
Qed.

Lemma allowedTargets_In m targets x :
  In x (allowedTargets m targets) ->
  Speaker.allowInterruption (speakerStates m x) = true.
Proof. unfold allowedTargets. intros H. now apply filter_In in H. Qed.

Lemma existsb_SpeakerId_In (x : SpeakerId) (t : list SpeakerId) :
  existsb (SpeakerId_eqb x) t = true <-> In x t.
Proof.
  rewrite existsb_exists. split.
  - intros (y & Hy & E). apply SpeakerId_eqb_eq in E. now subst.
  - intros H. exists x. split; [exact H | now apply SpeakerId_eqb_eq].
Qed.

Ltac each_emitted :=
  repeat (apply Forall_cons; [|try apply Forall_nil]).

(** The callbacks of one input are appended to the log, and each of them
    is a cancellation notice, a start or complete notice for speakers
    that allow interruption or that the armed timer captured, or, with
    ducking enabled, a ducking request for such speakers. *)
Lemma calls_step (m : Manager) (i : input) :
  exists new,
    calls (step m i) = calls m ++ new /\ Forall (emittable m) new.
Proof.
  destruct i as [s c now|s c now|now]; cbn [step].
  - unfold onSpeechStart.
    match goal with
    | |- context [withSpeaker m s ?f] => set (m1 := withSpeaker m s f)
    end.
    assert (Hallow : forall x,
              Speaker.allowInterruption (speakerStates m1 x)
              = Speaker.allowInterruption (speakerStates m x)).
    { intros x. cbn. now destruct (SpeakerId_eqb x s). }
    destruct (filter _ (getActiveSpeakers m1)) as [|a l];
      [exists []; now rewrite app_nil_r|].
    destruct (isDisabled _); [exists []; now rewrite app_nil_r|].
    unfold initiateBargeIn.
    destruct (allowedTargets m1 (a :: l)) as [|y t] eqn:Ea;
      [exists []; now rewrite app_nil_r|].
    assert (Horigin : origin m (y :: t)).
    { left. intros x Hx. rewrite <- Hallow. apply (allowedTargets_In m1 (a :: l)).
      now rewrite Ea. }
    destruct (canInterrupt m1 s (y :: t)); cbn [negb];
      [|exists []; now rewrite app_nil_r].
    change (config m1) with (config m).
    destruct (Config.mode (config m)) eqn:Em.
    + rewrite calls_executeBargeIn.
      exists [OnBargeInStart s (y :: t); OnBargeInComplete s (y :: t)].
      split; [reflexivity|].
      each_emitted; right; left; exists s, (y :: t); auto.
    + unfold scheduleGracefulBargeIn. rewrite calls_schedule.
      change (config m1) with (config m).
      destruct (Config.duckingEnabled (config m)) eqn:Ed;
        [|exists []; split; [reflexivity | constructor]].
      exists [OnDuckingRequest (y :: t) true]. split; [reflexivity|].
      each_emitted. right; right. exists (y :: t), true.
      repeat split; auto. left. unfold scheduledDelay. rewrite Em.
      discriminate.
    + unfold scheduleSentenceCompleteBargeIn. rewrite calls_schedule.
      change (config m1) with (config m).
      destruct (Config.duckingEnabled (config m)) eqn:Ed;
        [|exists []; split; [reflexivity | constructor]].
      exists [OnDuckingRequest (y :: t) true]. split; [reflexivity|].
      each_emitted. right; right. exists (y :: t), true.
      repeat split; auto. left. unfold scheduledDelay. rewrite Em.
      discriminate.
    + exists []. now rewrite app_nil_r.
  - unfold onSpeechEnd.
    match goal with
    | |- context [withSpeaker m s ?f] => set (m1 := withSpeaker m s f)
    end.
    destruct (pendingBargeIn m1) as [p|] eqn:Ep;
      [|exists []; now rewrite app_nil_r].
    destruct (SpeakerId_eqb _ _); [|exists []; now rewrite app_nil_r].
    rewrite calls_cancelBargeIn, Ep.
    exists [OnBargeInCancelled]. split; [reflexivity|].
    each_emitted. now left.
  - unfold timerFires.
    destruct (graceTimer m) as [t|] eqn:Et;
      [|exists []; now rewrite app_nil_r].
    assert (Horigin : origin m (Timer.targets t)) by (right; eauto).
    destruct (Speaker.speaking _).
    + rewrite calls_executeBargeIn.
      exists [OnBargeInStart (Timer.interrupter t) (Timer.targets t);
              OnBargeInComplete (Timer.interrupter t) (Timer.targets t)].
      split; [reflexivity|].
      each_emitted; right; left;
        exists (Timer.interrupter t), (Timer.targets t); auto.
    + rewrite config_cancelBargeIn. cbn [setTimer config].
      assert (Hcancel : exists new,
                calls (cancelBargeIn (setTimer m None) now) = calls m ++ new
                /\ Forall (emittable m) new).
      { rewrite calls_cancelBargeIn. cbn [setTimer calls pendingBargeIn].
        destruct (pendingBargeIn m).
        - exists [OnBargeInCancelled]. split; [reflexivity|].
          each_emitted. now left.
        - exists []. split; [reflexivity | constructor]. }
      destruct Hcancel as (new & Hnew & Hall).
      destruct (Config.duckingEnabled (config m)) eqn:Ed;
        [|exists new; auto].
      exists (new ++ [OnDuckingRequest (Timer.targets t) false]).
      cbn [call calls]. rewrite Hnew, app_assoc. split; [reflexivity|].
      apply Forall_app. split; [exact Hall|].
      each_emitted. right; right.
      exists (Timer.targets t), false. repeat split; auto.
      right. rewrite Et. discriminate.
Qed.

(** X15: ducking is requested only by the deferred modes with ducking
    enabled: a session in immediate mode, or with ducking disabled,
    never calls [onDuckingRequest]. *)
Theorem X15_no_ducking_request_without_deferral (cfg : Config.t)
    (apis : list api) :
  Config.mode cfg = immediate \/ Config.duckingEnabled cfg = false ->
  forallb (fun c => negb (isDuckingRequest c)) (calls (session cfg apis))
  = true.
Proof.
  intros Hcfg. unfold session.
  assert (H : forall m,
            Consistent m -> config m = cfg ->
            forallb (fun c => negb (isDuckingRequest c)) (calls m) = true ->
            forallb (fun c => negb (isDuckingRequest c))
              (calls (fold_left invoke apis m)) = true).
  { induction apis as [|a apis IH]; intros m HC Hm Hq; [exact Hq|].
    cbn [fold_left].
    apply IH; [now apply Consistent_invoke | now rewrite config_invoke|].
    destruct a as [i|s p|s b]; cbn [invoke]; try exact Hq.
    destruct (calls_step m i) as (new & -> & Hall).
    rewrite forallb_app, Hq. cbn [andb].
    apply forallb_forall. intros c Hc.
    rewrite Forall_forall in Hall. specialize (Hall c Hc).
    destruct Hall as [->|[(who & t & [->| ->] & _)|
                          (t & en & -> & Hd & Hs & _)]];
      try reflexivity.
    exfalso. rewrite Hm in *.
    destruct Hcfg as [Hi|Hoff]; [|congruence].
    destruct Hs as [Hs|Hs].
    - apply Hs. unfold scheduledDelay. now rewrite Hi.
    - destruct (graceTimer m) as [tm|] eqn:Et; [|now apply Hs].
      destruct (cons_timer m HC tm Et) as (_ & Hdelay & _).
      rewrite Hm in Hdelay. unfold scheduledDelay in Hdelay.
      rewrite Hi in Hdelay. discriminate. }
  apply H; [apply Consistent_create | reflexivity | reflexivity].
Qed.

Lemma X15_no_ducking_request_without_deferral_witness :
  let cfg :=
    {| Config.mode := immediate; Config.gracePeriodMs := 300;
       Config.sentenceCompletionMaxMs := 2000; Config.priority := medium;
       Config.allowPartialInterruption := true;
       Config.duckingEnabled := true; Config.duckingLeadTimeMs := 150 |} in
  forallb (fun c => negb (isDuckingRequest c))
    (calls (session cfg
              [Drive (SpeechStart claude 0.9 0);
               Drive (SpeechStart you 0.9 10)]))
  = true.
Proof.
  intros cfg.
  apply (X15_no_ducking_request_without_deferral cfg
           [Drive (SpeechStart claude 0.9 0);
            Drive (SpeechStart you 0.9 10)]).
  left. reflexivity.
Defined.

(** ** Speakers that do not allow interruption *)

Lemma origin_withSpeaker m s f t :
  (forall st, Speaker.allowInterruption (f st) = Speaker.allowInterruption st) ->
  origin (withSpeaker m s f) t -> origin m t.
Proof.
  intros Hf [H|H]; [left | right; exact H].
  intros x Hx. specialize (H x Hx). cbn in H.
  destruct (SpeakerId_eqb x s); [now rewrite Hf in H | exact H].
Qed.

(** One input leaves every speaker's [allowInterruption] as it is, and
    clears the [speaking] flag of a speaker only at that speaker's own
    speech end or as a target of a barge-in. *)
Lemma speakerStates_step (m : Manager) (i : input) (x : SpeakerId) :
  Speaker.allowInterruption (speakerStates (step m i) x)
  = Speaker.allowInterruption (speakerStates m x)
  /\ (Speaker.speaking (speakerStates m x) = true ->
      (forall c now, i <> SpeechEnd x c now) ->
      Speaker.speaking (speakerStates (step m i) x) = true
      \/ exists t, In x t /\ origin m t).
Proof.
  destruct i as [s c now|s c now|now]; cbn [step].
  - unfold onSpeechStart.
    match goal with
    | |- context [withSpeaker m s ?f] => set (m1 := withSpeaker m s f)
    end.
    assert (Hallow : Speaker.allowInterruption (speakerStates m1 x)
                     = Speaker.allowInterruption (speakerStates m x)).
    { cbn. now destruct (SpeakerId_eqb x s). }
    assert (Hspeak : Speaker.speaking (speakerStates m x) = true ->
                     Speaker.speaking (speakerStates m1 x) = true).
    { cbn. now destruct (SpeakerId_eqb x s). }
    destruct (filter _ (getActiveSpeakers m1)) as [|a l]; [(split; [exact Hallow | intros Hsp _; left; now apply Hspeak])|].
    destruct (isDisabled _); [(split; [exact Hallow | intros Hsp _; left; now apply Hspeak])|].
    unfold initiateBargeIn.
    destruct (allowedTargets m1 (a :: l)) as [|y t] eqn:Ea; [(split; [exact Hallow | intros Hsp _; left; now apply Hspeak])|].
    destruct (canInterrupt m1 s (y :: t)); cbn [negb]; [|(split; [exact Hallow | intros Hsp _; left; now apply Hspeak])].
    destruct (Config.mode (config m1)).
    + rewrite speakerStates_executeBargeIn.
      destruct (existsb (SpeakerId_eqb x) (y :: t)) eqn:Ex; [|(split; [exact Hallow | intros Hsp _; left; now apply Hspeak])].
      split; [exact Hallow|]. intros _ _. right. exists (y :: t).
      split; [now apply existsb_SpeakerId_In|].
      left. intros z Hz.
      assert (Hz' : Speaker.allowInterruption (speakerStates m1 z) = true).
      { apply (allowedTargets_In m1 (a :: l)). now rewrite Ea. }
      cbn in Hz'. now destruct (SpeakerId_eqb z s).
    + unfold scheduleGracefulBargeIn. rewrite speakerStates_schedule.
      (split; [exact Hallow | intros Hsp _; left; now apply Hspeak]).
    + unfold scheduleSentenceCompleteBargeIn.
      rewrite speakerStates_schedule.
      (split; [exact Hallow | intros Hsp _; left; now apply Hspeak]).
    + (split; [exact Hallow | intros Hsp _; left; now apply Hspeak]).
  - unfold onSpeechEnd.
    match goal with
    | |- context [withSpeaker m s ?f] => set (m1 := withSpeaker m s f)
    end.
    assert (Hown : Speaker.allowInterruption (speakerStates m1 x)
                   = Speaker.allowInterruption (speakerStates m x)
                   /\ (Speaker.speaking (speakerStates m x) = true ->
                       (forall c0 now0, SpeechEnd s c now
                                        <> SpeechEnd x c0 now0) ->
                       Speaker.speaking (speakerStates m1 x) = true
                       \/ exists t, In x t /\ origin m t)).
    { cbn. destruct (SpeakerId_eqb x s) eqn:E; [|now split; auto].
      apply SpeakerId_eqb_eq in E. subst x. split; [reflexivity|].
      intros _ Hne. exfalso. now apply (Hne c now). }
    destruct (pendingBargeIn m1); [|exact Hown].
    destruct (SpeakerId_eqb _ _); [|exact Hown].
    now rewrite speakerStates_cancelBargeIn.
  - unfold timerFires.
    destruct (graceTimer m) as [t|] eqn:Et; [|(split; [reflexivity | intros Hsp _; left; exact Hsp])].
    destruct (Speaker.speaking _).
    + rewrite speakerStates_executeBargeIn. cbn [setTimer speakerStates].
      destruct (existsb (SpeakerId_eqb x) (Timer.targets t)) eqn:Ex;
        [|(split; [reflexivity | intros Hsp _; left; exact Hsp])].
      split; [reflexivity|]. intros _ _. right. exists (Timer.targets t).
      split; [now apply existsb_SpeakerId_In|]. right. eauto.
    + assert (E : speakerStates
                    (if Config.duckingEnabled
                          (config (cancelBargeIn (setTimer m None) now))
                     then call (cancelBargeIn (setTimer m None) now)
                            (OnDuckingRequest (Timer.targets t) false)
                     else cancelBargeIn (setTimer m None) now)
                  = speakerStates m).
      { destruct (Config.duckingEnabled _); cbn [call speakerStates];
          now rewrite speakerStates_cancelBargeIn. }
      rewrite E. (split; [reflexivity | intros Hsp _; left; exact Hsp]).
Qed.

(** The timer one input leaves armed is the one that was armed or a new
    one whose targets all allow interruption. *)
Lemma graceTimer_step (m : Manager) (i : input) (t : Timer.t) :
  graceTimer (step m i) = Some t ->
  graceTimer m = Some t
  \/ forall x, In x (Timer.targets t) ->
       Speaker.allowInterruption (speakerStates m x) = true.
Proof.
  destruct i as [s c now|s c now|now]; cbn [step].
  - unfold onSpeechStart.
    match goal with
    | |- context [withSpeaker m s ?f] => set (m1 := withSpeaker m s f)
    end.
    destruct (filter _ (getActiveSpeakers m1)) as [|a l]; [(intros E; left; exact E)|].
    destruct (isDisabled _); [(intros E; left; exact E)|].
    unfold initiateBargeIn.
    destruct (allowedTargets m1 (a :: l)) as [|y l'] eqn:Ea; [(intros E; left; exact E)|].
    destruct (canInterrupt m1 s (y :: l')); cbn [negb]; [|(intros E; left; exact E)].
    assert (Hnew : forall x, In x (y :: l') ->
              Speaker.allowInterruption (speakerStates m x) = true).
    { intros z Hz.
      assert (Hz' : Speaker.allowInterruption (speakerStates m1 z) = true).
      { apply (allowedTargets_In m1 (a :: l)). now rewrite Ea. }
      cbn in Hz'. now destruct (SpeakerId_eqb z s). }
    destruct (Config.mode (config m1)).
    + rewrite graceTimer_executeBargeIn. (intros E; left; exact E).
    + cbn. intros E. injection E as <-. right. exact Hnew.
    + cbn. intros E. injection E as <-. right. exact Hnew.
    + (intros E; left; exact E).
  - unfold onSpeechEnd.
    match goal with
    | |- context [withSpeaker m s ?f] => set (m1 := withSpeaker m s f)
    end.
    destruct (pendingBargeIn m1); [|(intros E; left; exact E)].
    destruct (SpeakerId_eqb _ _); [|(intros E; left; exact E)].
    rewrite graceTimer_cancelBargeIn. discriminate.
  - unfold timerFires.
    destruct (graceTimer m) as [t0|] eqn:Et; [|intros E; congruence].
    destruct (Speaker.speaking _).
    + rewrite graceTimer_executeBargeIn. discriminate.
    + destruct (Config.duckingEnabled _); cbn [call graceTimer];
        rewrite graceTimer_cancelBargeIn; discriminate.
Qed.

Lemma shielded_origin m s t : shielded m s -> origin m t -> ~ In s t.
Proof.
  intros [Hallow Htimer] [H|(tm & Et & ->)] Hin.
  - specialize (H s Hin). congruence.
  - now apply (Htimer tm Et).
Qed.

Lemma shielded_step m s i : shielded m s -> shielded (step m i) s.
Proof.
  intros Hs. pose proof Hs as [Hallow Htimer]. split.
  - now rewrite (proj1 (speakerStates_step m i s)).
  - intros t Et. destruct (graceTimer_step m i t Et) as [H|H].
    + now apply Htimer.
    + intros Hin. specialize (H s Hin). congruence.
Qed.

Lemma mentions_In s c : mentions s c = true -> exists t,
  In s t /\ (c = OnBargeInCancelled -> False)
  /\ ((exists who, c = OnBargeInStart who t \/ c = OnBargeInComplete who t)
      \/ exists enable, c = OnDuckingRequest t enable).
Proof.
  destruct c as [who t|who t| |t en]; cbn [mentions]; try discriminate;
    intros H; apply existsb_SpeakerId_In in H; exists t;
    (split; [exact H|]); (split; [discriminate|]); eauto.
Qed.

(** X16: a speaker that does not allow interruption is out of reach of
    every barge-in: provided no timer armed earlier still names the
    speaker, no callback the manager makes from then on lists the
    speaker among the interrupted or ducked, and the speaker stays
    marked as speaking until the speaker's own speech end. *)
Theorem X16_shielded_speaker_is_never_interrupted (m : Manager)
    (s : SpeakerId) (inputs : list input) :
  Speaker.allowInterruption (speakerStates m s) = false ->
  (forall t, graceTimer m = Some t -> ~ In s (Timer.targets t)) ->
  (exists new,
     calls (run m inputs) = calls m ++ new
     /\ forallb (fun c => negb (mentions s c)) new = true)
  /\ (Speaker.speaking (speakerStates m s) = true ->
      (forall c now, ~ In (SpeechEnd s c now) inputs) ->
      Speaker.speaking (speakerStates (run m inputs) s) = true).
Proof.
  intros Hallow Htimer.
  assert (Hs : shielded m s) by (split; assumption).
  clear Hallow Htimer. revert m Hs.
  unfold run. induction inputs as [|i inputs IH]; intros m Hs.
  - split; [exists []; now rewrite app_nil_r | auto].
  - cbn [fold_left].
    destruct (IH (step m i) (shielded_step m s i Hs))
      as [(new & Hnew & Hfree) Hkeep].
    split.
    + destruct (calls_step m i) as (first & Hfirst & Hall).
      exists (first ++ new). rewrite Hnew, Hfirst, app_assoc.
      split; [reflexivity|]. rewrite forallb_app, Hfree, andb_true_r.
      apply forallb_forall. intros c Hc.
      rewrite Forall_forall in Hall. specialize (Hall c Hc).
      destruct (mentions s c) eqn:Em; [|reflexivity]. exfalso.
      destruct (mentions_In s c Em) as (t & Hin & Hnc & Hshape).
      destruct Hall as [->|[(who & t' & Hc' & Ho)|(t' & en & -> & _ & _ & Ho)]].
      * now apply Hnc.
      * apply (shielded_origin m s t' Hs Ho).
        destruct Hshape as [(who' & [E|E])|(en & E)], Hc' as [E'|E'];
          rewrite E in E'; try discriminate E';
          injection E' as _ Ht; rewrite <- Ht; exact Hin.
      * apply (shielded_origin m s t' Hs Ho).
        destruct Hshape as [(who' & [E|E])|(en' & E)]; try discriminate E.
        injection E as Ht _. rewrite Ht. exact Hin.
    + intros Hsp Hno. apply Hkeep.
      * destruct (proj2 (speakerStates_step m i s) Hsp) as [H|(t & Hin & Ho)].
        -- intros c now E. apply (Hno c now). left. exact E.
        -- exact H.
        -- exfalso. now apply (shielded_origin m s t Hs Ho).
      * intros c now Hin. apply (Hno c now). now right.
Qed.

Lemma X16_shielded_speaker_is_never_interrupted_witness :
  let m := run (setAllowInterruption (create defaults) claude false)
             [SpeechStart claude 0.9 0] in
  let inputs := [SpeechStart you 0.9 10; TimerFires 310] in
  (exists new,
     calls (run m inputs) = calls m ++ new
     /\ forallb (fun c => negb (mentions claude c)) new = true)
  /\ (Speaker.speaking (speakerStates m claude) = true ->
      (forall c now, ~ In (SpeechEnd claude c now) inputs) ->
      Speaker.speaking (speakerStates (run m inputs) claude) = true).
Proof.
  intros m inputs.
  apply (X16_shielded_speaker_is_never_interrupted m claude inputs).
  - reflexivity.
  - intros t E. discriminate E.
Defined.

(** ** The timer's callback *)





End BargeInExtras.


(* ================================================================== *)
(** * Further properties of the voice activity detectors *)
(* ================================================================== *)

Module VadExtras.

Import Vad VadFacts.
Local Open Scope R_scope.

(** ** The callback log and the speaking flag *)

Lemma afterCalls_app (a b : list Callback) :
  forall s,
    afterCalls s (a ++ b)
    = match afterCalls s a with
      | Some s' => afterCalls s' b
      | None => None
      end.
Proof.
  induction a as [|c a IH]; intros s; [reflexivity|].
  destruct c; cbn [app afterCalls]; destruct s; auto.
Qed.

Lemma afterCalls_processEnergy (d : Detector) (rms : R) :
  afterCalls false (calls d) = Some (speaking d) ->
  afterCalls false (calls (processEnergy d rms))
  = Some (speaking (processEnergy d rms)).
Proof.
  intros H. unfold processEnergy.
  set (m := measured d rms).
  assert (Hm : afterCalls false (calls m) = Some (speaking m)) by exact H.
  clearbody m.
  assert (Hd : afterCalls false (calls (decide m rms))
               = Some (speaking (decide m rms))).
  { unfold decide.
    destruct (region rms (effectiveThreshold m) (releaseThreshold m)).
    - destruct (negb (speaking m) && _ && _) eqn:E;
        cbn [withMachine update calls speaking]; [|exact Hm].
      rewrite afterCalls_app, Hm.
      destruct (speaking m); [discriminate E | reflexivity].
    - destruct (speaking m) eqn:Es.
      + destruct (minSilenceFrames m <=? _)%nat;
          cbn [withMachine update calls speaking]; [|now rewrite Hm].
        now rewrite afterCalls_app, Hm.
      + cbn [withMachine update calls speaking]. now rewrite Hm.
    - exact Hm. }
  unfold notify. destruct (confidenceEnabled (decide m rms)); [|exact Hd].
  cbn [withMachine update calls speaking].
  now rewrite afterCalls_app, Hd.
Qed.

Lemma afterCalls_feed (energies : list R) :
  forall d,
    afterCalls false (calls d) = Some (speaking d) ->
    afterCalls false (calls (feed d energies))
    = Some (speaking (feed d energies)).
Proof.
  induction energies as [|rms energies IH]; intros d H; [exact H|].
  cbn [feed]. apply IH. now apply afterCalls_processEnergy.
Qed.

(** X18: the enhanced detector's notices tell the truth about its
    state: whatever the options and whatever audio is processed, speech
    start and speech end notices alternate, a start first, and the
    [speaking] flag is true exactly when the last of them is a start. *)
Theorem X18_notices_alternate (options : Options.t)
    (buffers : list Buffer.t) :
  let d := run (create options) (map ProcessAudio buffers) in
  afterCalls false (calls d) = Some (speaking d).
Proof.
  cbn zeta. unfold run.
  assert (H : forall d,
            afterCalls false (calls d) = Some (speaking d) ->
            afterCalls false
              (calls (fold_left perform (map ProcessAudio buffers) d))
            = Some (speaking
                      (fold_left perform (map ProcessAudio buffers) d))).
  { induction buffers as [|b buffers IH]; intros d Hd; [exact Hd|].
    cbn [map fold_left]. apply IH. cbn [perform].
    rewrite processAudio_feed. now apply afterCalls_feed. }
  apply H. reflexivity.
Qed.

(** ** Histories *)

Lemma pushBounded_length (h : list R) (x : R) :
  (length h <= maxHistoryFrames)%nat ->
  (length (pushBounded h x) <= maxHistoryFrames)%nat.
Proof.
  intros H. unfold pushBounded.
  destruct (Nat.ltb_spec maxHistoryFrames (length (h ++ [x]))) as [Hlt|Hle];
    [|exact Hle].
  rewrite length_app in Hlt. cbn in Hlt.
  destruct h as [|y h]; cbn in *; [lia|].
  rewrite length_app. cbn. lia.
Qed.

Lemma histories_processEnergy (d : Detector) (rms : R) :
  (length (energyHistory d) <= maxHistoryFrames)%nat
  /\ (length (confidenceHistory d) <= maxHistoryFrames)%nat ->
  (length (energyHistory (processEnergy d rms)) <= maxHistoryFrames)%nat
  /\ (length (confidenceHistory (processEnergy d rms))
      <= maxHistoryFrames)%nat.
Proof.
  intros [He Hc].
  assert (Hm : (length (energyHistory (measured d rms))
                <= maxHistoryFrames)%nat
               /\ (length (confidenceHistory (measured d rms))
                   <= maxHistoryFrames)%nat).
  { unfold measured. cbn [update energyHistory confidenceHistory].
    split; [now apply pushBounded_length|].
    destruct (confidenceEnabled d); [now apply pushBounded_length | exact Hc]. }
  unfold processEnergy. set (m := measured d rms) in *. clearbody m.
  assert (Hd : energyHistory (decide m rms) = energyHistory m
               /\ confidenceHistory (decide m rms) = confidenceHistory m).
  { unfold decide. destruct_matches; split; reflexivity. }
  destruct Hd as [Hd1 Hd2].
  unfold notify. destruct (confidenceEnabled (decide m rms));
    cbn [withMachine update energyHistory confidenceHistory];
    now rewrite Hd1, Hd2.
Qed.

(** X19: the energy and confidence histories of the enhanced detector
    never hold more than fifty frames, whatever the options and whatever
    sequence of [processAudio] and [reset] calls is made. *)
Theorem X19_histories_are_bounded (options : Options.t) (ops : list op) :
  let d := run (create options) ops in
  (length (energyHistory d) <= 50)%nat
  /\ (length (confidenceHistory d) <= 50)%nat.
Proof.
  cbn zeta. unfold run.
  assert (H : forall d,
            (length (energyHistory d) <= maxHistoryFrames)%nat
            /\ (length (confidenceHistory d) <= maxHistoryFrames)%nat ->
            (length (energyHistory (fold_left perform ops d))
             <= maxHistoryFrames)%nat
            /\ (length (confidenceHistory (fold_left perform ops d))
                <= maxHistoryFrames)%nat).
  { induction ops as [|o ops IH]; intros d Hd; [exact Hd|].
    cbn [fold_left]. apply IH. destruct o as [buffer|]; cbn [perform].
    - rewrite processAudio_feed.
      generalize (chunkEnergies d buffer). intros energies.
      revert d Hd. induction energies as [|rms energies IHe]; intros d Hd;
        [exact Hd|].
      cbn [feed]. apply IHe. now apply histories_processEnergy.
    - cbn. unfold maxHistoryFrames. lia. }
  apply H. cbn. unfold maxHistoryFrames. lia.
Qed.

(** ** Digital silence *)

Lemma readInt16LE_zeros (n off : nat) :
  readInt16LE (repeat x00 n) off = None
  \/ readInt16LE (repeat x00 n) off = Some 0%Z.
Proof.
  unfold readInt16LE.
  destruct (nth_error (repeat x00 n) off) as [a|] eqn:Ea; [|now left].
  destruct (nth_error (repeat x00 n) (S off)) as [b|] eqn:Eb; [|now left].
  right.
  apply nth_error_In, repeat_spec in Ea.
  apply nth_error_In, repeat_spec in Eb. subst. reflexivity.
Qed.

Lemma energyLoop_zeros (size : nat) :
  forall n startByte i,
    energyLoop size (repeat x00 n) startByte i 0 = 0.
Proof.
  induction size as [|size IH]; intros n startByte i; [reflexivity|].
  cbn [energyLoop].
  destruct (length (repeat x00 n) <=? startByte + i * 2 + 1)%nat;
    [reflexivity|].
  destruct (readInt16LE_zeros n (startByte + i * 2)) as [E|E]; rewrite E;
    [reflexivity|].
  replace (0 + 0 / 32768 * (0 / 32768)) with 0 by (unfold Rdiv; ring).
  apply IH.
Qed.

Lemma computeRms_zeros (n startSample frameSize : nat) :
  computeRms (repeat x00 n) startSample frameSize = 0.
Proof.
  unfold computeRms. rewrite energyLoop_zeros.
  replace (0 / INR frameSize) with 0 by (unfold Rdiv; ring).
  apply sqrt_0.
Qed.

Lemma silent_region (d : Detector) :
  Inv d -> adaptiveThreshold d = true -> regionOf d 0 = BelowRelease.
Proof.
  intros HI Ha. unfold regionOf.
  pose proof (Inv_measured d 0 HI) as [Hf Hh Hc].
  assert (Hs : speechThreshold (measured d 0) = noiseFloor (measured d 0) * 2.5).
  { unfold measured. cbn [update speechThreshold noiseFloor].
    now rewrite Ha. }
  assert (Hr : releaseThreshold (measured d 0)
               = noiseFloor (measured d 0) * (2.5 * 0.6)).
  { unfold measured. cbn [update releaseThreshold noiseFloor].
    now rewrite Ha. }
  set (m := measured d 0) in *. clearbody m.
  assert (He : 0 < effectiveThreshold m).
  { unfold effectiveThreshold. destruct (confidenceEnabled m); nra. }
  unfold region. rewrite Rleb_false by exact He.
  rewrite Rleb_true by lra. reflexivity.
Qed.

Lemma silent_step (d : Detector) :
  Inv d -> adaptiveThreshold d = true ->
  speaking (processEnergy d 0)
  = speaking d && negb (minSilenceFrames d <=? S (silenceFrameCount d))%nat
  /\ (speaking (processEnergy d 0) = true ->
      silenceFrameCount (processEnergy d 0) = S (silenceFrameCount d))
  /\ minSilenceFrames (processEnergy d 0) = minSilenceFrames d.
Proof.
  intros HI Ha. pose proof (silent_region d HI Ha) as Hr.
  unfold regionOf in Hr. unfold processEnergy.
  assert (Hm : speaking (measured d 0) = speaking d
               /\ silenceFrameCount (measured d 0) = silenceFrameCount d
               /\ minSilenceFrames (measured d 0) = minSilenceFrames d)
    by (repeat split).
  destruct Hm as (Hm1 & Hm2 & Hm3).
  set (m := measured d 0) in *. clearbody m.
  assert (Hn : forall x, speaking (notify x) = speaking x
                         /\ silenceFrameCount (notify x) = silenceFrameCount x
                         /\ minSilenceFrames (notify x) = minSilenceFrames x).
  { intros x. unfold notify. destruct (confidenceEnabled x); repeat split. }
  destruct (Hn (decide m 0)) as (-> & -> & ->).
  unfold decide. rewrite Hr, Hm1, Hm2, Hm3.
  destruct (speaking d); cbn [andb].
  - destruct (minSilenceFrames d <=? S (silenceFrameCount d))%nat;
      cbn [withMachine update speaking silenceFrameCount minSilenceFrames negb];
      repeat split; try discriminate; exact Hm3.
  - cbn [withMachine update speaking silenceFrameCount minSilenceFrames].
    repeat split; try discriminate; exact Hm3.
Qed.

Lemma silent_feed (k : nat) :
  forall d,
    Inv d -> adaptiveThreshold d = true ->
    speaking d = false
    \/ ((minSilenceFrames d <= k + silenceFrameCount d)%nat /\ (1 <= k)%nat) ->
    speaking (feed d (repeat 0 k)) = false.
Proof.
  induction k as [|k IH]; intros d HI Ha Hcase.
  - destruct Hcase as [H|[_ H]]; [exact H | lia].
  - cbn [repeat feed].
    destruct (silent_step d HI Ha) as (Hs & Hc & Hmin).
    apply IH.
    + now apply Inv_processEnergy.
    + now rewrite (proj1 (readonly_processEnergy d 0)).
    + destruct (speaking (processEnergy d 0)) eqn:Es; [right | now left].
      specialize (Hc eq_refl). rewrite Hc, Hmin.
      symmetry in Hs. apply andb_true_iff in Hs. destruct Hs as [Hsp Hlt].
      apply negb_true_iff, Nat.leb_gt in Hlt.
      destruct Hcase as [H|[H _]]; [congruence|].
      split; [lia|]. destruct k; lia.
Qed.

Lemma adaptive_run (ops : list op) :
  forall d, adaptiveThreshold (run d ops) = adaptiveThreshold d
            /\ minSilenceFrames (run d ops) = minSilenceFrames d.
Proof.
  unfold run. induction ops as [|o ops IH]; intros d; [split; reflexivity|].
  cbn [fold_left]. destruct (IH (perform d o)) as [-> ->].
  destruct o as [buffer|]; cbn [perform]; [|split; reflexivity].
  rewrite processAudio_feed. generalize (chunkEnergies d buffer).
  intros energies. revert d.
  induction energies as [|rms energies IHe]; intros d; [split; reflexivity|].
  cbn [feed]. destruct (IHe (processEnergy d rms)) as [-> ->].
  split; [apply readonly_processEnergy|].
  unfold processEnergy, notify, decide, measured.
  destruct_matches; reflexivity.
Qed.

(** X21: digital silence and the default enhanced detector.  A frame of
    zero bytes has energy 0; whatever the detector went through before,
    frames of energy 0 never start speech, and eleven of them (the 220
    ms of [minSilenceMs]) always end it. *)
Theorem X21_silence_ends_speech (ops : list op) (k : nat) :
  let d := run (create noOptions) ops in
  (forall n startSample frameSize,
     computeRms (repeat x00 n) startSample frameSize = 0)
  /\ (speaking d = false -> speaking (feed d (repeat 0 k)) = false)
  /\ ((11 <= k)%nat -> speaking (feed d (repeat 0 k)) = false).
Proof.
  intros d.
  assert (HI : Inv d) by (apply Inv_run, Inv_create_default).
  destruct (adaptive_run ops (create noOptions)) as [Ha Hmin].
  fold d in Ha, Hmin. cbn [create noOptions orElse adaptiveThreshold] in Ha.
  assert (H11 : minSilenceFrames d = 11%nat).
  { rewrite Hmin.
    change (minSilenceFrames (create noOptions))
      with (Z.to_nat (Z.max 1 (Int_part (220 / 20)))).
    replace (220 / 20) with (IZR 11) by lra.
    now rewrite Int_part_IZR. }
  split; [apply computeRms_zeros|]. split.
  - intros Hs. apply silent_feed; auto.
  - intros Hk. apply silent_feed; auto. right. rewrite H11. lia.
Qed.

End VadExtras.

(* ================================================================== *)
(** * The lightweight detector and the enhanced one *)
(* ================================================================== *)

Module VadDetectorExtras.

Import VadDetector.
Local Open Scope R_scope.

Lemma Agree_create (options : Options.t) :
  Agree (create options) (Vad.create (enhancedOptions options)).
Proof. constructor; reflexivity. Qed.

Lemma Agree_measured (b : Detector) (e : Vad.Detector) (rms : R) :
  Agree b e -> Agree b (Vad.measured e rms).
Proof.
  intros [H1 H2 H3 H4 H5 H6 H7 H8 H9 H10 H11].
  unfold Vad.measured. rewrite H6, H7.
  constructor; cbn; assumption.
Qed.

Lemma Agree_decide (b : Detector) (m : Vad.Detector) (rms : R) :
  Agree b m -> Agree (processEnergy b rms) (Vad.decide m rms).
Proof.
  intros [H1 H2 H3 H4 H5 H6 H7 H8 H9 H10 H11].
  unfold processEnergy, Vad.decide, Vad.region, Vad.effectiveThreshold.
  rewrite H7, <- H2, <- H3, <- H4, <- H5, <- H8, <- H9, <- H10.
  cbn [negb orb andb].
  destruct (Vad.Rleb (speechThreshold b) rms).
  - rewrite andb_true_r.
    destruct (negb (speaking b) && (minSpeechFrames b <=? _)%nat);
      constructor; cbn; try assumption; try reflexivity.
    rewrite H11, map_app. reflexivity.
  - destruct (Vad.Rleb rms (releaseThreshold b)).
    + destruct (speaking b) eqn:Es.
      * destruct (minSilenceFrames b <=? _)%nat;
          constructor; cbn; try assumption; try reflexivity.
        rewrite H11, map_app. reflexivity.
      * constructor; cbn; try assumption; reflexivity.
    + constructor; cbn; try assumption; reflexivity.
Qed.

Lemma Agree_processEnergy (b : Detector) (e : Vad.Detector) (rms : R) :
  Agree b e -> Agree (processEnergy b rms) (Vad.processEnergy e rms).
Proof.
  intros H. unfold Vad.processEnergy.
  pose proof (Agree_decide b (Vad.measured e rms) rms
                (Agree_measured b e rms H)) as Hd.
  unfold Vad.notify. now rewrite (agree_confidence _ _ Hd).
Qed.

Lemma energyLoop_in_range (n : nat) :
  forall (buffer : Buffer.t) (startByte i : nat) (energy : R),
    (startByte + 2 * (i + n) <= length buffer)%nat ->
    energyLoop n buffer startByte i energy
    = Ok (Vad.energyLoop n buffer startByte i energy).
Proof.
  induction n as [|n IH]; intros buffer startByte i energy Hlen;
    [reflexivity|].
  cbn [energyLoop Vad.energyLoop].
  destruct (Nat.leb_spec (length buffer) (startByte + i * 2 + 1)) as [Hle|_];
    [lia|].
  destruct (AudioProcessorFacts.readInt16LE_in_range buffer
              (startByte + i * 2)) as [sample Hs]; [lia|].
  rewrite Hs. apply IH. lia.
Qed.

Lemma computeRms_in_range (buffer : Buffer.t) (startSample frameSize : nat) :
  (2 * (startSample + frameSize) <= length buffer)%nat ->
  computeRms buffer startSample frameSize
  = Ok (Vad.computeRms buffer startSample frameSize).
Proof.
  intros H. unfold computeRms, Vad.computeRms.
  now rewrite energyLoop_in_range by lia.
Qed.

Lemma frameLoop_agrees (buffer : Buffer.t) (sampleCount : nat)
    (fuel : nat) :
  length buffer = (2 * sampleCount)%nat ->
  forall (b : Detector) (e : Vad.Detector) (offset : Z),
    Agree b e -> (0 <= offset)%Z ->
    exists b',
      frameLoop fuel b buffer offset (Z.of_nat sampleCount) = Ok b'
      /\ Agree b'
           (Vad.frameLoop fuel e buffer offset (Z.of_nat sampleCount)).
Proof.
  intros Hlen. induction fuel as [|fuel IH]; intros b e offset HA Hoff.
  - exists b. split; [reflexivity | exact HA].
  - cbn [frameLoop Vad.frameLoop].
    rewrite <- (agree_samples b e HA).
    destruct (Z.ltb_spec offset (Z.of_nat sampleCount)) as [Hlt|Hge];
      [|exists b; split; [reflexivity | exact HA]].
    destruct (Z.leb_spec
                (Z.min (frameSamples b) (Z.of_nat sampleCount - offset)) 0)
      as [Hz|Hpos];
      [exists b; split; [reflexivity | exact HA]|].
    rewrite computeRms_in_range by lia.
    unfold Vad.processFrame.
    set (rms := Vad.computeRms buffer (Z.to_nat offset) _).
    destruct (IH (processEnergy b rms) (Vad.processEnergy e rms)
                (offset + frameSamples b)%Z
                (Agree_processEnergy b e rms HA) ltac:(lia))
      as (b' & Hrun & HA').
    exists b'. split; [exact Hrun | exact HA'].
Qed.

Lemma processAudio_agrees (b : Detector) (e : Vad.Detector)
    (buffer : Buffer.t) :
  Agree b e ->
  exists b',
    processAudio b buffer = Ok b' /\ Agree b' (Vad.processAudio e buffer).
Proof.
  intros HA. unfold processAudio, Vad.processAudio.
  destruct (length buffer =? 0)%nat;
    [exists b; split; [reflexivity | exact HA]|].
  destruct (Nat.odd (length buffer)) eqn:Eo;
    [exists b; split; [reflexivity | exact HA]|].
  apply frameLoop_agrees; [|exact HA | lia].
  pose proof (Nat.div2_odd (length buffer)) as H.
  rewrite Eo in H. cbn in H. lia.
Qed.

Lemma Agree_reset (b : Detector) (e : Vad.Detector) :
  Agree b e -> Agree (reset b) (Vad.reset e).
Proof.
  intros [H1 H2 H3 H4 H5 H6 H7 H8 H9 H10 H11].
  constructor; cbn; assumption || reflexivity.
Qed.

(** X20: the lightweight detector is the enhanced detector with
    adaptive thresholds and confidence scoring switched off: for all
    options and every sequence of [processAudio] and [reset] calls the
    lightweight detector never throws (its unguarded sample reads stay
    inside the chunk), and it ends with the same frame counters and
    speaking flag and has made the same speech start and speech end
    calls as the enhanced detector, which reports its fixed confidence
    0.8 with each. *)
Theorem X20_lightweight_detector_is_the_plain_enhanced_one
    (options : Options.t) (ops : list op) :
  exists d,
    run (create options) ops = Ok d
    /\ Agree d (Vad.run (Vad.create (enhancedOptions options))
                  (map enhancedOp ops)).
Proof.
  unfold Vad.run.
  assert (H : forall b e, Agree b e ->
            exists d,
              run b ops = Ok d
              /\ Agree d (fold_left Vad.perform (map enhancedOp ops) e)).
  { induction ops as [|o ops IH]; intros b e HA.
    - exists b. split; [reflexivity | exact HA].
    - cbn [run map fold_left]. destruct o as [buffer|]; cbn [perform].
      + destruct (processAudio_agrees b e buffer HA) as (b' & Hb & HA').
        rewrite Hb. now apply IH.
      + apply IH. now apply Agree_reset. }
  apply H, Agree_create.
Qed.

End VadDetectorExtras.


(* ================================================================== *)
(** * Further properties of the orchestrator's handlers *)
(* ================================================================== *)

Module SessionExtras.

Import Shared Orchestrator Session.
Local Open Scope R_scope.

Lemma orbStates_updateOrbState (st : State) (speaker s : SpeakerId)
    (state : OrbState) :
  orbStates (updateOrbState st speaker state) s
  = if SpeakerId_eqb s speaker then state else orbStates st s.
Proof.
  unfold updateOrbState.
  destruct (OrbState_eqb (orbStates st speaker) state) eqn:E;
    [|reflexivity].
  destruct (SpeakerId_eqb s speaker) eqn:Es; [|reflexivity].
  assert (s = speaker) by (destruct s, speaker; congruence || discriminate).
  subst. destruct (orbStates st speaker), state; congruence || discriminate.
Qed.

Lemma rest_updateOrbState (st : State) (speaker : SpeakerId)
    (state : OrbState) :
  captions (updateOrbState st speaker state) = captions st
  /\ autopilot (updateOrbState st speaker state) = autopilot st
  /\ sharedScreen (updateOrbState st speaker state) = sharedScreen st.
Proof.
  unfold updateOrbState.
  destruct (OrbState_eqb (orbStates st speaker) state); repeat split.
Qed.

Ltac orbs :=
  repeat (rewrite orbStates_updateOrbState; cbn [SpeakerId_eqb]).

Ltac rest :=
  repeat match goal with
         | |- context [captions (updateOrbState ?st ?sp ?x)] =>
             rewrite (proj1 (rest_updateOrbState st sp x))
         | |- context [autopilot (updateOrbState ?st ?sp ?x)] =>
             rewrite (proj1 (proj2 (rest_updateOrbState st sp x)))
         | |- context [sharedScreen (updateOrbState ?st ?sp ?x)] =>
             rewrite (proj2 (proj2 (rest_updateOrbState st sp x)))
         end.

(** ** Ducking and the human's speech *)

Lemma ducking_handle (s s' : State * SessionContext) (ev : event) :
  duckingActive (snd s) = humanSpeaking (snd s) ->
  handle s ev = Ok s' ->
  duckingActive (snd s') = humanSpeaking (snd s').
Proof.
  destruct s as [st ctx]. cbn [snd]. intros H.
  destruct ev as [| |speaker chunk|speaker|speaker|speaker]; cbn [handle].
  - unfold handleHumanSpeechStart. destruct (humanSpeaking ctx) eqn:Eh;
      intros E; injection E as <-; cbn [snd duckingActive humanSpeaking];
      congruence.
  - unfold handleHumanSpeechEnd. destruct (humanSpeaking ctx) eqn:Eh;
      intros E; injection E as <-;
      cbn [negb snd duckingActive humanSpeaking]; congruence.
  - unfold handleTtsAudioChunk.
    destruct (if duckingActive ctx then _ else _); [|discriminate].
    destruct (negb _); intros E; injection E as <-; exact H.
  - unfold handleTtsComplete. destruct (negb _);
      intros E; injection E as <-; exact H.
  - unfold handleTtsError. intros E; injection E as <-; exact H.
  - unfold playbackStopped. destruct (negb _);
      intros E; injection E as <-; exact H.
Qed.

Lemma handle_total (s : State * SessionContext) (ev : event) :
  exists s', handle s ev = Ok s'.
Proof.
  destruct s as [st ctx].
  destruct ev as [| |speaker chunk|speaker|speaker|speaker]; cbn [handle];
    eauto.
  unfold handleTtsAudioChunk.
  destruct (AudioProcessorFacts.applyGain_spec chunk duckingGain)
    as (out & Ho & _).
  destruct (duckingActive ctx); [rewrite Ho|];
    destruct (negb _); eauto.
Qed.

(** X22: agent audio is ducked exactly while the human is speaking.
    No sequence of speech, playback and TTS events makes a handler
    throw; in the session it leads to, ducking is active exactly when
    the human is marked as speaking; and the next TTS chunk of any
    length is recorded scaled by the ducking gain (same length) when the
    human is speaking and untouched otherwise, its speaker being active
    afterwards. *)
Theorem X22_ducking_follows_human_speech (st0 : State)
    (evs : list event) (speaker : SpeakerId) (audioChunk : Buffer.t) :
  exists st ctx gained st' ctx',
    run (st0, createSession) evs = Ok (st, ctx)
    /\ duckingActive ctx = humanSpeaking ctx
    /\ applyGain audioChunk duckingGain = Ok gained
    /\ length gained = length audioChunk
    /\ handleTtsAudioChunk st ctx speaker audioChunk = Ok (st', ctx')
    /\ recorded ctx'
       = recorded ctx
         ++ [(speaker, if humanSpeaking ctx then gained else audioChunk)]
    /\ has (activeAgentSpeakers ctx') speaker = true.
Proof.
  assert (Hrun : forall s,
            duckingActive (snd s) = humanSpeaking (snd s) ->
            exists s', run s evs = Ok s'
                       /\ duckingActive (snd s') = humanSpeaking (snd s')).
  { induction evs as [|e rest IH]; intros s Hs;
      [exists s; split; [reflexivity | exact Hs]|].
    cbn [run]. destruct (handle_total s e) as [s1 H1]. rewrite H1.
    apply IH. exact (ducking_handle s s1 e Hs H1). }
  destruct (Hrun (st0, createSession) eq_refl) as ([st ctx] & Hr & Hd).
  cbn [snd] in Hd.
  destruct (AudioProcessorFacts.applyGain_spec audioChunk duckingGain)
    as (gained & Hg & Hl & _).
  assert (Hhas : forall set, has (add set speaker) speaker = true).
  { intros set. unfold add. destruct (has set speaker) eqn:E; [exact E|].
    unfold has. rewrite existsb_app. cbn.
    destruct speaker; cbn; now rewrite orb_true_r. }
  set (processed := if humanSpeaking ctx then gained else audioChunk).
  assert (Hchunk : (if duckingActive ctx
                    then applyGain audioChunk duckingGain
                    else Ok audioChunk) = Ok processed).
  { rewrite Hd. unfold processed.
    destruct (humanSpeaking ctx); [exact Hg | reflexivity]. }
  assert (Hstep : exists st' ctx',
            handleTtsAudioChunk st ctx speaker audioChunk = Ok (st', ctx')
            /\ recorded ctx' = recorded ctx ++ [(speaker, processed)]
            /\ has (activeAgentSpeakers ctx') speaker = true).
  { unfold handleTtsAudioChunk. rewrite Hchunk.
    destruct (has (activeAgentSpeakers ctx) speaker) eqn:Eh; cbn [negb];
      eexists; eexists; (split; [reflexivity|]);
      cbn [recorded activeAgentSpeakers]; (split; [reflexivity|]);
      [exact Eh | apply Hhas]. }
  destruct Hstep as (st' & ctx' & H1 & H2 & H3).
  exists st, ctx, gained, st', ctx'.
  repeat split; assumption.
Qed.

(** ** Human speech: start, then end *)

(** X23: a human turn leaves the agents' orbs as it found them.  When
    the human starts speaking, ducking goes on, every active agent is
    asked to stop and is no longer active, the human's orb shows
    speaking and both agents' orbs muted; when the human then stops,
    ducking goes off, the human's orb shows listening and each agent's
    orb is again what it was before the turn, the interrupted agents
    included; captions, autopilot and the shared screen are untouched. *)
Theorem X23_human_turn_round_trip (st : State) (ctx : SessionContext) :
  humanSpeaking ctx = false ->
  let during := handleHumanSpeechStart st ctx in
  let after := handleHumanSpeechEnd (fst during) (snd during) in
  (humanSpeaking (snd during) = true
   /\ duckingActive (snd during) = true
   /\ activeAgentSpeakers (snd during) = []
   /\ stopRequests (snd during)
      = (stopRequests ctx ++ activeAgentSpeakers ctx)%list
   /\ orbStates (fst during) you = speaking
   /\ orbStates (fst during) claude = muted
   /\ orbStates (fst during) guest = muted)
  /\ (humanSpeaking (snd after) = false
      /\ duckingActive (snd after) = false
      /\ orbRestore (snd after) = None
      /\ orbStates (fst after) you = listening
      /\ orbStates (fst after) claude = orbStates st claude
      /\ orbStates (fst after) guest = orbStates st guest)
  /\ captions (fst after) = captions st
  /\ autopilot (fst after) = autopilot st
  /\ sharedScreen (fst after) = sharedScreen st.
Proof.
  intros Hh during after. unfold after, during.
  unfold handleHumanSpeechStart. rewrite Hh. cbn [fst snd].
  unfold handleHumanSpeechEnd.
  cbn [humanSpeaking negb orbRestore fst snd duckingActive
       activeAgentSpeakers stopRequests agents fold_left].
  repeat split; orbs; rest; reflexivity.
Qed.

Lemma X23_human_turn_round_trip_witness :
  let st := updateOrbState initialState claude speaking in
  let ctx :=
    {| humanSpeaking := false; duckingActive := false;
       activeAgentSpeakers := [claude]; orbRestore := None;
       recorded := []; stopRequests := [] |} in
  let during := handleHumanSpeechStart st ctx in
  let after := handleHumanSpeechEnd (fst during) (snd during) in
  (humanSpeaking (snd during) = true
   /\ duckingActive (snd during) = true
   /\ activeAgentSpeakers (snd during) = []
   /\ stopRequests (snd during)
      = (stopRequests ctx ++ activeAgentSpeakers ctx)%list
   /\ orbStates (fst during) you = speaking
   /\ orbStates (fst during) claude = muted
   /\ orbStates (fst during) guest = muted)
  /\ (humanSpeaking (snd after) = false
      /\ duckingActive (snd after) = false
      /\ orbRestore (snd after) = None
      /\ orbStates (fst after) you = listening
      /\ orbStates (fst after) claude = orbStates st claude
      /\ orbStates (fst after) guest = orbStates st guest)
  /\ captions (fst after) = captions st
  /\ autopilot (fst after) = autopilot st
  /\ sharedScreen (fst after) = sharedScreen st.
Proof.
  intros st ctx.
  apply (X23_human_turn_round_trip st ctx).
  reflexivity.
Defined.

(** ** Thinking mode *)

(** X24: thinking mode, entered and left.  Entering puts the first
    target (the host when there is none) on the shared screen with the
    command's duration (thirty seconds when it has none) and the end
    time that follows from it, shows that speaker's orb as thinking and
    mutes the other agents; when the timer ends the mode the shared
    screen is the conversation again and both agents' orbs show
    listening, while the human's orb, if the human was the target, still
    shows thinking; captions and autopilot are untouched, and a second
    timer callback changes nothing. *)
Theorem X24_thinking_mode_round_trip (st : State) (command : Command)
    (now : Z) :
  let speaker := match targets command with t :: _ => t | [] => claude end in
  let durationMs := match commandDurationMs command with
                    | Some d => d
                    | None => 30000%Z
                    end in
  let during := enterThinkingMode st command now in
  let after := exitThinkingMode during in
  sharedScreen during
  = thinkingScreen
      {| SharedScreenThinkingState.speaker := speaker;
         SharedScreenThinkingState.durationMs := durationMs;
         SharedScreenThinkingState.startedAt := now;
         SharedScreenThinkingState.endsAt := (now + durationMs)%Z |}
  /\ orbStates during speaker = thinking
  /\ (forall other, (other = claude \/ other = guest) -> other <> speaker ->
        orbStates during other = muted)
  /\ sharedScreen after = conversationScreen
  /\ orbStates after claude = listening
  /\ orbStates after guest = listening
  /\ orbStates after you
     = (if SpeakerId_eqb speaker you then thinking else orbStates st you)
  /\ captions after = captions st
  /\ autopilot after = autopilot st
  /\ exitThinkingMode after = after.
Proof.
  intros speaker durationMs during after.
  assert (Hscreen : sharedScreen during
            = thinkingScreen
                {| SharedScreenThinkingState.speaker := speaker;
                   SharedScreenThinkingState.durationMs := durationMs;
                   SharedScreenThinkingState.startedAt := now;
                   SharedScreenThinkingState.endsAt := (now + durationMs)%Z |}).
  { unfold during, enterThinkingMode. fold speaker.
    cbn [fold_left].
    destruct (SpeakerId_eqb claude speaker), (SpeakerId_eqb guest speaker);
      rest; reflexivity. }
  assert (Horb : forall s,
            orbStates during s
            = if SpeakerId_eqb s speaker then thinking
              else match s with
                   | you => orbStates st you
                   | _ => muted
                   end).
  { intros s. unfold during, enterThinkingMode. fold speaker.
    cbn [fold_left].
    destruct speaker, s; cbn [SpeakerId_eqb]; orbs; reflexivity. }
  assert (Hafter : after
            = updateOrbState
                (updateOrbState
                   {| autopilot := autopilot during;
                      orbStates := orbStates during;
                      captions := captions during;
                      sharedScreen := conversationScreen |}
                   claude listening)
                guest listening).
  { unfold after, exitThinkingMode. rewrite Hscreen. reflexivity. }
  assert (Hrest : captions during = captions st
                  /\ autopilot during = autopilot st).
  { unfold during, enterThinkingMode. cbn [fold_left].
    destruct (SpeakerId_eqb claude _), (SpeakerId_eqb guest _);
      rest; split; reflexivity. }
  split; [exact Hscreen|].
  split; [rewrite Horb; now destruct speaker|].
  split.
  { intros other Hagent Hne. rewrite Horb.
    destruct Hagent as [-> | ->]; destruct speaker; cbn; congruence. }
  rewrite Hafter.
  split; [rest; reflexivity|].
  split; [orbs; reflexivity|].
  split; [orbs; reflexivity|].
  split; [orbs; cbn [orbStates]; rewrite Horb; now destruct speaker|].
  split; [rest; cbn [captions]; apply Hrest|].
  split; [rest; cbn [autopilot]; apply Hrest|].
  unfold exitThinkingMode at 1. rest. reflexivity.
Qed.

End SessionExtras.
